(** * L3DAS21 utility functions: label encoding, decoding and segmentation

    A shallow embedding of [utility_functions.py]:
    - [get_label_task2] and [csv_to_matrix_task2], the two frame-label encoders;
    - [gen_submission_list_task2], the decoder of the model's output;
    - [segment_waveforms] and [segment_task2], the segmenters;
    - [spectrum_fast], at the level of array shapes.

    Conventions.  Python floats are modelled by exact rationals [Q], so
    arithmetic is exact and a division by zero, which NumPy answers with an
    infinity, is outside the model; integer indices and sizes are [nat] or
    [Z].  A Python exception is a value of [exn]; code that can raise
    returns a [result], and the segmenters, which append to their output
    lists as they go, an [outcome].  NumPy arrays are nested lists; a
    well-formed array is rectangular and has no empty leading axis, which
    the theorems state where they need it. *)

From Stdlib Require Import ZArith QArith Qround String Lia Lqa.
From stdpp Require Import base tactics option list strings.

Close Scope Q_scope.
Local Open Scope string_scope.
Local Open Scope list_scope.
Local Open Scope nat_scope.

(** ** Exceptions and results *)

Inductive exn : Type :=
  | ValueError (msg : string)
  | IndexError
  | KeyError
  | TypeError
  | ZeroDivisionError
  | AxisError.

Inductive result (A : Type) : Type :=
  | Ok (a : A)
  | Raise (e : exn).
Arguments Ok {A} a.
Arguments Raise {A} e.

#[global] Instance result_ret : MRet result := fun A a => Ok a.
#[global] Instance result_bind : MBind result := fun A B f m =>
  match m with
  | Ok a => f a
  | Raise e => Raise e
  end.

(** [for x in xs: st = body st x], stopping at the first exception. *)
Fixpoint foldM {S X : Type} (body : S -> X -> result S) (xs : list X) (st : S)
  : result S :=
  match xs with
  | [] => Ok st
  | x :: xs' => st' ← body st x; foldM body xs' st'
  end.

(** [enumerate(xs)] *)
Definition enumerate {X : Type} (xs : list X) : list (nat * X) :=
  zip (seq 0 (length xs)) xs.

(** [l[i]] and [l[i] = v] on a Python list: [IndexError] out of range. *)
Definition getitem {A : Type} (l : list A) (i : nat) : result A :=
  match l !! i with
  | Some a => Ok a
  | None => Raise IndexError
  end.

Definition setitem {A : Type} (l : list A) (i : nat) (v : A) : result (list A) :=
  if decide (i < length l) then Ok (<[i := v]> l) else Raise IndexError.

(** [l.index(x)]: position of the first occurrence, [ValueError] if absent. *)
Fixpoint list_index (x : string) (l : list string) : result nat :=
  match l with
  | [] => Raise (ValueError "x is not in list")
  | y :: l' => if String.eqb y x then Ok 0 else n ← list_index x l'; Ok (S n)
  end.

(** ** Insertion-ordered dictionaries with string keys *)

Section Dict.
Context {V : Type}.

(** [d[k] = v]: an existing key keeps its position. *)
Fixpoint dict_set (k : string) (v : V) (d : list (string * V))
  : list (string * V) :=
  match d with
  | [] => [(k, v)]
  | (k', v') :: d' =>
      if String.eqb k' k then (k, v) :: d' else (k', v') :: dict_set k v d'
  end.

(** [d[k]]: [KeyError] when the key is absent. *)
Fixpoint dict_get (k : string) (d : list (string * V)) : result V :=
  match d with
  | [] => Raise KeyError
  | (k', v') :: d' => if String.eqb k' k then Ok v' else dict_get k d'
  end.
End Dict.

(** [d[k].append(x)] *)
Definition dict_append {X : Type} (k : string) (x : X)
  (d : list (string * list X)) : result (list (string * list X)) :=
  l ← dict_get k d; Ok (dict_set k (l ++ [x]) d).

(** ** Numbers *)

Definition Qlt_bool (a b : Q) : bool := negb (Qle_bool b a).

(** [np.arange(start, stop, step)] over floats: [ceil((stop-start)/step)]
    points [start + k*step]. *)
Definition np_arange_Q (start stop step : Q) : result (list Q) :=
  if Qeq_bool step 0 then Raise ZeroDivisionError
  else Ok (map (fun k => (start + inject_Z (Z.of_nat k) * step)%Q)
             (seq 0 (Z.to_nat (Qceiling ((stop - start) / step))))).

(** [np.arange(0, stop, step)] over integers: [max(0, ceil(stop/step))]
    points [0, step, 2*step, ...]. *)
Definition num_cuts (stop : nat) (step : Z) : nat :=
  Z.to_nat (- ((- Z.of_nat stop) / step))%Z.

Definition np_arange (stop : nat) (step : Z) : result (list nat) :=
  if decide (step = 0%Z) then Raise ZeroDivisionError
  else Ok (map (fun k => k * Z.to_nat step) (seq 0 (num_cuts stop step))).

(** Python's [round] and [np.round]: to the nearest integer, ties to even. *)
Definition round_half_even (q : Q) : Z :=
  let f := Qfloor q in
  match Qcompare (q - inject_Z f) (1 # 2) with
  | Lt => f
  | Gt => (f + 1)%Z
  | Eq => if Z.even f then f else (f + 1)%Z
  end.

(** [int(q)]: truncation towards zero. *)
Definition int_of_Q (q : Q) : Z := Z.quot (Qnum q) (Z.pos (Qden q)).

(** ** The annotation file *)

(** One row of the label csv; [data[0]] .. [data[6]] in [get_label_task2]. *)
Record sound := {
  File : string;
  Start : Q;
  End_ : Q;
  Class : string;
  X : Q;
  Y : Q;
  Z_ : Q
}.

(** The entry [[data[1], data[2], data[4], data[5], data[6]]] of [class_dict]. *)
Record data5 := {
  start_audio : Q;
  end_audio : Q;
  x_audio : Q;
  y_audio : Q;
  z_audio : Q
}.

Definition data_of (s : sound) : data5 :=
  {| start_audio := Start s; end_audio := End_ s;
     x_audio := X s; y_audio := Y s; z_audio := Z_ s |}.

(** ** [get_label_task2] *)

Definition is_None {A} (o : option A) : bool :=
  match o with None => true | Some _ => false end.

(** Lines 175-188: the dictionary from class name to its events. *)
Definition build_class_dict (classes_names : list string) (df : list sound)
  : result (list (string * list data5)) :=
  let class_dict := fold_left (fun d class_name => dict_set class_name [] d)
                      classes_names [] in
  foldM (fun d class_name =>
           let data_for_class :=
             filter (fun s => Class s = class_name) df in
           foldM (fun d data => dict_append (Class data) (data_of data) d)
             data_for_class d)
    classes_names class_dict.

(** Lines 196-207: the three overlap conditions. *)
Definition is_in (data : data5) (start end_ : Q) : bool :=
  if Qlt_bool (start_audio data) start && Qlt_bool end_ (end_audio data) then true
  else if Qlt_bool start (end_audio data) && Qlt_bool (end_audio data) end_ then true
  else if Qlt_bool start (start_audio data) && Qlt_bool (start_audio data) end_ then true
  else false.

(** Lines 210-215: the presence of one more event of the class whose slots
    start at [ind_class]. *)
Definition write_class_slot (class_row : list (option Z)) (ind_class : nat)
  : result (list (option Z)) :=
  c0 ← getitem class_row ind_class;
  if is_None c0 then setitem class_row ind_class (Some 1%Z)
  else
    c1 ← getitem class_row (ind_class + 1);
    if is_None c1 then setitem class_row (ind_class + 1) (Some 1%Z)
    else setitem class_row (ind_class + 2) (Some 1%Z).

(** The three assignments [loc_vec[j][first+int(ind_class*3)] = x_audio],
    [.. first+1 .. = y_audio], [.. first+2 .. = z_audio]. *)
Definition write_xyz (loc_row : list (option Q)) (first ind_class : nat)
  (data : data5) : result (list (option Q)) :=
  r ← setitem loc_row (first + ind_class * 3) (Some (x_audio data));
  r ← setitem r (first + 1 + ind_class * 3) (Some (y_audio data));
  setitem r (first + 2 + ind_class * 3) (Some (z_audio data)).

(** Lines 216-227: the coordinates of that event. *)
Definition write_loc_slot (loc_row : list (option Q)) (ind_class : nat)
  (data : data5) : result (list (option Q)) :=
  l0 ← getitem loc_row (ind_class * 3);
  if is_None l0 then write_xyz loc_row 0 ind_class data
  else
    l1 ← getitem loc_row (ind_class + 1);
    if is_None l1 then write_xyz loc_row 3 ind_class data
    else write_xyz loc_row 6 ind_class data.

(** The class and location rows of one frame. *)
Definition rowpair : Type := list (option Z) * list (option Q).

(** Lines 209-227: one overlapping event written into the rows of frame [j]. *)
Definition write_event (classes_names : list string) (clas : string)
  (data : data5) (r : rowpair) : result rowpair :=
  let '(class_row, loc_row) := r in
  idx ← list_index clas classes_names;
  let ind_class := idx * 3 in
  class_row ← write_class_slot class_row ind_class;
  loc_row ← write_loc_slot loc_row ind_class data;
  Ok (class_row, loc_row).

Definition vecs : Type := list (list (option Z)) * list (list (option Q)).

(** [class_vec[j]] and [loc_vec[j]] updated in place by [f]. *)
Definition on_frame (j : nat) (f : rowpair -> result rowpair) (v : vecs) : result vecs :=
  let '(class_vec, loc_vec) := v in
  class_row ← getitem class_vec j;
  loc_row ← getitem loc_vec j;
  '(class_row, loc_row) ← f (class_row, loc_row);
  Ok (<[j := class_row]> class_vec, <[j := loc_row]> loc_vec).

Definition fill_None {A} (zero : A) (l : list (option A)) : list (option A) :=
  map (fun o => match o with None => Some zero | Some a => Some a end) l.

(** Lines 190-233: the body of the loop over frames. *)
Definition frame_step (classes_names : list string)
  (class_dict : list (string * list data5)) (frame_len : Q)
  (v : vecs) (ji : nat * Q) : result vecs :=
  let '(j, i) := ji in
  let start := (i - frame_len)%Q in
  let end_ := i in
  v ← foldM (fun v '(clas, data_list) =>
               foldM (fun v data =>
                        if is_in data start end_
                        then on_frame j (write_event classes_names clas data) v
                        else Ok v)
                 data_list v)
        class_dict v;
  on_frame j (fun '(class_row, loc_row) =>
                Ok (fill_None 0%Z class_row, fill_None 0%Q loc_row)) v.

(** [np.array(rows)] followed by arithmetic: a remaining [None] is a
    [TypeError]. *)
Definition np_array {A} (rows : list (list (option A))) : result (list (list A)) :=
  foldM (fun acc row =>
           r ← foldM (fun acc o =>
                        match o with
                        | Some a => Ok (acc ++ [a])
                        | None => Raise TypeError
                        end) row [];
           Ok (acc ++ [r]))
    rows [].

Definition get_label_task2 (df : list sound) (frame_len file_size : Q)
  (classes_ : list string) (num_frames : nat) (max_label_distance : Q)
  : result (list (list Q)) :=
  let num_classes := length classes_ in
  let class_vec := replicate num_frames (replicate (num_classes * 3) (@None Z)) in
  let loc_vec := replicate num_frames (replicate (num_classes * 9) (@None Q)) in
  let classes_names := classes_ in
  class_dict ← build_class_dict classes_names df;
  frames ← np_arange_Q frame_len (file_size + frame_len) frame_len;
  '(class_vec, loc_vec) ←
    foldM (frame_step classes_names class_dict frame_len)
      (enumerate frames) (class_vec, loc_vec);
  class_vec ← np_array class_vec;
  loc_vec ← np_array loc_vec;
  let loc_vec := map (map (fun x => (x / max_label_distance)%Q)) loc_vec in
  if decide (num_frames = 0) then Raise IndexError
  else Ok (zip_with (fun c l => map inject_Z c ++ l) class_vec loc_vec).

(** The two halves of a stacked row, as the training code separates them. *)
Definition sed_part (num_classes : nat) (stacked : list (list Q)) : list (list Q) :=
  map (take (num_classes * 3)) stacked.
Definition doa_part (num_classes : nat) (stacked : list (list Q)) : list (list Q) :=
  map (drop (num_classes * 3)) stacked.

(** ** The rows of one frame, event by event *)

(** The events of class [clas], in file order. *)
Definition events_of (df : list sound) (clas : string) : list data5 :=
  map data_of (filter (fun s => Class s = clas) df).

(** The events of class [clas] that overlap the frame from [start] to
    [end_], in file order. *)
Definition overlapping (df : list sound) (clas : string) (start end_ : Q)
  : list data5 :=
  filter (fun d => is_in d start end_) (events_of df clas).

(** The loops of lines 193-227 on the rows of the frame. *)
Definition frame_rows (names : list string)
  (class_dict : list (string * list data5)) (start end_ : Q) (r : rowpair)
  : result rowpair :=
  foldM (fun r '(clas, data_list) =>
           foldM (fun r data =>
                    if is_in data start end_
                    then write_event names clas data r
                    else Ok r)
             data_list r)
    class_dict r.

Definition blank_rows (n : nat) : rowpair :=
  (replicate (n * 3) None, replicate (n * 9) None).

(** The overlapping events of one class, written in file order. *)
Definition write_events (names : list string) (clas : string)
  (evs : list data5) (r : rowpair) : result rowpair :=
  foldM (fun r data => write_event names clas data r) evs r.

(** The coordinates of [d] are in location slot [s] of the class at [idx]. *)
Definition loc_at (lr : list (option Q)) (idx s : nat) (d : data5) : Prop :=
  lr !! (idx * 9 + s * 3) = Some (Some (x_audio d)) /\
  lr !! (idx * 9 + s * 3 + 1) = Some (Some (y_audio d)) /\
  lr !! (idx * 9 + s * 3 + 2) = Some (Some (z_audio d)).

(** The slots of the class at [idx] after its events [evs] were written:
    as many presence slots as events, up to three; the first event in
    location slot 0; the last event, when it is not the first, in location
    slot 1 or 2. *)
Definition slot_state (evs : list data5) (idx : nat) (r : rowpair) : Prop :=
  (forall s, s < 3 ->
     r.1 !! (idx * 3 + s)
     = Some (if decide (s < length evs) then Some 1%Z else None)) /\
  (evs = [] -> r.2 !! (idx * 9) = Some None) /\
  (forall d, head evs = Some d -> loc_at r.2 idx 0 d) /\
  (forall d, 2 <= length evs -> last evs = Some d ->
     exists s, (s = 1 \/ s = 2) /\ loc_at r.2 idx s d).

(** ** [csv_to_matrix_task2] *)

(** [a[i]] on a NumPy axis of length [len]: a negative index counts from
    the end. *)
Definition np_index (len : nat) (i : Z) : result nat :=
  if decide (0 <= i < Z.of_nat len)%Z then Ok (Z.to_nat i)
  else if decide (- Z.of_nat len <= i < 0)%Z then Ok (Z.to_nat (Z.of_nat len + i))
  else Raise IndexError.

Definition Qsum (l : list Q) : Q := foldr Qplus 0%Q l.

(** [quantize = lambda x: round(float(x) / step) * step] *)
Definition quantize (step x : Q) : result Q :=
  if Qeq_bool step 0 then Raise ZeroDivisionError
  else Ok (inject_Z (round_half_even (x / step)) * step)%Q.

(** [np.interp(x, (0, dur), (0, hi))] for [0 < dur]: clamped at both ends. *)
Definition np_interp (x dur hi : Q) : Q :=
  if Qle_bool x 0 then 0%Q
  else if Qle_bool dur x then hi
  else (x * (hi / dur))%Q.

(** [get_frame = lambda x: int(np.interp(x, (0,dur), (0,num_frames-1)))] *)
Definition get_frame (dur : Q) (num_frames : Z) (x : Q) : Z :=
  int_of_Q (np_interp x dur (inject_Z (num_frames - 1))).

(** [np.arange(lo, hi)] over integers. *)
Definition np_arange_Z (lo hi : Z) : list Z :=
  map (fun k => (lo + Z.of_nat k)%Z) (seq 0 (Z.to_nat (hi - lo))).

Definition tensors : Type := list (list (list Q)) * list (list (list (list Q))).

(** Lines 139-144: one frame [f] of one sound. *)
Definition mark_frame (class_id : Z) (s : sound) (t : tensors) (f : Z)
  : result tensors :=
  let '(cl, loc) := t in
  fi ← np_index (length cl) f;
  cl_f ← getitem cl fi;
  ci ← np_index (length cl_f) class_id;
  cl_fc ← getitem cl_f ci;
  let pos := Z.to_nat (int_of_Q (Qsum cl_fc)) in
  cl_fc ← setitem cl_fc pos 1%Q;
  loc_f ← getitem loc fi;
  loc_fc ← getitem loc_f ci;
  loc_fc ← setitem loc_fc pos [X s; Y s; Z_ s];
  Ok (<[fi := <[ci := cl_fc]> cl_f]> cl, <[fi := <[ci := loc_fc]> loc_f]> loc).

Definition csv_to_matrix_task2 (df : list sound) (class_dict : list (string * Z))
  (dur step : Q) (max_overlap : nat) (max_loc_value : Q)
  : result (list (list Q)) :=
  if Qeq_bool step 0 then Raise ZeroDivisionError
  else
    let tot_steps := int_of_Q (dur / step) in
    let num_classes := length class_dict in
    let num_frames := int_of_Q (dur / step) in
    if decide (tot_steps < 0)%Z
    then Raise (ValueError "negative dimensions are not allowed")
    else
      let cl := replicate (Z.to_nat tot_steps)
                  (replicate num_classes (replicate max_overlap 0%Q)) in
      let loc := replicate (Z.to_nat tot_steps)
                   (replicate num_classes
                      (replicate max_overlap (replicate 3 0%Q))) in
      '(cl, loc) ←
        foldM (fun t s =>
                 start ← quantize step (Start s);
                 end_ ← quantize step (End_ s);
                 let start_frame := get_frame dur num_frames start in
                 let end_frame := get_frame dur num_frames end_ in
                 class_id ← dict_get (Class s) class_dict;
                 let sound_frames := np_arange_Z start_frame (end_frame + 1) in
                 foldM (mark_frame class_id s) sound_frames t)
          df ((cl, loc) : tensors);
      let cl := map (fun m => concat m) cl in
      let loc := map (fun l => concat (concat l)) loc in
      let loc := map (map (fun x => (x / max_loc_value)%Q)) loc in
      Ok (zip_with app cl loc).

(** ** [gen_submission_list_task2] *)

(** [a.reshape(rows, cols)] of a flat array, row-major. *)
Definition reshape2 {A} (rows cols : nat) (l : list A) : result (list (list A)) :=
  if decide (length l = rows * cols)
  then Ok (map (fun r => take cols (drop (r * cols) l)) (seq 0 rows))
  else Raise (ValueError "cannot reshape array").

(** [a.reshape(n0, n1, n2)] of a flat array. *)
Definition reshape3 {A} (n0 n1 n2 : nat) (l : list A)
  : result (list (list (list A))) :=
  if decide (length l = n0 * n1 * n2)
  then Ok (map (fun r =>
                  map (fun c => take n2 (drop (c * n2) (take (n1 * n2) (drop (r * (n1 * n2)) l))))
                    (seq 0 n1))
             (seq 0 n0))
  else Raise (ValueError "cannot reshape array").

(** A row [[time_frame, sound_class, x, y, z]] of the submission list. *)
Definition entry : Type := nat * nat * Q * Q * Q.
Definition mk_entry (i c : nat) (x y z : Q) : entry := (i, c, x, y, z).

(** Lines 97-103: the events of one frame. *)
Definition frame_events (max_overlaps : nat) (i : nat) (c : list Z)
  (l : list (list (list Q))) (output : list entry) : result (list entry) :=
  foldM (fun output '(j, e) =>
           if decide (e <> 0%Z) then
             if decide (max_overlaps = 0) then Raise ZeroDivisionError
             else
               let predicted_class := j / max_overlaps in
               let num_event := j mod max_overlaps in
               l_c ← getitem l predicted_class;
               l_ce ← getitem l_c num_event;
               x ← getitem l_ce 0;
               y ← getitem l_ce 1;
               z ← getitem l_ce 2;
               Ok (output ++ [(i, predicted_class, x, y, z)])
           else Ok output)
    (enumerate c) output.

Definition gen_submission_list_task2 (sed doa : list (list Q))
  (max_loc_value : Q) (num_frames num_classes max_overlaps : nat)
  : result (list entry) :=
  foldM (fun output '(i, (c, l)) =>
           let c := map round_half_even c in
           let l := map (fun v => (v * max_loc_value)%Q) l in
           l ← reshape3 num_classes max_overlaps 3 l;
           if decide (foldr Z.add 0%Z c = 0%Z) then Ok output
           else frame_events max_overlaps i c l output)
    (enumerate (zip sed doa)) [].

(** ** Segmenters *)

(** What a segmenter has done when it stops: it returns the two lists of
    chunks, or raises with the chunks appended so far. *)
Inductive outcome (CX CY : Type) : Type :=
  | Returned (X : list CX) (Y : list CY)
  | Raised (e : exn) (X : list CX) (Y : list CY).
Arguments Returned {CX CY} X Y.
Arguments Raised {CX CY} e X Y.

(** [for i in range(n): cut_x, cut_y = body i; X.append(cut_x); Y.append(cut_y)] *)
Fixpoint append_loop {CX CY : Type} (body : nat -> result (CX * CY))
  (range : list nat) (X : list CX) (Y : list CY) : outcome CX CY :=
  match range with
  | [] => Returned X Y
  | i :: range' =>
      match body i with
      | Ok (cut_x, cut_y) => append_loop body range' (X ++ [cut_x]) (Y ++ [cut_y])
      | Raise e => Raised e X Y
      end
  end.

Definition broadcast_msg : string := "could not broadcast input array".
Definition frames_msg : string :=
  "Predictors and test frames should be selected to produce the same amount of frames".

(** [int(len_segment * overlap)], the step between two cuts of
    [segment_task2]. *)
Definition stride (len_segment : nat) (overlap : Q) : Z :=
  int_of_Q (inject_Z (Z.of_nat len_segment) * overlap).


Section Segment.
Context {A : Type} (zero : A).

(** [x.shape[-1]] of a 2-d array, and of a 3-d array. *)
Definition shape_last (x : list (list A)) : nat :=
  match x with [] => 0 | r :: _ => length r end.
Definition shape_last3 (x : list (list (list A))) : nat :=
  match x with [] => 0 | m :: _ => shape_last m end.
(** [x.shape[1]] of a 3-d array. *)
Definition shape_mid3 (x : list (list (list A))) : nat :=
  match x with [] => 0 | m :: _ => length m end.

(** [r[start:end]] for [0 <= start] and [0 <= end]. *)
Definition slice (start end_ : nat) (r : list A) : list A :=
  take (end_ - start) (drop start r).

(** [pad[.., :len(r)] = r] on a row of [d] zeros. *)
Definition pad_row (d : nat) (r : list A) : list A :=
  r ++ replicate (d - length r) zero.

(** [pad] of [segment_waveforms]. *)
Definition pad (x : list (list A)) (d : nat) : result (list (list A)) :=
  if decide (Forall (fun r => length r <= d) x)
  then Ok (map (pad_row d) x)
  else Raise (ValueError broadcast_msg).

(** [pad] of [segment_task2]: 3-d, padding the last dimension. *)
Definition pad3 (x : list (list (list A))) (d : nat)
  : result (list (list (list A))) :=
  if decide (Forall (Forall (fun r => length r <= d)) x)
  then Ok (map (map (pad_row d)) x)
  else Raise (ValueError broadcast_msg).

(** Lines 263-271: the chunk at cut [i]. *)
Definition waveform_cut (predictors target : list (list A)) (length_ : nat)
  (cuts : list nat) (i : nat) : result (list (list A) * list (list A)) :=
  start ← getitem cuts i;
  if decide (i <> length cuts - 1) then
    end_ ← getitem cuts (i + 1);
    Ok (map (slice start end_) predictors, map (slice start end_) target)
  else
    let end_ := shape_last predictors in
    cut_x ← pad (map (slice start end_) predictors) length_;
    cut_y ← pad (map (slice start end_) target) length_;
    Ok (cut_x, cut_y).

Definition segment_waveforms (predictors target : list (list A))
  (length_ : nat) : outcome (list (list A)) (list (list A)) :=
  match np_arange (shape_last predictors) (Z.of_nat length_) with
  | Raise e => Raised e [] []
  | Ok cuts =>
      append_loop (waveform_cut predictors target length_ cuts)
        (seq 0 (length cuts)) [] []
  end.

(** Lines 296-308: the pair of chunks at cut [i]. *)
Definition task2_cut (predictors target : list (list (list A)))
  (predictors_len_segment target_len_segment : nat)
  (cuts_predictors cuts_target : list nat) (i : nat)
  : result (list (list (list A)) * list (list A)) :=
  start_p ← getitem cuts_predictors i;
  start_t ← getitem cuts_target i;
  let end_p := start_p + predictors_len_segment in
  let end_t := start_t + target_len_segment in
  '(cut_x, cut_y) ←
    (if decide (end_p <= shape_last3 predictors) then
       Ok (map (map (slice start_p end_p)) predictors,
           map (map (slice start_t end_t)) target)
     else
       cut_x ← pad3 (map (map (drop start_p)) predictors) predictors_len_segment;
       cut_y ← pad3 (map (map (drop start_t)) target) target_len_segment;
       Ok (cut_x, cut_y));
  cut_y ← reshape2 (shape_last3 cut_y) (shape_mid3 cut_y) (concat (concat cut_y));
  Ok (cut_x, cut_y).

Definition segment_task2 (predictors : list (list (list A)))
  (target : list (list A)) (predictors_len_segment target_len_segment : nat)
  (overlap : Q) : outcome (list (list (list A))) (list (list A)) :=
  match reshape3 1 (shape_last target) (length target) (concat target) with
  | Raise e => Raised e [] []
  | Ok target =>
      match np_arange (shape_last3 predictors)
              (stride predictors_len_segment overlap) with
      | Raise e => Raised e [] []
      | Ok cuts_predictors =>
          match np_arange (shape_last3 target)
                  (stride target_len_segment overlap) with
          | Raise e => Raised e [] []
          | Ok cuts_target =>
              if decide (length cuts_predictors <> length cuts_target)
              then Raised (ValueError frames_msg) [] []
              else
                append_loop
                  (task2_cut predictors target predictors_len_segment
                     target_len_segment cuts_predictors cuts_target)
                  (seq 0 (length cuts_predictors)) [] []
          end
      end
  end.
End Segment.

(** ** Chunks in closed form *)

Section Chunks.
Context {A : Type} (zero : A).

(** The window of [len] columns from column [start] of a row, cut as it
    is, and the rest of the row from [start] on, zero-padded on the right
    to [len]. *)
Definition exact_chunk (start len : nat) (r : list A) : list A :=
  take len (drop start r).
Definition padded_chunk (start len : nat) (r : list A) : list A :=
  drop start r ++ replicate (len - (length r - start)) zero.

(** The [len] columns from column [start] of a row followed by zeros. *)
Definition window (start len : nat) (r : list A) : list A :=
  take len (drop start r ++ replicate len zero).

(** The pair of chunks of [segment_task2] at the start columns [start_p]
    and [start_t]: slices when the predictor window fits, zero-padded
    otherwise; the target chunk before its final reshape. *)
Definition task2_cut_x (predictors : list (list (list A)))
  (predictors_len_segment start_p : nat) : list (list (list A)) :=
  if decide (start_p + predictors_len_segment <= shape_last3 predictors)
  then map (map (exact_chunk start_p predictors_len_segment)) predictors
  else map (map (padded_chunk start_p predictors_len_segment)) predictors.

Definition task2_cut_y (predictors target : list (list (list A)))
  (predictors_len_segment target_len_segment start_p start_t : nat)
  : list (list (list A)) :=
  if decide (start_p + predictors_len_segment <= shape_last3 predictors)
  then map (map (exact_chunk start_t target_len_segment)) target
  else map (map (padded_chunk start_t target_len_segment)) target.

(** The chunk that [waveform_cut] makes of [M] at cut [i] of [k]. *)
Definition wave_chunk (n length_ k : nat) (M : list (list A)) (i : nat)
  : list (list A) :=
  if decide (i <> k - 1)
  then map (slice (i * length_) ((i + 1) * length_)) M
  else map (fun r => pad_row zero length_ (slice (i * length_) n r)) M.

(** [np.concatenate(chunks, axis=-1)] for 2-d chunks of [nrows] rows. *)
Definition concat_time (nrows : nat) (chunks : list (list (list A)))
  : list (list A) :=
  map (fun c => concat (map (fun chunk => default [] (chunk !! c)) chunks))
    (seq 0 nrows).

(** Truncation to [len] samples along the time axis. *)
Definition truncate (len : nat) (x : list (list A)) : list (list A) :=
  map (take len) x.
End Chunks.

(** ** [spectrum_fast], on shapes

    The values of the transform are complex floats and are not modelled: an
    array is represented by its shape, which is all that indexing,
    slicing and concatenation look at to succeed or fail. *)

Definition shape : Type := list nat.

(** [np.concatenate((a, b), axis=-3)] *)
Definition concatenate_axis_m3 (a b : shape) : result shape :=
  match rev a, rev b with
  | t :: f :: c :: pre, t' :: f' :: c' :: pre' =>
      if decide (t = t' /\ f = f' /\ pre = pre')
      then Ok (rev (t :: f :: (c + c') :: pre))
      else Raise (ValueError "all the input array dimensions must match")
  | _, _ => Raise AxisError
  end.

(** [a[:, 1:, :]] *)
Definition cut_first_of_axis1 (a : shape) : result shape :=
  match a with
  | c :: f :: t :: post => Ok (c :: (f - 1) :: t :: post)
  | _ => Raise IndexError
  end.

(** [a[:, :, :-1]] *)
Definition cut_last_of_axis2 (a : shape) : result shape :=
  match a with
  | c :: f :: t :: post => Ok (c :: f :: (t - 1) :: post)
  | _ => Raise IndexError
  end.

Section Spectrum.
(** [scipy.signal.stft], an external collaborator: from the shape of the
    signal, the window and the two window sizes to the shape of the
    transform, or an exception. *)
Variable stft : shape -> string -> Z -> Z -> result shape.

Definition spectrum_fast (x : shape) (nperseg noverlap : Z) (window : string)
  (cut_dc output_phase cut_last_timeframe : bool) : result shape :=
  seg_stft ← stft x window nperseg noverlap;
  let output := seg_stft in
  output ←
    (if output_phase then
       let phase := seg_stft in
       concatenate_axis_m3 output phase
     else Ok output);
  output ← (if cut_dc then cut_first_of_axis1 output else Ok output);
  output ← (if cut_last_timeframe then cut_last_of_axis2 output else Ok output);
  Ok output.
End Spectrum.

(** ** Reading a stacked label row *)

(** The presence entry and the location triple of overlap slot [slot] of the
    class at position [cls], in a stacked row for [num_classes] classes. *)
Definition presence (row : list Q) (cls slot : nat) : option Q :=
  Qred <$> row !! (cls * 3 + slot).
Definition raw_location (num_classes : nat) (row : list Q) (cls slot : nat)
  : list Q :=
  take 3 (drop (num_classes * 3 + cls * 9 + slot * 3) row).
Definition location (num_classes : nat) (row : list Q) (cls slot : nat) : list Q :=
  map Qred (raw_location num_classes row cls slot).

(** The coordinates of an event divided by the maximal distance. *)
Definition normalized (max_label_distance : Q) (d : data5) : list Q :=
  [(x_audio d / max_label_distance)%Q; (y_audio d / max_label_distance)%Q;
   (z_audio d / max_label_distance)%Q].

Definition Qred_entry (e : entry) : entry :=
  let '(i, c, x, y, z) := e in (i, c, Qred x, Qred y, Qred z).

(** Encoding followed by decoding, the class scores and the locations being
    the two halves of the stacked rows. *)
Definition encode_decode (df : list sound) (frame_len file_size : Q)
  (classes_ : list string) (num_frames : nat) (max_label_distance : Q)
  : result (list entry) :=
  stacked ← get_label_task2 df frame_len file_size classes_ num_frames
              max_label_distance;
  gen_submission_list_task2
    (sed_part (length classes_) stacked) (doa_part (length classes_) stacked)
    max_label_distance num_frames (length classes_) 3.

(** ** The decoder, as the specification words it *)

(** A class score as a sigmoid gives it, between 0 and 1. *)
Definition unit_score (s : Q) : Prop := (0 <= s)%Q /\ (s <= 1)%Q.

(** A class score counts as active when it is strictly above one half. *)
Definition active (score : Q) : bool := Qlt_bool (1 # 2) score.

(** The threshold as the specification words it: one half or above. *)
Definition active_at_half (score : Q) : bool := Qle_bool (1 # 2) score.

(** Coordinate [k] of event [event] of class [cls] in a flat location row
    with [max_overlaps] events per class. *)
Definition coord (l : list Q) (max_overlaps cls event k : nat) : Q :=
  default 0%Q (l !! ((cls * max_overlaps + event) * 3 + k)).

(** The rows of frame [i]: one row per slot [j] whose score [act] accepts,
    with class [j / max_overlaps] and the location of event
    [j mod max_overlaps] of that class multiplied by [max_loc_value]. *)
Definition slot_rows (act : Q -> bool) (max_loc_value : Q)
  (max_overlaps i : nat) (c l : list Q) : list entry :=
  concat (map (fun '(j, score) =>
                 if act score
                 then
                   let class_id := j / max_overlaps in
                   let event := j mod max_overlaps in
                   [mk_entry i class_id
                      (coord l max_overlaps class_id event 0 * max_loc_value)
                      (coord l max_overlaps class_id event 1 * max_loc_value)
                      (coord l max_overlaps class_id event 2 * max_loc_value)]
                 else [])
            (enumerate c)).

Definition decode_spec (act : Q -> bool) (sed doa : list (list Q))
  (max_loc_value : Q) (max_overlaps : nat) : list entry :=
  concat (map (fun '(i, (c, l)) => slot_rows act max_loc_value max_overlaps i c l)
            (enumerate (zip sed doa))).

(** ** Sample annotations *)

Definition dog (start end_ x y z : Q) : sound :=
  {| File := "fold0_room1_mix001.wav"; Start := start; End_ := end_;
     Class := "dog"; X := x; Y := y; Z_ := z |}.

(** The event of the scenario: a dog from 0.0 s to 0.5 s at (1, 0, 0). *)
Definition scenario : list sound := [dog 0 (1 # 2) 1 0 0].

(** Two dogs heard together from 0.0 s to 0.5 s. *)
Definition two_dogs : list sound :=
  [dog 0 (1 # 2) 1 0 0; dog 0 (1 # 2) 2 (-1) (1 # 2)].

(** Four dogs heard together. *)
Definition three_dogs : list sound :=
  two_dogs ++ [dog 0 (1 # 2) (3 # 2) 1 1].
Definition four_dogs : list sound :=
  three_dogs ++ [dog 0 (1 # 2) (-2) (-2) (-1)].

(** ** Sample arrays *)


(** One channel, one frequency bin, [n] time columns numbered from 1. *)
Definition spectrogram (n : nat) : list (list (list nat)) := [[seq 1 n]].

(** [n] label frames of one feature each, numbered from 1. *)
Definition labels (n : nat) : list (list nat) := map (fun k => [k]) (seq 1 n).

(** ** [csv_to_matrix_task2], frame by frame *)

(** The frame of the time stamp [x]: lines 121-123 and 130-133. *)
Definition frame_of (dur step : Q) (x : Q) : Z :=
  get_frame dur (int_of_Q (dur / step))
    (inject_Z (round_half_even (x / step)) * step).

(** The sound [s] has the class id [c] and frame [f] is one of its frames. *)
Definition marks (class_dict : list (string * Z)) (dur step : Q) (c f : nat)
  (s : sound) : bool :=
  match dict_get (Class s) class_dict with
  | Ok class_id => (class_id =? Z.of_nat c)%Z
  | Raise _ => false
  end
  && (frame_of dur step (Start s) <=? Z.of_nat f)%Z
  && (Z.of_nat f <=? frame_of dur step (End_ s))%Z.

(** The sounds that mark frame [f] with the class id [c], in file order. *)
Definition marking (class_dict : list (string * Z)) (dur step : Q)
  (df : list sound) (f c : nat) : list sound :=
  filter (fun s => marks class_dict dur step c f s) df.

(** [num_frames] of line 117. *)
Definition frame_count (dur step : Q) : nat := Z.to_nat (int_of_Q (dur / step)).

(** The slots of one class in one frame once the sounds [evs] are written. *)
Definition cl_slots (max_overlap : nat) (evs : list sound) : list Q :=
  replicate (length evs) 1%Q ++ replicate (max_overlap - length evs) 0%Q.
Definition loc_slots (max_overlap : nat) (evs : list sound) : list (list Q) :=
  map (fun s => [X s; Y s; Z_ s]) evs
  ++ replicate (max_overlap - length evs) (replicate 3 0%Q).

(** The two tensors in which frame [f] and class [c] hold the sounds
    [E f c]. *)
Definition render (num_frames num_classes max_overlap : nat)
  (E : nat -> nat -> list sound) : tensors :=
  (map (fun f => map (fun c => cl_slots max_overlap (E f c)) (seq 0 num_classes))
     (seq 0 num_frames),
   map (fun f => map (fun c => loc_slots max_overlap (E f c)) (seq 0 num_classes))
     (seq 0 num_frames)).

(** One more sound [s] of class [c] in frame [f]. *)
Definition add_sound (E : nat -> nat -> list sound) (f c : nat) (s : sound)
  : nat -> nat -> list sound :=
  fun f' c' => if decide (f' = f /\ c' = c) then E f' c' ++ [s] else E f' c'.

(** The same in each of the frames [fs]. *)
Definition add_sounds (E : nat -> nat -> list sound) (fs : list nat) (c : nat)
  (s : sound) : nat -> nat -> list sound :=
  fun f' c' => if decide (f' ∈ fs /\ c' = c) then E f' c' ++ [s] else E f' c'.

(** Lines 128-144: one sound of the file. *)
Definition mark_sound (class_dict : list (string * Z)) (dur step : Q)
  (t : tensors) (s : sound) : result tensors :=
  start ← quantize step (Start s);
  end_ ← quantize step (End_ s);
  let start_frame := get_frame dur (int_of_Q (dur / step)) start in
  let end_frame := get_frame dur (int_of_Q (dur / step)) end_ in
  class_id ← dict_get (Class s) class_dict;
  let sound_frames := np_arange_Z start_frame (end_frame + 1) in
  foldM (mark_frame class_id s) sound_frames t.

(** The frames of the sound [s]: from the frame of its start to the frame
    of its end. *)
Definition sound_span (dur step : Q) (s : sound) : list nat :=
  seq (Z.to_nat (frame_of dur step (Start s)))
    (Z.to_nat (frame_of dur step (End_ s) + 1 - frame_of dur step (Start s))).

(** Lines 148-155: the two tensors flattened, the locations normalized, and
    the rows of both put side by side. *)
Definition stack (max_loc_value : Q) (t : tensors) : list (list Q) :=
  let '(cl, loc) := t in
  let cl := map (fun m => concat m) cl in
  let loc := map (fun l => concat (concat l)) loc in
  let loc := map (map (fun x => (x / max_loc_value)%Q)) loc in
  zip_with app cl loc.

(** ** The decoder on arbitrary scores *)

(** A score gives a row when [np.round] makes it non-zero. *)
Definition emitted (score : Q) : bool := negb (round_half_even score =? 0)%Z.

(** The rows of the decoder: nothing for a frame whose rounded scores sum
    to zero, and otherwise one row per slot whose score rounds to a
    non-zero integer. *)
Definition decode_rounded (sed doa : list (list Q)) (max_loc_value : Q)
  (max_overlaps : nat) : list entry :=
  concat (map (fun '(i, (c, l)) =>
                 if decide (foldr Z.add 0%Z (map round_half_even c) = 0%Z) then []
                 else slot_rows emitted max_loc_value max_overlaps i c l)
            (enumerate (zip sed doa))).

(** The rows of an annotation: frame after frame and class after class,
    one row per sound that marks the frame, in file order, its coordinates
    passed through [g]. *)
Definition annotated_rows (g : Q -> Q) (class_dict : list (string * Z))
  (dur step : Q) (df : list sound) : list entry :=
  concat (map (fun f =>
                 concat (map (fun c =>
                                map (fun s => mk_entry f c (g (X s)) (g (Y s))
                                                (g (Z_ s)))
                                  (marking class_dict dur step df f c))
                           (seq 0 (length class_dict))))
            (seq 0 (frame_count dur step))).

(** The class scores and the locations of frame [f] in the stacked matrix
    of the tensors of [E]. *)
Definition score_row (nc mo : nat) (E : nat -> nat -> list sound) (f : nat)
  : list Q :=
  concat (map (fun c => cl_slots mo (E f c)) (seq 0 nc)).
Definition location_row (mlv : Q) (nc mo : nat) (E : nat -> nat -> list sound)
  (f : nat) : list Q :=
  map (fun x => (x / mlv)%Q)
    (concat (concat (map (fun c => loc_slots mo (E f c)) (seq 0 nc)))).

(** ** More samples *)

Definition cat (start end_ x y z : Q) : sound :=
  {| File := "fold0_room1_mix001.wav"; Start := start; End_ := end_;
     Class := "cat"; X := x; Y := y; Z_ := z |}.

(** The class ids of an annotation that only knows dogs. *)
Definition dog_ids : list (string * Z) := [("dog", 0%Z)].

(** [n] label frames of two features each, numbered from 1 in row-major
    order. *)
Definition label_pairs (n : nat) : list (list nat) :=
  map (fun k => [2 * k + 1; 2 * k + 2]) (seq 0 n).

(** * Checkpoints and the training loop

    [save_model] and [load_model] of [utility_functions.py] and their
    caller, the training script [train_baseline_task1_fasnet.py].  What
    PyTorch does is not modelled: the module, the optimizer, the loss of a
    batch and the optimisation step are parameters, and a file is the
    dictionary that [torch.save] wrote under its path. *)

(** ** Failures *)

(** What this code can raise: the built-in exceptions above, the
    [FileNotFoundError] of [torch.load], the [RuntimeError] of PyTorch and
    the [AttributeError] of a method that a value does not have. *)
Inductive failure : Type :=
  | Builtin (e : exn)
  | FileNotFoundError
  | RuntimeError (msg : string)
  | AttributeError.

Inductive attempt (A : Type) : Type :=
  | Success (a : A)
  | Failure (e : failure).
Arguments Success {A} a.
Arguments Failure {A} e.

#[global] Instance attempt_ret : MRet attempt := fun A a => Success a.
#[global] Instance attempt_bind : MBind attempt := fun A B f m =>
  match m with
  | Success a => f a
  | Failure e => Failure e
  end.

(** [for x in xs: st = body st x], stopping at the first failure. *)
Fixpoint foldA {S X : Type} (body : S -> X -> attempt S) (xs : list X) (st : S)
  : attempt S :=
  match xs with
  | [] => Success st
  | x :: xs' => st' ← body st x; foldA body xs' st'
  end.

(** [d[k]] on a dictionary with the keys of a record: [KeyError] when the
    entry is missing. *)
Definition subscript {A} (entry : option A) : attempt A :=
  match entry with
  | Some a => Success a
  | None => Failure (Builtin KeyError)
  end.

(** ** Running means *)

(** A running mean as Python has it.  It starts as the float [0.] (lines 35
    and 161), and the first batch adds a tensor to it (lines 45 and 176),
    which makes it a tensor: it is a tensor when the loader has given at
    least one batch, and still the float when it has given none. *)
Inductive scalar : Type :=
  | PyFloat (q : Q)
  | Tensor (q : Q).

Definition mean_of {X} (batches : list X) (value : Q) : scalar :=
  match batches with
  | [] => PyFloat value
  | _ :: _ => Tensor value
  end.

(** [loss.cpu().detach().numpy()]: a float has no method [cpu]. *)
Definition cpu (loss : scalar) : attempt Q :=
  match loss with
  | Tensor q => Success q
  | PyFloat _ => Failure AttributeError
  end.

(** ** The state of the training loop *)

(** A loss, or the [np.Inf] that [best_loss] starts from. *)
Inductive loss : Type :=
  | Finite (q : Q)
  | Inf.

(** [a >= b] *)
Definition loss_ge (a b : loss) : bool :=
  match a, b with
  | Inf, _ => true
  | Finite _, Inf => false
  | Finite x, Finite y => Qle_bool y x
  end.

(** The dictionary [state] of lines 143-146; an entry that is not there is
    [None]. *)
Record train_state := {
  step : option Z;
  worse_epochs : option Z;
  epochs : option Z;
  best_loss : option loss;
  best_checkpoint : option string
}.

(** ** Checkpoint files *)

(** The dictionary that [torch.save] writes; [ckpt_step] is the entry
    ['step'] of older checkpoints. *)
Record checkpoint (V W : Type) := {
  model_state_dict : option (list (string * V));
  optimizer_state_dict : option W;
  state : option train_state;
  ckpt_step : option Z
}.
Arguments model_state_dict {V W} c.
Arguments optimizer_state_dict {V W} c.
Arguments state {V W} c.
Arguments ckpt_step {V W} c.

(** The files, by path. *)
Definition files (V W : Type) : Type := list (string * checkpoint V W).

Definition torch_load {V W} (path : string) (fs : files V W)
  : attempt (checkpoint V W) :=
  match dict_get path fs with
  | Ok c => Success c
  | Raise _ => Failure FileNotFoundError
  end.

Definition torch_save {V W} (c : checkpoint V W) (path : string) (fs : files V W)
  : files V W :=
  dict_set path c fs.

(** A module, bare or wrapped in [torch.nn.DataParallel]. *)
Inductive module (M : Type) : Type :=
  | Bare (m : M)
  | DataParallel (m : M).
Arguments Bare {M} m.
Arguments DataParallel {M} m.

(** What [load_state_dict] has done when it stops: the module is loaded, or
    the call raises and leaves the module as it then is. *)
Inductive loading (M : Type) : Type :=
  | Loaded (m : M)
  | Rejected (e : failure) (m : M).
Arguments Loaded {M} m.
Arguments Rejected {M} e m.

(** [if k.startswith(prefix): k = k[len(prefix):]] *)
Definition strip_prefix (prefix k : string) : string :=
  if String.prefix prefix k
  then String.substring (String.length prefix)
         (String.length k - String.length prefix) k
  else k.

(** Lines 38-43: the keys without their prefix ['module.']. *)
Definition fix_state_dict {V} (sd : list (string * V)) : list (string * V) :=
  fold_left (fun model_state_dict_fixed '(k, v) =>
               let prefix := "module." in
               let k := strip_prefix prefix k in
               dict_set k v model_state_dict_fixed)
    sd [].

(** The keys of the state dict of a module wrapped in [DataParallel]. *)
Definition wrapped_keys {V} (sd : list (string * V)) : list (string * V) :=
  map (fun '(k, v) => (String.append "module." k, v)) sd.

(** Batches and tensors: (batch, channel, time). *)
Definition tensor3 : Type := list (list (list Q)).

(** The default of [size_x] and [size_y] in [dyn_pad]. *)
Definition default_size : nat := Z.to_nat 32000.

(** [dyn_pad]: the first [size_x] and [size_y] samples. *)
Definition dyn_pad (x y : tensor3) (size_x size_y : nat) : tensor3 * tensor3 :=
  let pad_x := map (map (take size_x)) x in
  let pad_y := map (map (take size_y)) y in
  (pad_x, pad_y).

Section Training.
Context {V M O W : Type}.

(** PyTorch: [model.state_dict()], [model.load_state_dict(sd)],
    [optimizer.state_dict()], [optimizer.load_state_dict(sd)]. *)
Variable module_state_dict : M -> list (string * V).
Variable load_state_dict : M -> list (string * V) -> loading M.
Variable optimizer_state_dict_of : O -> W.
Variable optimizer_load_state_dict : O -> W -> attempt O.

(** [criterion(model(x, torch.tensor([0.]))[:,0,:], target)] of a module
    in evaluation mode ([model.eval()], line 34) and of a module in training
    mode ([model.train()], line 160), and the module and the optimizer after
    lines 171-177 on the batch: [optimizer.zero_grad()], the forward pass,
    [loss.backward()] and [optimizer.step()]. *)
Variable batch_loss : M -> tensor3 -> tensor3 -> Q.
Variable training_loss : M -> tensor3 -> tensor3 -> Q.
Variable optimizer_step : M -> O -> tensor3 -> tensor3 -> M * O.

Definition unwrap (model : module M) : M :=
  match model with
  | Bare m => m
  | DataParallel m => m
  end.

Definition save_model (model : module M) (optimizer : O) (st : train_state)
  (path : string) (fs : files V W) : files V W :=
  let model := unwrap model in
  torch_save {| model_state_dict := Some (module_state_dict model);
                optimizer_state_dict := Some (optimizer_state_dict_of optimizer);
                state := Some st;
                ckpt_step := None |}
    path fs.

(** The module and the optimizer are updated in place in Python; here they
    are returned with the state. *)
Definition load_model (model : module M) (optimizer : option O) (path : string)
  (cuda : bool) (fs : files V W) : attempt (M * option O * train_state) :=
  let model := unwrap model in
  checkpoint ← torch_load path fs;
  model ←
    match (match model_state_dict checkpoint with
           | Some sd => load_state_dict model sd
           | None => Rejected (Builtin KeyError) model
           end) with
    | Loaded model => Success model
    | Rejected _ model =>
        sd ← subscript (model_state_dict checkpoint);
        match load_state_dict model (fix_state_dict sd) with
        | Loaded model => Success model
        | Rejected e _ => Failure e
        end
    end;
  optimizer ←
    match optimizer with
    | Some o =>
        osd ← subscript (optimizer_state_dict checkpoint);
        o ← optimizer_load_state_dict o osd;
        Success (Some o)
    | None => Success None
    end;
  st ←
    match state checkpoint with
    | Some st => Success st
    | None =>
        s ← subscript (ckpt_step checkpoint);
        Success {| step := Some s; worse_epochs := None; epochs := None;
                   best_loss := None; best_checkpoint := None |}
    end;
  Success (model, optimizer, st).

(** [evaluate]: the running mean of the losses of the batches. *)
Definition evaluate (model : M) (dataloader : list (tensor3 * tensor3)) : Q :=
  fold_left (fun test_loss '(example_num, (x, target)) =>
               let '(x, target) := dyn_pad x target default_size default_size in
               let loss := batch_loss model x target in
               (test_loss
                + (1 / inject_Z (Z.of_nat (example_num + 1))) * (loss - test_loss))%Q)
    (enumerate dataloader) 0%Q.

(** The script: its arguments, the batches of the training set in the
    order of each pass ([shuffle=True]) and the two other sets. *)
Variable patience : Z.
Variable checkpoint_path : string.
Variable use_cuda : bool.
Variable tr_data : nat -> list (tensor3 * tensor3).
Variable val_data : list (tensor3 * tensor3).
Variable test_data : list (tensor3 * tensor3).

(** The variables of [main] that the loop changes. *)
Record run := {
  cur_state : train_state;
  cur_model : M;
  cur_optimizer : O;
  cur_files : files V W;
  train_loss_hist : list Q;
  val_loss_hist : list Q
}.

(** Lines 143-146. *)
Definition initial_state : train_state :=
  {| step := Some 0%Z; worse_epochs := Some 0%Z; epochs := Some 0%Z;
     best_loss := Some Inf; best_checkpoint := None |}.

(** Lines 164-183: one batch of pass [e]. *)
Definition train_batch (c : run * Q) (batch : nat * (tensor3 * tensor3))
  : attempt (run * Q) :=
  let '(c, train_loss) := c in
  let '(example_num, (x, target)) := batch in
  let '(x, target) := dyn_pad x target default_size default_size in
  let loss := training_loss (cur_model c) x target in
  let train_loss :=
    (train_loss
     + (1 / inject_Z (Z.of_nat (example_num + 1))) * (loss - train_loss))%Q in
  let '(model, optimizer) :=
    optimizer_step (cur_model c) (cur_optimizer c) x target in
  let st := cur_state c in
  s ← subscript (step st);
  let st := {| step := Some (s + 1)%Z; worse_epochs := worse_epochs st;
               epochs := epochs st; best_loss := best_loss st;
               best_checkpoint := best_checkpoint st |} in
  Success ({| cur_state := st; cur_model := model; cur_optimizer := optimizer;
              cur_files := cur_files c; train_loss_hist := train_loss_hist c;
              val_loss_hist := val_loss_hist c |}, train_loss).

(** Lines 158-208: the body of the loop, for pass [e] over the training
    set.  Line 158 reads [state["step"]]; lines 207 and 208 call [cpu] on
    the two running means. *)
Definition epoch (e : nat) (c : run) : attempt run :=
  _ ← subscript (step (cur_state c));
  '(c, train_loss) ← foldA train_batch (enumerate (tr_data e)) (c, 0%Q);
  let train_loss := mean_of (tr_data e) train_loss in
  let val_loss := evaluate (cur_model c) val_data in
  let st := cur_state c in
  best ← subscript (best_loss st);
  '(st, fs) ←
    (if loss_ge (Finite val_loss) best then
       w ← subscript (worse_epochs st);
       Success ({| step := step st; worse_epochs := Some (w + 1)%Z;
                   epochs := epochs st; best_loss := best_loss st;
                   best_checkpoint := best_checkpoint st |}, cur_files c)
     else
       let st := {| step := step st; worse_epochs := Some 0%Z;
                    epochs := epochs st; best_loss := Some (Finite val_loss);
                    best_checkpoint := Some checkpoint_path |} in
       Success (st, save_model (Bare (cur_model c)) (cur_optimizer c) st
                      checkpoint_path (cur_files c)));
  n ← subscript (epochs st);
  let st := {| step := step st; worse_epochs := worse_epochs st;
               epochs := Some (n + 1)%Z; best_loss := best_loss st;
               best_checkpoint := best_checkpoint st |} in
  train_loss ← cpu train_loss;
  val_loss ← cpu (mean_of val_data val_loss);
  Success {| cur_state := st; cur_model := cur_model c;
             cur_optimizer := cur_optimizer c; cur_files := fs;
             train_loss_hist := train_loss_hist c ++ [train_loss];
             val_loss_hist := val_loss_hist c ++ [val_loss] |}.

(** The loop of line 157, for at most [fuel] passes: it has exited, or it
    is still running. *)
Inductive progress : Type :=
  | Exited (c : run)
  | Running (c : run).

Fixpoint training (fuel e : nat) (c : run) : attempt progress :=
  w ← subscript (worse_epochs (cur_state c));
  if (w <? patience)%Z then
    match fuel with
    | 0 => Success (Running c)
    | S fuel' => c ← epoch e c; training fuel' (S e) c
    end
  else Success (Exited c).

(** Lines 214-217: the best module loaded again and its three losses. *)
Definition testing (c : run) : attempt (M * train_state * (Q * Q * Q)) :=
  path ← subscript (best_checkpoint (cur_state c));
  '(model, _, st) ←
    load_model (Bare (cur_model c)) None path use_cuda (cur_files c);
  let train_loss := evaluate model (tr_data (length (val_loss_hist c))) in
  let val_loss := evaluate model val_data in
  let test_loss := evaluate model test_data in
  Success (model, st, (train_loss, val_loss, test_loss)).

(** Lines 143-151: the state the loop starts from. *)
Definition start (model : M) (optimizer : O) (load : option string)
  (fs : files V W) : attempt run :=
  match load with
  | Some path =>
      '(model, optimizer', st) ←
        load_model (Bare model) (Some optimizer) path use_cuda fs;
      Success {| cur_state := st; cur_model := model;
                 cur_optimizer := default optimizer optimizer';
                 cur_files := fs; train_loss_hist := []; val_loss_hist := [] |}
  | None =>
      Success {| cur_state := initial_state; cur_model := model;
                 cur_optimizer := optimizer; cur_files := fs;
                 train_loss_hist := []; val_loss_hist := [] |}
  end.

End Training.

(** ** What the loop keeps *)

Section Bookkeeping.
Context {V M O W : Type}.
Variable module_state_dict : M -> list (string * V).
Variable optimizer_state_dict_of : O -> W.
Variable batch_loss : M -> tensor3 -> tensor3 -> Q.
Variable checkpoint_path : string.
Variable val_data : list (tensor3 * tensor3).

(** The file at [checkpoint_path] is the checkpoint of a module whose
    validation loss is [v], saved in pass [b] of the loop. *)
Definition holds_best (c : @run V M O W) (b : nat) (v : Q) : Prop :=
  exists m o s,
    dict_get checkpoint_path (cur_files c)
    = Ok {| model_state_dict := Some (module_state_dict m);
            optimizer_state_dict := Some (optimizer_state_dict_of o);
            state := Some {| step := Some s; worse_epochs := Some 0%Z;
                             epochs := Some (Z.of_nat b);
                             best_loss := Some (Finite v);
                             best_checkpoint := Some checkpoint_path |};
            ckpt_step := None |} /\
    evaluate batch_loss m val_data = v.

(** The validation losses so far are [hist]: pass [b] had the loss [v],
    smaller than every loss before it, and none of the [w] passes since
    then had a smaller one. *)
Definition best_at (hist : list Q) (b : nat) (v : Q) (w : nat) : Prop :=
  length hist = b + 1 + w /\
  hist !! b = Some v /\
  Forall (fun u => (v < u)%Q) (take b hist) /\
  Forall (fun u => (v <= u)%Q) (drop (b + 1) hist).

(** What holds before every pass of a loop that started from the state of
    lines 143-146. *)
Definition bookkeeping (c : @run V M O W) : Prop :=
  let st := cur_state c in
  let hist := val_loss_hist c in
  length (train_loss_hist c) = length hist /\
  epochs st = Some (Z.of_nat (length hist)) /\
  (exists s, step st = Some s) /\
  ((hist = [] /\ worse_epochs st = Some 0%Z /\ best_loss st = Some Inf /\
    best_checkpoint st = None) \/
   (exists b v w,
      best_at hist b v w /\
      worse_epochs st = Some (Z.of_nat w) /\
      best_loss st = Some (Finite v) /\
      best_checkpoint st = Some checkpoint_path /\
      holds_best c b v)).
End Bookkeeping.

(** ** A module with one weight *)

(** A module with the one parameter ['weight']; its loss on a batch is the
    square of the weight, and a step of its optimizer adds 1 to the weight
    and counts the step. *)
Definition weight_state_dict (m : Q) : list (string * Q) := [("weight", m)].

Definition weight_load_state_dict (m : Q) (sd : list (string * Q)) : loading Q :=
  match sd with
  | [(k, v)] =>
      if String.eqb k "weight" then Loaded v
      else Rejected (RuntimeError "Unexpected key(s) in state_dict") m
  | _ => Rejected (RuntimeError "Error(s) in loading state_dict") m
  end.

Definition square_loss (m : Q) (x target : tensor3) : Q := (m * m)%Q.

Definition unit_step (m : Q) (o : nat) (x target : tensor3) : Q * nat :=
  ((m + 1)%Q, S o).

Definition counter_load_state_dict (o osd : nat) : attempt nat := Success osd.

Definition one_batch : list (tensor3 * tensor3) := [([[[0%Q]]], [[[0%Q]]])].

(** A checkpoint in which the state dict of a [DataParallel] wrapper was
    saved, and one of the older kind. *)
Definition wrapped_checkpoint : checkpoint Q nat :=
  {| model_state_dict := Some [("module.weight", 5%Q)];
     optimizer_state_dict := Some 3;
     state := Some initial_state;
     ckpt_step := None |}.

Definition legacy_checkpoint : checkpoint Q nat :=
  {| model_state_dict := Some [("weight", 3%Q)];
     optimizer_state_dict := Some 7;
     state := None;
     ckpt_step := Some 100%Z |}.

(** * Theorems *)

(** ** The frame-label encoder on concrete annotations *)

(** C1, evaluated on two simultaneous events of the first class: in frame 1
    the presence slots 0 and 1 are set, but the second event's coordinates
    are in location slot 2, and location slot 1 is empty. *)
Theorem get_label_task2_slot_mismatch :
  exists stacked row,
    get_label_task2 two_dogs (1 # 10) 1 ["dog"] 10 2 = Ok stacked /\
    stacked !! 1 = Some row /\
    presence row 0 0 = Some 1%Q /\
    presence row 0 1 = Some 1%Q /\
    presence row 0 2 = Some 0%Q /\
    location 1 row 0 0 = [1 # 2; 0; 0]%Q /\
    location 1 row 0 1 = [0; 0; 0]%Q /\
    location 1 row 0 2 = [1; - (1 # 2); 1 # 4]%Q.
Proof.
  eexists _, _. split; [vm_compute; reflexivity|].
  repeat split.
Qed.

(** C2, evaluated on the scenario: only frames 1, 2 and 3 carry the event;
    frame 0 and frame 4, whose boundaries coincide with the event's
    endpoints, are empty like frames 5 to 9. *)
Theorem get_label_task2_scenario :
  exists stacked,
    get_label_task2 scenario (1 # 10) 1 ["dog"] 10 2 = Ok stacked /\
    length stacked = 10 /\
    (forall j row, stacked !! j = Some row ->
       presence row 0 0 = Some (if decide (1 <= j <= 3) then 1%Q else 0%Q) /\
       location 1 row 0 0 =
         (if decide (1 <= j <= 3) then [1 # 2; 0; 0]%Q else [0; 0; 0]%Q)).
Proof.
  eexists. split; [vm_compute; reflexivity|]. split; [reflexivity|].
  intros j row Hj.
  do 10 (destruct j as [|j]; [injection Hj as <-; split; reflexivity|]).
  discriminate.
Qed.

(** The sibling encoder [csv_to_matrix_task2] on the same scenario marks
    frames 0 to 4, boundary frames included. *)
Lemma csv_to_matrix_task2_scenario :
  exists stacked,
    csv_to_matrix_task2 scenario [("dog", 0%Z)] 1 (1 # 10) 3 2 = Ok stacked /\
    length stacked = 10 /\
    (forall j row, stacked !! j = Some row ->
       presence row 0 0 = Some (if decide (j <= 4) then 1%Q else 0%Q) /\
       location 1 row 0 0 =
         (if decide (j <= 4) then [1 # 2; 0; 0]%Q else [0; 0; 0]%Q)).
Proof.
  eexists. split; [vm_compute; reflexivity|]. split; [reflexivity|].
  intros j row Hj.
  do 10 (destruct j as [|j]; [injection Hj as <-; split; reflexivity|]).
  discriminate.
Qed.

(** The three overlap conditions are strict: an event that lasts exactly one
    frame overlaps no frame at all. *)
Lemma is_in_exact_frame (data : data5) :
  is_in data (start_audio data) (end_audio data) = false.
Proof.
  unfold is_in, Qlt_bool.
  rewrite !(proj2 (Qle_bool_iff _ _) (Qle_refl _)). simpl.
  rewrite andb_false_r. reflexivity.
Qed.

(** C3, evaluated on two simultaneous events of the first class: decoding
    the encoded labels gives class 0 twice in frames 1 to 3, but the second
    row has location (0, 0, 0); the location (2, -1, 1/2) of the second event
    is in no decoded row. *)
Theorem encode_decode_loses_location :
  exists rows,
    encode_decode two_dogs (1 # 10) 1 ["dog"] 10 2 = Ok rows /\
    map Qred_entry rows =
      [mk_entry 1 0 1 0 0; mk_entry 1 0 0 0 0;
       mk_entry 2 0 1 0 0; mk_entry 2 0 0 0 0;
       mk_entry 3 0 1 0 0; mk_entry 3 0 0 0 0] /\
    forall i c, mk_entry i c 2 (- 1) (1 # 2) ∉ map Qred_entry rows.
Proof.
  eexists. split; [vm_compute; reflexivity|]. split; [reflexivity|].
  intros i c Hin. simpl in Hin.
  repeat (apply elem_of_cons in Hin as [Hin|Hin]; [discriminate Hin|]).
  by apply elem_of_nil in Hin.
Qed.

(** ** [spectrum_fast] *)

(** C10, evaluated on a monophonic signal: the transform of a
    one-dimensional signal is two-dimensional, so concatenating the phase
    along axis -3 raises, and so do the two three-index cuts. *)
Theorem spectrum_fast_monophonic_raises
  (stft : shape -> string -> Z -> Z -> result shape)
  (n f t : nat) (window : string) (nperseg noverlap : Z)
  (cut_dc output_phase cut_last_timeframe : bool) :
  stft [n] window nperseg noverlap = Ok [f; t] ->
  spectrum_fast stft [n] nperseg noverlap window cut_dc output_phase
    cut_last_timeframe =
  if output_phase then Raise AxisError
  else if cut_dc || cut_last_timeframe then Raise IndexError
  else Ok [f; t].
Proof.
  intros Hstft. unfold spectrum_fast. rewrite Hstft. simpl.
  destruct output_phase, cut_dc, cut_last_timeframe; reflexivity.
Qed.

Lemma spectrum_fast_monophonic_raises_witness :
  spectrum_fast (fun _ _ _ _ => Ok [257; 84]) [4800] 512 128 "hamming"
    true true true = Raise AxisError.
Proof.
  apply (spectrum_fast_monophonic_raises (fun _ _ _ _ => Ok [257; 84])
           4800 257 84 "hamming" 512 128 true true true).
  reflexivity.
Defined.

(** On a signal with a channel axis, as [test_model] calls it, the same
    code returns. *)
Lemma spectrum_fast_multichannel
  (stft : shape -> string -> Z -> Z -> result shape)
  (c n f t : nat) (window : string) (nperseg noverlap : Z)
  (cut_dc output_phase cut_last_timeframe : bool) :
  stft [c; n] window nperseg noverlap = Ok [c; f; t] ->
  spectrum_fast stft [c; n] nperseg noverlap window cut_dc output_phase
    cut_last_timeframe =
  Ok [if output_phase then c + c else c;
      if cut_dc then f - 1 else f;
      if cut_last_timeframe then t - 1 else t].
Proof.
  intros Hstft. unfold spectrum_fast. rewrite Hstft. simpl.
  destruct output_phase, cut_dc, cut_last_timeframe; simpl;
    unfold concatenate_axis_m3; simpl;
    repeat case_decide; try reflexivity; exfalso; tauto.
Qed.

(** ** Loops that only append *)

Lemma foldM_append {X E : Type} (body : list E -> X -> result (list E))
  (g : X -> list E) (xs : list X) (out : list E) :
  (forall out x, x ∈ xs -> body out x = Ok (out ++ g x)) ->
  foldM body xs out = Ok (out ++ concat (map g xs)).
Proof.
  revert out. induction xs as [|x xs IH]; intros out Hbody; simpl.
  - by rewrite app_nil_r.
  - rewrite Hbody by left. simpl. rewrite IH.
    + by rewrite app_assoc.
    + intros out' x' Hx'. apply Hbody. by right.
Qed.

Lemma enumerate_lookup {X : Type} (xs : list X) (j : nat) (x : X) :
  enumerate xs !! j = Some (j, x) <-> xs !! j = Some x.
Proof.
  unfold enumerate. rewrite lookup_zip_with_Some. split.
  - intros (a & b & Heq & Ha & Hb). injection Heq as -> ->. done.
  - intros Hx. exists j, x. split_and!; [done| |done].
    apply lookup_seq. split; [done|]. by eapply lookup_lt_Some.
Qed.

Lemma elem_of_enumerate {X : Type} (xs : list X) (j : nat) (x : X) :
  (j, x) ∈ enumerate xs <-> xs !! j = Some x.
Proof.
  rewrite list_elem_of_lookup. split.
  - intros [k Hk]. unfold enumerate in Hk.
    apply lookup_zip_with_Some in Hk as (a & b & Heq & Ha & Hb).
    injection Heq as -> ->. apply lookup_seq in Ha as [-> _]. done.
  - intros Hx. exists j. by apply enumerate_lookup.
Qed.

Lemma enumerate_fmap {X W : Type} (f : X -> W) (xs : list X) :
  enumerate (map f xs) = map (fun '(j, x) => (j, f x)) (enumerate xs).
Proof.
  unfold enumerate. rewrite length_map.
  generalize (seq 0 (length xs)). induction xs as [|x xs IH]; intros [|k ks];
    simpl; try reflexivity.
  f_equal. apply IH.
Qed.

(** ** Rounding a score *)

Lemma Qlt_bool_iff (a b : Q) : Qlt_bool a b = true <-> (a < b)%Q.
Proof.
  unfold Qlt_bool. rewrite negb_true_iff. split.
  - intros H. apply Qnot_le_lt. intros Hle.
    apply Qle_bool_iff in Hle. congruence.
  - intros H. destruct (Qle_bool b a) eqn:E; [|done].
    apply Qle_bool_iff in E. exfalso. by eapply Qlt_not_le.
Qed.

Lemma Qfloor_unit (s : Q) :
  (0 <= s)%Q -> (s <= 1)%Q -> Qfloor s = 0%Z \/ (Qfloor s = 1%Z /\ (s == 1)%Q).
Proof.
  intros H0 H1.
  pose proof (Qfloor_le s) as Hlo. pose proof (Qlt_floor s) as Hhi.
  assert (0 <= Qfloor s)%Z as Hf0.
  { assert (inject_Z 0 < inject_Z (Qfloor s + 1))%Q as H
      by (eapply Qle_lt_trans; [exact H0 | exact Hhi]).
    rewrite <- Zlt_Qlt in H. lia. }
  assert (Qfloor s <= 1)%Z as Hf1.
  { assert (inject_Z (Qfloor s) <= inject_Z 1)%Q as H
      by (eapply Qle_trans; [exact Hlo | exact H1]).
    rewrite <- Zle_Qle in H. lia. }
  destruct (decide (Qfloor s = 0%Z)) as [?|Hne]; [by left|right].
  assert (Qfloor s = 1%Z) as Hf by lia. split; [done|].
  rewrite Hf in Hlo. by apply Qle_antisym.
Qed.

(** On scores between 0 and 1, [np.round] is 1 strictly above one half and 0
    at one half and below. *)
Lemma round_half_even_unit (s : Q) :
  (0 <= s)%Q -> (s <= 1)%Q ->
  round_half_even s = if active s then 1%Z else 0%Z.
Proof.
  intros H0 H1. unfold round_half_even, active.
  destruct (Qfloor_unit s H0 H1) as [Hf|[Hf Hs]]; rewrite Hf.
  - assert (s - inject_Z 0 == s)%Q as Hsub by (unfold inject_Z; ring).
    rewrite Hsub.
    destruct (Qcompare s (1 # 2)) eqn:Hc.
    + apply Qeq_alt in Hc. simpl.
      destruct (Qlt_bool (1 # 2) s) eqn:Hb; [|done].
      apply Qlt_bool_iff in Hb. rewrite Hc in Hb. by apply Qlt_irrefl in Hb.
    + apply Qlt_alt in Hc.
      destruct (Qlt_bool (1 # 2) s) eqn:Hb; [|done].
      apply Qlt_bool_iff in Hb. exfalso.
      eapply Qlt_irrefl, Qlt_trans; [exact Hb | exact Hc].
    + apply Qgt_alt in Hc. apply Qlt_bool_iff in Hc. by rewrite Hc.
  - assert (Qcompare (s - inject_Z 1) (1 # 2) = Lt) as ->.
    { apply Qlt_alt. rewrite Hs. reflexivity. }
    assert (Qlt_bool (1 # 2) s = true) as ->; [|done].
    apply Qlt_bool_iff. rewrite Hs. reflexivity.
Qed.

(** ** Indexing a reshaped array *)

Lemma reshape3_lookup {A} (n0 n1 n2 : nat) (l : list A) (r : list (list (list A)))
  (a b c : nat) :
  reshape3 n0 n1 n2 l = Ok r -> a < n0 -> b < n1 -> c < n2 ->
  exists m row, r !! a = Some m /\ m !! b = Some row /\
    row !! c = l !! (a * (n1 * n2) + b * n2 + c).
Proof.
  unfold reshape3. intros Hr Ha Hb Hc. case_decide as Hlen; [|done].
  injection Hr as <-.
  eexists _, _. split_and!.
  - rewrite list_lookup_fmap, lookup_seq_lt by done. reflexivity.
  - rewrite list_lookup_fmap, lookup_seq_lt by done. reflexivity.
  - simpl. rewrite lookup_take_lt by done. rewrite lookup_drop.
    rewrite lookup_take_lt by nia. rewrite lookup_drop.
    f_equal. lia.
Qed.

(** ** The decoder *)

Lemma Zsum_zero (zs : list Z) :
  Forall (fun z => 0 <= z)%Z zs -> foldr Z.add 0%Z zs = 0%Z -> Forall (fun z => z = 0%Z) zs.
Proof.
  induction 1 as [|z zs Hz Hzs IH]; simpl; intros Hsum; [constructor|].
  assert (0 <= foldr Z.add 0 zs)%Z.
  { clear -Hzs. induction Hzs; simpl; lia. }
  constructor; [lia|]. apply IH. lia.
Qed.

Lemma slot_rows_inactive (max_loc_value : Q) (max_overlaps i : nat) (c l : list Q) :
  Forall (fun s => active s = false) c ->
  slot_rows active max_loc_value max_overlaps i c l = [].
Proof.
  intros Hc. unfold slot_rows.
  assert (Forall (fun js => active js.2 = false) (enumerate c)) as H.
  { apply Forall_forall. intros [j s] Hjs. apply elem_of_enumerate in Hjs.
    rewrite Forall_forall in Hc. apply Hc. by eapply list_elem_of_lookup_2. }
  induction H as [|[j s] js Hjs _ IH]; simpl in *; [done|]. by rewrite Hjs.
Qed.

Lemma frame_events_spec (max_loc_value : Q) (num_classes max_overlaps i : nat)
  (c l : list Q) (r : list (list (list Q))) (out : list entry) :
  length c = num_classes * max_overlaps ->
  Forall unit_score c ->
  reshape3 num_classes max_overlaps 3
    (map (fun v => (v * max_loc_value)%Q) l) = Ok r ->
  frame_events max_overlaps i (map round_half_even c) r out =
    Ok (out ++ slot_rows active max_loc_value max_overlaps i c l).
Proof.
  intros Hlen Hunit Hr. unfold frame_events, slot_rows.
  rewrite enumerate_fmap.
  erewrite foldM_append with
    (g := fun '(j, e) =>
            if decide (e <> 0%Z)
            then
              let class_id := j / max_overlaps in
              let event := j mod max_overlaps in
              [mk_entry i class_id
                 (coord l max_overlaps class_id event 0 * max_loc_value)
                 (coord l max_overlaps class_id event 1 * max_loc_value)
                 (coord l max_overlaps class_id event 2 * max_loc_value)]
            else []).
  - do 3 f_equal. rewrite map_map. apply map_ext_in.
    intros [j s] Hjs. apply list_elem_of_In, elem_of_enumerate in Hjs.
    rewrite Forall_forall in Hunit.
    destruct (Hunit s) as [H0 H1]; [by eapply list_elem_of_lookup_2|].
    rewrite round_half_even_unit by done.
    destruct (active s); by case_decide.
  - intros out' [j e] Hje.
    apply list_elem_of_fmap in Hje as ([j' s] & Heq & Hjs).
    injection Heq as Hj' He'. subst j' e. apply elem_of_enumerate in Hjs.
    apply lookup_lt_Some in Hjs. rewrite Hlen in Hjs.
    case_decide as He; [|by rewrite app_nil_r].
    assert (max_overlaps <> 0) as Hmo by (intros ->; lia).
    case_decide; [done|].
    assert (j / max_overlaps < num_classes) as Hpc
      by (apply Nat.Div0.div_lt_upper_bound; lia).
    assert (j mod max_overlaps < max_overlaps) as Hne
      by (by apply Nat.mod_upper_bound).
    pose proof (Nat.div_mod_eq j max_overlaps) as Hdm.
    unfold reshape3 in Hr. case_decide as Hl; [|done]. rewrite length_map in Hl.
    assert (forall k, k < 3 ->
              exists m cells, r !! (j / max_overlaps) = Some m /\
                m !! (j mod max_overlaps) = Some cells /\
                cells !! k
                = Some (coord l max_overlaps (j / max_overlaps)
                          (j mod max_overlaps) k * max_loc_value)%Q) as Hget.
    { intros k Hk.
      destruct (reshape3_lookup num_classes max_overlaps 3
                  (map (fun v => (v * max_loc_value)%Q) l) r
                  (j / max_overlaps) (j mod max_overlaps) k)
        as (m & cells & Hm & Hcells & Hv); try done.
      { unfold reshape3. rewrite length_map. by rewrite decide_True. }
      exists m, cells. split_and!; [done..|].
      rewrite Hv, list_lookup_fmap. unfold coord.
      replace (j / max_overlaps * (max_overlaps * 3) + j mod max_overlaps * 3 + k)
        with ((j / max_overlaps * max_overlaps + j mod max_overlaps) * 3 + k) by lia.
      destruct (l !! _) eqn:E; [done|].
      apply lookup_ge_None in E. nia. }
    destruct (Hget 0) as (m & cells & Hm & Hcells & Hx); [lia|].
    destruct (Hget 1) as (m1 & cells1 & Hm1 & Hcells1 & Hy); [lia|].
    destruct (Hget 2) as (m2 & cells2 & Hm2 & Hcells2 & Hz); [lia|].
    simplify_eq. unfold getitem. rewrite Hm. simpl. rewrite Hcells. simpl.
    rewrite Hx, Hy, Hz. simpl. reflexivity.
Qed.

(** C5, amended: on well-shaped tensors whose class scores lie between 0 and
    1 the decoder returns, frame by frame and slot by slot, one row for
    every score strictly above one half and nothing for a score of one half
    or below; the row of slot [j] has class [j / max_overlaps] and the
    location of event [j mod max_overlaps] of that class multiplied by
    [max_loc_value]. *)
Theorem gen_submission_list_task2_spec (sed doa : list (list Q))
  (max_loc_value : Q) (num_frames num_classes max_overlaps : nat) :
  Forall (fun c => length c = num_classes * max_overlaps /\ Forall unit_score c) sed ->
  Forall (fun l => length l = num_classes * max_overlaps * 3) doa ->
  gen_submission_list_task2 sed doa max_loc_value num_frames num_classes
    max_overlaps = Ok (decode_spec active sed doa max_loc_value max_overlaps).
Proof.
  intros Hsed Hdoa. unfold gen_submission_list_task2, decode_spec.
  rewrite <- (app_nil_l (concat _)). apply foldM_append.
  intros out [i [c l]] Hin.
  apply elem_of_enumerate, list_elem_of_lookup_2, elem_of_zip_with in Hin
    as (c' & l' & Heq & Hc & Hl). injection Heq as <- <-.
  rewrite Forall_forall in Hsed, Hdoa.
  destruct (Hsed c Hc) as [Hclen Hunit]. specialize (Hdoa l Hl).
  destruct (reshape3 num_classes max_overlaps 3
              (map (fun v => (v * max_loc_value)%Q) l)) as [r|e] eqn:Hr.
  2:{ unfold reshape3 in Hr. rewrite length_map in Hr. by case_decide. }
  simpl. case_decide as Hsum.
  - rewrite slot_rows_inactive; [by rewrite app_nil_r|].
    assert (Forall (fun z => 0 <= z)%Z (map round_half_even c)) as Hnn.
    { apply Forall_forall. intros z Hz.
      apply list_elem_of_fmap in Hz as (s & -> & Hs).
      rewrite Forall_forall in Hunit. destruct (Hunit s Hs) as [H0 H1].
      rewrite round_half_even_unit by done. destruct (active s); lia. }
    pose proof (Zsum_zero _ Hnn Hsum) as Hzero.
    rewrite Forall_forall in Hzero. rewrite Forall_forall in Hunit.
    apply Forall_forall. intros s Hs.
    destruct (Hunit s Hs) as [H0 H1].
    assert (round_half_even s = 0%Z) as Hz
      by (apply Hzero, list_elem_of_fmap; eauto).
    rewrite round_half_even_unit in Hz by done. by destruct (active s).
  - by apply frame_events_spec with (num_classes := num_classes).
Qed.

Lemma gen_submission_list_task2_spec_witness :
  gen_submission_list_task2 [[1; 4 # 10; 0]]%Q [[1 # 2; 0; 0; 1; 1; 1; 0; 0; 0]]%Q
    2 600 1 3
  = Ok [mk_entry 0 0 ((1 # 2) * 2) (0 * 2) (0 * 2)].
Proof.
  apply (gen_submission_list_task2_spec [[1; 4 # 10; 0]]%Q
           [[1 # 2; 0; 0; 1; 1; 1; 0; 0; 0]]%Q 2 600 1 3).
  - repeat constructor; discriminate.
  - repeat constructor.
Defined.

(** C5 as stated fails at a score of exactly one half: [np.round] rounds it
    to 0 and the slot gives no row, where the threshold "one half or above"
    gives one. *)
Lemma gen_submission_list_task2_half :
  round_half_even (1 # 2) = 0%Z /\
  gen_submission_list_task2 [[1 # 2]]%Q [[1; 1; 1]]%Q 2 600 1 1 = Ok [] /\
  decode_spec active_at_half [[1 # 2]]%Q [[1; 1; 1]]%Q 2 1
    = [mk_entry 0 0 (1 * 2) (1 * 2) (1 * 2)].
Proof. repeat split. Qed.

(** ** Cut points *)

Lemma num_cuts_lt (stop : nat) (step : Z) (i : nat) :
  step <> 0%Z ->
  i < num_cuts stop step <-> (0 < step)%Z /\ i * Z.to_nat step < stop.
Proof.
  intros Hstep. unfold num_cuts.
  pose proof (Z.div_mod (- Z.of_nat stop) step Hstep) as Hdm.
  destruct (decide (0 < step)%Z) as [Hpos|Hneg].
  - pose proof (Z.mod_pos_bound (- Z.of_nat stop) step Hpos) as Hr.
    split.
    + intros Hi. split; [done|]. nia.
    + intros [_ Hi]. nia.
  - assert (step < 0)%Z as Hlt by lia.
    pose proof (Z.mod_neg_bound (- Z.of_nat stop) step Hlt) as Hr.
    split; [|lia]. intros Hi. exfalso. nia.
Qed.

Lemma np_arange_Ok (stop : nat) (step : Z) :
  step <> 0%Z ->
  np_arange stop step =
    Ok (map (fun k => k * Z.to_nat step) (seq 0 (num_cuts stop step))).
Proof. intros Hstep. unfold np_arange. by rewrite decide_False. Qed.

Lemma np_arange_inv (stop : nat) (step : Z) (cuts : list nat) :
  np_arange stop step = Ok cuts ->
  step <> 0%Z /\ length cuts = num_cuts stop step /\
  forall i, i < num_cuts stop step -> cuts !! i = Some (i * Z.to_nat step).
Proof.
  unfold np_arange. case_decide as Hstep; [done|]. intros [= <-].
  split; [done|]. split; [by rewrite length_map, length_seq|].
  intros i Hi. by rewrite list_lookup_fmap, lookup_seq_lt.
Qed.

(** ** The appending loop *)

Lemma append_loop_map {CX CY : Type} (body : nat -> result (CX * CY))
  (fx : nat -> CX) (fy : nat -> CY) (range : list nat) (X : list CX) (Y : list CY) :
  (forall i, i ∈ range -> body i = Ok (fx i, fy i)) ->
  append_loop body range X Y = Returned (X ++ map fx range) (Y ++ map fy range).
Proof.
  revert X Y. induction range as [|i range IH]; intros X Y Hbody; simpl.
  - by rewrite !app_nil_r.
  - rewrite Hbody by left. rewrite IH by (intros; apply Hbody; by right).
    by rewrite <- !app_assoc.
Qed.

Lemma append_loop_Returned {CX CY : Type} (body : nat -> result (CX * CY))
  (range : list nat) (X0 X : list CX) (Y0 Y : list CY) :
  append_loop body range X0 Y0 = Returned X Y ->
  exists cs, Forall2 (fun i c => body i = Ok c) range cs /\
    X = X0 ++ map fst cs /\ Y = Y0 ++ map snd cs.
Proof.
  revert X0 Y0. induction range as [|i range IH]; intros X0 Y0; simpl.
  - intros [= <- <-]. exists []. by rewrite !app_nil_r.
  - destruct (body i) as [[cx cy]|e] eqn:Hb; [|done].
    intros H. apply IH in H as (cs & Hcs & -> & ->).
    exists ((cx, cy) :: cs). split; [by constructor|].
    simpl. by rewrite <- !app_assoc.
Qed.

Lemma append_loop_Raised {CX CY : Type} (body : nat -> result (CX * CY))
  (range : list nat) (X0 X : list CX) (Y0 Y : list CY) (e : exn) :
  append_loop body range X0 Y0 = Raised e X Y ->
  exists i, i ∈ range /\ body i = Raise e.
Proof.
  revert X0 Y0. induction range as [|i range IH]; intros X0 Y0; simpl; [done|].
  destruct (body i) as [[cx cy]|e'] eqn:Hb.
  - intros H. apply IH in H as (k & Hk & Hbk). exists k. split; [by right|done].
  - intros [= -> _ _]. exists i. split; [by left|done].
Qed.

Lemma Forall2_seq_lookup {C : Type} (P : nat -> C -> Prop) (n : nat) (cs : list C) :
  Forall2 P (seq 0 n) cs ->
  length cs = n /\ forall i c, cs !! i = Some c -> P i c.
Proof.
  intros H. split.
  - apply Forall2_length in H. by rewrite length_seq in H.
  - intros i c Hc. rewrite Forall2_lookup in H. specialize (H i).
    rewrite Hc in H. inversion H as [k c' HP Hk|]; subst.
    symmetry in Hk. apply lookup_seq in Hk as [-> _]. done.
Qed.

(** ** The waveform segmenter *)

Section Waveforms.
Context {A : Type} (zero : A).
Implicit Types (predictors target M : list (list A)) (r : list A).

Lemma length_slice (start end_ : nat) r :
  length (slice start end_ r) <= end_ - start.
Proof. unfold slice. rewrite length_take. lia. Qed.

(** With a positive length the segmenter returns, and its chunks are
    these. *)
Lemma segment_waveforms_closed predictors target (length_ : nat) :
  0 < length_ ->
  let n := shape_last predictors in
  let k := num_cuts n (Z.of_nat length_) in
  segment_waveforms zero predictors target length_ =
    Returned (map (wave_chunk zero n length_ k predictors) (seq 0 k))
             (map (wave_chunk zero n length_ k target) (seq 0 k)).
Proof.
  intros Hpos n k. unfold segment_waveforms.
  rewrite np_arange_Ok by lia. fold n. fold k. rewrite Nat2Z.id.
  rewrite length_map, length_seq.
  rewrite <- (app_nil_l (map (wave_chunk _ _ _ _ predictors) _)).
  rewrite <- (app_nil_l (map (wave_chunk _ _ _ _ target) _)).
  apply append_loop_map. intros i Hi.
  apply elem_of_seq in Hi as [_ Hi]. simpl in Hi.
  unfold waveform_cut, wave_chunk, getitem.
  rewrite length_map, length_seq.
  rewrite (list_lookup_fmap _ (seq 0 k) i), lookup_seq_lt by done. simpl.
  case_decide as Hlast.
  - rewrite (list_lookup_fmap _ (seq 0 k) (i + 1)), lookup_seq_lt by lia. simpl.
    by rewrite Nat.add_1_r.
  - fold n.
    assert (n - i * length_ <= length_) as Hfit.
    { destruct (decide (k * length_ < n)) as [Hlt|]; [|nia].
      assert (k < k); [|lia]. unfold k at 2.
      apply num_cuts_lt; [lia|]. rewrite Nat2Z.id. split; [lia|done]. }
    assert (forall M, Forall (fun r => length r <= length_)
                        (map (slice (i * length_) n) M)) as Hall.
    { intros M. apply Forall_forall. intros r' Hr'.
      apply list_elem_of_fmap in Hr' as (r & -> & _).
      pose proof (length_slice (i * length_) n r). lia. }
    unfold pad. rewrite !decide_True by apply Hall. simpl.
    by rewrite !map_map.
Qed.

Lemma concat_slices (length_ m : nat) r :
  concat (map (fun i => slice (i * length_) ((i + 1) * length_) r) (seq 0 m))
  = take (m * length_) r.
Proof.
  induction m as [|m IH]; [done|].
  rewrite seq_S, map_app, concat_app, IH. simpl. rewrite app_nil_r.
  unfold slice.
  replace ((m + 1) * length_ - m * length_) with length_ by lia.
  rewrite take_take_drop. f_equal. lia.
Qed.

(** One row through the segmenter and back. *)
Lemma wave_row_roundtrip (n length_ k : nat) r :
  0 < length_ -> k = num_cuts n (Z.of_nat length_) -> length r <= n ->
  take (length r)
    (concat (map (fun i =>
                    if decide (i <> k - 1)
                    then slice (i * length_) ((i + 1) * length_) r
                    else pad_row zero length_ (slice (i * length_) n r))
               (seq 0 k))) = r.
Proof.
  intros Hpos Hk Hlen. destruct k as [|k'].
  - simpl. assert (~ 0 < n) as Hn.
    { intros H0. assert (0 < num_cuts n (Z.of_nat length_)); [|lia].
      apply num_cuts_lt; [lia|]. split; lia. }
    destruct r; [done|simpl in *; lia].
  - rewrite seq_S, map_app, concat_app. simpl. rewrite app_nil_r.
    rewrite decide_False by lia.
    erewrite map_ext_in; [rewrite concat_slices|].
    2:{ intros i Hi. apply list_elem_of_In, elem_of_seq in Hi.
        rewrite decide_True by lia. reflexivity. }
    assert (k' * length_ < n) as Hin.
    { assert (k' < num_cuts n (Z.of_nat length_)) as H by lia.
      apply num_cuts_lt in H; [|lia]. rewrite Nat2Z.id in H. lia. }
    unfold pad_row, slice.
    rewrite (take_ge (drop _ _)) by (rewrite length_drop; lia).
    rewrite app_assoc, take_drop. by rewrite take_app_length.
Qed.

Lemma wave_chunks_roundtrip (n length_ k : nat) M (m : nat) :
  0 < length_ -> k = num_cuts n (Z.of_nat length_) ->
  Forall (fun r => length r = m) M -> m <= n ->
  truncate m (concat_time (length M)
                (map (wave_chunk zero n length_ k M) (seq 0 k))) = M.
Proof.
  intros Hpos Hk Hrect Hm. unfold truncate, concat_time.
  apply list_eq. intros c.
  rewrite !list_lookup_fmap.
  destruct (M !! c) as [r|] eqn:Hr.
  - rewrite lookup_seq_lt by (by eapply lookup_lt_Some). simpl. f_equal.
    rewrite map_map.
    assert (length r = m) as Hlen
      by (rewrite Forall_forall in Hrect; eapply Hrect, list_elem_of_lookup_2, Hr).
    rewrite <- Hlen.
    erewrite map_ext; [apply (wave_row_roundtrip n length_ k r); [done..|lia]|].
    intros i. simpl. unfold wave_chunk.
    case_decide; rewrite list_lookup_fmap, Hr; reflexivity.
  - rewrite lookup_seq_ge; [done|]. by apply lookup_ge_None.
Qed.

(** C9: with a positive segment length the waveform segmenter returns,
    and its chunks, concatenated along the time axis and truncated to the
    original length, are the original predictors; the same holds of a
    target that is no longer than the predictors. *)
Theorem segment_waveforms_roundtrip predictors target (length_ m : nat) :
  0 < length_ ->
  Forall (fun r => length r = shape_last predictors) predictors ->
  Forall (fun r => length r = m) target ->
  exists X Y,
    segment_waveforms zero predictors target length_ = Returned X Y /\
    truncate (shape_last predictors) (concat_time (length predictors) X)
      = predictors /\
    (m <= shape_last predictors ->
     truncate m (concat_time (length target) Y) = target).
Proof.
  intros Hpos HP HT. eexists _, _.
  split; [by apply segment_waveforms_closed|]. split.
  - by apply wave_chunks_roundtrip.
  - intros Hm. by apply wave_chunks_roundtrip.
Qed.
End Waveforms.

Lemma segment_waveforms_roundtrip_witness :
  exists X Y,
    segment_waveforms 0 [[1; 2; 3; 4; 5]; [6; 7; 8; 9; 10]] [[1; 0; 0; 1; 0]] 2
      = Returned X Y /\
    truncate 5 (concat_time 2 X) = [[1; 2; 3; 4; 5]; [6; 7; 8; 9; 10]] /\
    (5 <= 5 -> truncate 5 (concat_time 1 Y) = [[1; 0; 0; 1; 0]]).
Proof.
  apply (segment_waveforms_roundtrip 0 [[1; 2; 3; 4; 5]; [6; 7; 8; 9; 10]]
           [[1; 0; 0; 1; 0]] 2 5).
  - lia.
  - repeat constructor.
  - repeat constructor.
Defined.

(** ** Windows of a row *)

Section Windows.
Context {A : Type} (zero : A).
Implicit Types (r : list A).

Lemma slice_exact (start len : nat) r :
  slice start (start + len) r = exact_chunk start len r.
Proof. unfold slice, exact_chunk. f_equal. lia. Qed.

Lemma pad_row_drop (start len : nat) r :
  pad_row zero len (drop start r) = padded_chunk zero start len r.
Proof. unfold pad_row, padded_chunk. by rewrite length_drop. Qed.



Lemma length_exact_chunk (start len : nat) r :
  start + len <= length r -> length (exact_chunk start len r) = len.
Proof. intros H. unfold exact_chunk. rewrite length_take, length_drop. lia. Qed.

Lemma length_padded_chunk (start len : nat) r :
  length r <= start + len -> length (padded_chunk zero start len r) = len.
Proof.
  intros H. unfold padded_chunk.
  rewrite length_app, length_drop, length_replicate. lia.
Qed.

Lemma padded_chunk_lookup (start len : nat) r (p : nat) :
  length r <= start + len -> p < len ->
  padded_chunk zero start len r !! p =
    if decide (start + p < length r) then r !! (start + p) else Some zero.
Proof.
  intros H Hp. unfold padded_chunk. case_decide as Hin.
  - rewrite lookup_app_l by (rewrite length_drop; lia). apply lookup_drop.
  - rewrite lookup_app_r by (rewrite length_drop; lia).
    apply lookup_replicate_2. rewrite length_drop. lia.
Qed.
End Windows.

(** ** The paired segmenter *)

Section Task2.
Context {A : Type} (zero : A).
Implicit Types (predictors reshaped : list (list (list A))).
Implicit Types (target : list (list A)).

Lemma map_map_ext {B C : Type} (f g : B -> C) (x : list (list B)) :
  (forall b, f b = g b) -> map (map f) x = map (map g) x.
Proof. intros H. apply map_ext. intros l. by apply map_ext. Qed.

Lemma task2_cut_inv predictors reshaped (plen tlen : nat)
  (cuts_p cuts_t : list nat) (i start_p start_t : nat) cx cy :
  cuts_p !! i = Some start_p -> cuts_t !! i = Some start_t ->
  task2_cut zero predictors reshaped plen tlen cuts_p cuts_t i = Ok (cx, cy) ->
  cx = task2_cut_x zero predictors plen start_p /\
  let cut_y := task2_cut_y zero predictors reshaped plen tlen start_p start_t in
  reshape2 (shape_last3 cut_y) (shape_mid3 cut_y) (concat (concat cut_y)) = Ok cy.
Proof.
  intros Hp Ht. unfold task2_cut, getitem, task2_cut_x, task2_cut_y.
  rewrite Hp, Ht. simpl. case_decide as Hfit; simpl.
  - rewrite (map_map_ext _ _ predictors (slice_exact start_p plen)).
    rewrite (map_map_ext _ _ reshaped (slice_exact start_t tlen)).
    destruct (reshape2 _ _ _) as [y|e]; simpl; [|intros [=]]. intros [= <- <-]. by split.
  - unfold pad3.
    destruct (decide (Forall (Forall (fun r => length r <= plen))
                        (map (map (drop start_p)) predictors)));
      simpl; [|intros [=]].
    destruct (decide (Forall (Forall (fun r => length r <= tlen))
                        (map (map (drop start_t)) reshaped)));
      simpl; [|intros [=]].
    rewrite !map_map.
    assert (forall (x : list (list (list A))) s len,
              map (fun m => map (pad_row zero len) (map (drop s) m)) x
              = map (map (padded_chunk zero s len)) x) as Hpad.
    { intros x s len. apply map_ext. intros m. rewrite map_map.
      apply map_ext. intros r. apply pad_row_drop. }
    rewrite !Hpad.
    destruct (reshape2 _ _ _) as [y|e]; simpl; [|intros [=]]. intros [= <- <-]. by split.
Qed.

Lemma task2_cut_not_frames predictors reshaped (plen tlen : nat)
  (cuts_p cuts_t : list nat) (i : nat) :
  task2_cut zero predictors reshaped plen tlen cuts_p cuts_t i
  <> Raise (ValueError frames_msg).
Proof.
  unfold task2_cut, getitem, pad3, reshape2.
  destruct (cuts_p !! i); simpl; [|done].
  destruct (cuts_t !! i); simpl; [|done].
  repeat (case_decide; simpl); done.
Qed.

(** What a returning call has computed. *)
Lemma segment_task2_Returned predictors target (plen tlen : nat) (overlap : Q)
  X Y :
  segment_task2 zero predictors target plen tlen overlap = Returned X Y ->
  exists reshaped,
    reshape3 1 (shape_last target) (length target) (concat target) = Ok reshaped /\
    length X = num_cuts (shape_last3 predictors) (stride plen overlap) /\
    length Y = num_cuts (shape_last3 reshaped) (stride tlen overlap) /\
    length X = length Y /\
    forall i, i < length X ->
      X !! i = Some (task2_cut_x zero predictors plen
                       (i * Z.to_nat (stride plen overlap))) /\
      exists cy,
        Y !! i = Some cy /\
        let cut_y := task2_cut_y zero predictors reshaped plen tlen
                       (i * Z.to_nat (stride plen overlap))
                       (i * Z.to_nat (stride tlen overlap)) in
        reshape2 (shape_last3 cut_y) (shape_mid3 cut_y)
          (concat (concat cut_y)) = Ok cy.
Proof.
  unfold segment_task2.
  destruct (reshape3 _ _ _ _) as [reshaped|e] eqn:Hre; [|done].
  destruct (np_arange (shape_last3 predictors) _) as [cuts_p|e] eqn:Hcp; [|done].
  destruct (np_arange (shape_last3 reshaped) _) as [cuts_t|e] eqn:Hct; [|done].
  case_decide as Heq; [done|].
  intros Hloop. apply append_loop_Returned in Hloop as (cs & Hcs & -> & ->).
  apply Forall2_seq_lookup in Hcs as [Hlen Hcs]. simpl.
  apply np_arange_inv in Hcp as (Hsp & Hlp & Hcp).
  apply np_arange_inv in Hct as (Hst & Hlt & Hct).
  exists reshaped. rewrite !length_map. split_and!; [done|lia..|].
  intros i Hi.
  destruct (cs !! i) as [[cx cy]|] eqn:Hci.
  2:{ apply lookup_ge_None in Hci. lia. }
  rewrite !list_lookup_fmap, Hci. simpl.
  pose proof (Hcs i _ Hci) as Hb.
  assert (i < num_cuts (shape_last3 predictors) (stride plen overlap)) as Hip by lia.
  assert (i < num_cuts (shape_last3 reshaped) (stride tlen overlap)) as Hit by lia.
  destruct (task2_cut_inv _ _ _ _ _ _ _ _ _ _ _ (Hcp i Hip) (Hct i Hit) Hb)
    as [-> Hy].
  split; [done|]. by exists cy.
Qed.

(** When, and how, the check of the two numbers of cut points raises. *)
Lemma segment_task2_frames_error predictors target (plen tlen : nat)
  (overlap : Q) X Y :
  segment_task2 zero predictors target plen tlen overlap
    = Raised (ValueError frames_msg) X Y <->
  X = [] /\ Y = [] /\
  exists reshaped cuts_p cuts_t,
    reshape3 1 (shape_last target) (length target) (concat target) = Ok reshaped /\
    np_arange (shape_last3 predictors) (stride plen overlap) = Ok cuts_p /\
    np_arange (shape_last3 reshaped) (stride tlen overlap) = Ok cuts_t /\
    length cuts_p <> length cuts_t.
Proof.
  unfold segment_task2. split.
  - destruct (reshape3 _ _ _ _) as [reshaped|e] eqn:Hre.
    2:{ unfold reshape3 in Hre. case_decide; [done|]. injection Hre as <-. done. }
    destruct (np_arange (shape_last3 predictors) _) as [cuts_p|e] eqn:Hcp.
    2:{ unfold np_arange in Hcp. case_decide; [|done]. injection Hcp as <-. done. }
    destruct (np_arange (shape_last3 reshaped) _) as [cuts_t|e] eqn:Hct.
    2:{ unfold np_arange in Hct. case_decide; [|done]. injection Hct as <-. done. }
    case_decide as Hneq.
    + intros [= <- <-]. split_and!; [done..|]. by exists reshaped, cuts_p, cuts_t.
    + intros Hloop. apply append_loop_Raised in Hloop as (i & _ & Hi).
      by apply task2_cut_not_frames in Hi.
  - intros (-> & -> & reshaped & cuts_p & cuts_t & -> & -> & -> & Hneq).
    by rewrite decide_True.
Qed.

End Task2.


(** ** Chunks of rectangular arrays *)

Section Rectangular.
Context {A : Type} (zero : A).
Implicit Types (r : list A) (M : list (list A)) (P : list (list (list A))).

Lemma map_ext_Forall {B C : Type} (f g : B -> C) (l : list B) :
  Forall (fun b => f b = g b) l -> map f l = map g l.
Proof. induction 1; simpl; congruence. Qed.





Lemma length_concat_rect M (F : nat) :
  Forall (fun r => length r = F) M -> length (concat M) = length M * F.
Proof.
  induction 1 as [|r M Hr _ IH]; simpl; [done|].
  rewrite length_app, IH, Hr. lia.
Qed.

(** The reshape of line 287 turns [T] rows of [F > 0] features into one
    block of [F] rows of [T] entries. *)
Lemma reshape_target M (F : nat) :
  Forall (fun r => length r = F) M -> 0 < F ->
  exists reshaped,
    reshape3 1 (shape_last M) (length M) (concat M) = Ok reshaped /\
    shape_last3 reshaped = length M.
Proof.
  intros Hrect HF. pose proof (length_concat_rect M F Hrect) as Hlen.
  unfold reshape3. destruct M as [|r M]; simpl shape_last.
  - eexists. split; [reflexivity|reflexivity].
  - apply Forall_cons in Hrect as [Hr _]. rewrite Hr.
    rewrite decide_True by (rewrite Hlen; lia).
    eexists. split; [reflexivity|].
    destruct F as [|F']; [lia|]. simpl.
    rewrite length_take, length_drop, length_take. simpl in Hlen.
    rewrite length_drop, Hlen. nia.
Qed.

End Rectangular.

(** ** Cut points, padding and the frame check *)

Section Segmenters.
Context {A : Type} (zero : A).
Implicit Types (predictors target : list (list A)).
Implicit Types (spectra : list (list (list A))).



(** C7, amended: the check of line 291 raises its [ValueError] exactly when
    both steps are non-zero and the predictors and the target give
    different numbers of cut points, and it raises before any chunk is
    appended. *)
Theorem segment_task2_mismatch spectra (labels : list (list A))
  (plen tlen : nat) (overlap : Q) (F : nat) X Y :
  Forall (fun r => length r = F) labels -> 0 < F ->
  segment_task2 zero spectra labels plen tlen overlap
    = Raised (ValueError frames_msg) X Y <->
  X = [] /\ Y = [] /\
  stride plen overlap <> 0%Z /\ stride tlen overlap <> 0%Z /\
  num_cuts (shape_last3 spectra) (stride plen overlap)
    <> num_cuts (length labels) (stride tlen overlap).
Proof.
  intros Hrect HF. rewrite segment_task2_frames_error.
  destruct (reshape_target labels F Hrect HF) as (reshaped & Hre & Hlast).
  split.
  - intros (-> & -> & reshaped' & cuts_p & cuts_t & Hre' & Hcp & Hct & Hneq).
    rewrite Hre in Hre'. injection Hre' as <-.
    apply np_arange_inv in Hcp as (Hsp & Hlp & _).
    apply np_arange_inv in Hct as (Hst & Hlt & _).
    rewrite Hlast in Hlt. split_and!; [done..|]. congruence.
  - intros (-> & -> & Hsp & Hst & Hneq). split_and!; [done..|].
    exists reshaped. eexists _, _. split_and!; [done| | |].
    + by apply np_arange_Ok.
    + by apply np_arange_Ok.
    + rewrite !length_map, !length_seq. by rewrite Hlast.
Qed.
End Segmenters.






Lemma segment_task2_mismatch_witness :
  segment_task2 0 (spectrogram 10) (labels 7) 8 4 (1 # 2)
    = Raised (ValueError frames_msg) [] [].
Proof.
  apply (segment_task2_mismatch 0 (spectrogram 10) (labels 7) 8 4 (1 # 2) 1).
  - repeat constructor.
  - lia.
  - repeat split; discriminate.
Defined.

(** C7 as stated fails when the counts agree but the rest of the target is
    longer than its segment: 6 predictor columns in segments of 7 and 6
    label frames in segments of 4, at an overlap of one quarter, give 6 cut
    points each, and the padding of the first target chunk raises a
    [ValueError]. *)
Lemma segment_task2_equal_counts_raise :
  exists cuts_p cuts_t,
    np_arange 6 (stride 7 (1 # 4)) = Ok cuts_p /\
    np_arange 6 (stride 4 (1 # 4)) = Ok cuts_t /\
    length cuts_p = length cuts_t /\
    segment_task2 0 (spectrogram 6) (labels 6) 7 4 (1 # 4)
      = Raised (ValueError broadcast_msg) [] [].
Proof. eexists _, _. repeat split. Qed.

(** ** The dictionary of [get_label_task2] *)

Section ClassDict.
Context {V : Type}.
Implicit Types (d pre post : list (string * V)).

Lemma dict_set_fresh (k : string) (v : V) d :
  k ∉ map fst d -> dict_set k v d = d ++ [(k, v)].
Proof.
  induction d as [|[k' v'] d IH]; simpl; intros Hk; [done|].
  destruct (String.eqb k' k) eqn:E.
  - apply String.eqb_eq in E. subst. exfalso. apply Hk. by left.
  - rewrite IH; [done|]. intros H. apply Hk. by right.
Qed.

Lemma dict_get_middle (k : string) (v : V) pre post :
  k ∉ map fst pre -> dict_get k (pre ++ (k, v) :: post) = Ok v.
Proof.
  induction pre as [|[k' v'] pre IH]; simpl; intros Hk.
  - by rewrite String.eqb_refl.
  - destruct (String.eqb k' k) eqn:E.
    + apply String.eqb_eq in E. subst. exfalso. apply Hk. by left.
    + apply IH. intros H. apply Hk. by right.
Qed.

Lemma dict_set_middle (k : string) (v w : V) pre post :
  k ∉ map fst pre ->
  dict_set k w (pre ++ (k, v) :: post) = pre ++ (k, w) :: post.
Proof.
  induction pre as [|[k' v'] pre IH]; simpl; intros Hk.
  - by rewrite String.eqb_refl.
  - destruct (String.eqb k' k) eqn:E.
    + apply String.eqb_eq in E. subst. exfalso. apply Hk. by left.
    + rewrite IH; [done|]. intros H. apply Hk. by right.
Qed.
End ClassDict.

Lemma fold_dict_set_empty (classes : list string) (d : list (string * list data5)) :
  NoDup classes -> (forall c, c ∈ classes -> c ∉ map fst d) ->
  fold_left (fun d class_name => dict_set class_name [] d) classes d
  = d ++ map (fun c => (c, [])) classes.
Proof.
  revert d. induction classes as [|c classes IH]; intros d Hnd Hfresh; simpl.
  - by rewrite app_nil_r.
  - apply NoDup_cons in Hnd as [Hc Hnd].
    rewrite dict_set_fresh by (apply Hfresh; by left).
    rewrite IH; [by rewrite <- app_assoc|done|].
    intros c' Hc' Hin. rewrite map_app in Hin. simpl in Hin.
    apply elem_of_app in Hin as [Hin|Hin].
    + eapply Hfresh; [|exact Hin]. by right.
    + apply list_elem_of_singleton in Hin. by subst.
Qed.

Lemma foldM_dict_append (c : string) (xs : list sound)
  (pre post : list (string * list data5)) (l : list data5) :
  c ∉ map fst pre -> Forall (fun s => Class s = c) xs ->
  foldM (fun d data => dict_append (Class data) (data_of data) d) xs
    (pre ++ (c, l) :: post)
  = Ok (pre ++ (c, l ++ map data_of xs) :: post).
Proof.
  intros Hc Hxs. revert l. induction Hxs as [|x xs Hx _ IH]; intros l; simpl.
  - by rewrite app_nil_r.
  - unfold dict_append. rewrite Hx, dict_get_middle by done. simpl.
    rewrite dict_set_middle by done. rewrite IH. by rewrite <- app_assoc.
Qed.

Lemma build_class_dict_NoDup (classes : list string) (df : list sound) :
  NoDup classes ->
  build_class_dict classes df = Ok (map (fun c => (c, events_of df c)) classes).
Proof.
  intros Hnd. unfold build_class_dict.
  rewrite fold_dict_set_empty; [|done|intros c _ Hin; by apply elem_of_nil in Hin].
  simpl.
  assert (forall todo done,
            NoDup (done ++ todo) ->
            foldM (fun d class_name =>
                     foldM (fun d data => dict_append (Class data) (data_of data) d)
                       (filter (fun s => Class s = class_name) df) d)
              todo
              (map (fun c => (c, events_of df c)) done
               ++ map (fun c => (c, [])) todo)
            = Ok (map (fun c => (c, events_of df c)) (done ++ todo))) as H.
  { induction todo as [|c todo IH]; intros done Hnd'; simpl.
    - by rewrite !app_nil_r.
    - rewrite foldM_dict_append.
      + cbn [mbind result_bind]. specialize (IH (done ++ [c])).
        rewrite <- !app_assoc in IH. simpl in IH.
        rewrite map_app in IH. simpl in IH. rewrite <- app_assoc in IH. simpl in IH.
        apply IH. exact Hnd'.
      + rewrite map_map. simpl. rewrite map_id.
        apply NoDup_app in Hnd' as (_ & Hdisj & _).
        intros Hin. eapply Hdisj; [exact Hin|]. by left.
      + apply Forall_forall. intros s Hs. by apply list_elem_of_filter in Hs as [? _]. }
  apply (H classes []). done.
Qed.

(** ** One event written into the rows of a frame *)

Lemma setitem_Ok {A} (l : list A) (i : nat) (v : A) :
  i < length l -> setitem l i v = Ok (<[i := v]> l).
Proof. intros H. unfold setitem. by rewrite decide_True. Qed.

Lemma getitem_Ok {A} (l : list A) (i : nat) (a : A) :
  l !! i = Some a -> getitem l i = Ok a.
Proof. intros H. unfold getitem. by rewrite H. Qed.

Lemma write_class_slot_spec (cr : list (option Z)) (idx n m : nat) :
  length cr = n * 3 -> idx < n ->
  (forall s, s < 3 ->
     cr !! (idx * 3 + s) = Some (if decide (s < m) then Some 1%Z else None)) ->
  exists cr',
    write_class_slot cr (idx * 3) = Ok cr' /\
    length cr' = n * 3 /\
    (forall s, s < 3 ->
       cr' !! (idx * 3 + s) = Some (if decide (s < m + 1) then Some 1%Z else None)) /\
    (forall k, ~ (idx * 3 <= k < idx * 3 + 3) -> cr' !! k = cr !! k).
Proof.
  intros Hlen Hidx Hst. unfold write_class_slot.
  pose proof (Hst 0 ltac:(lia)) as H0. pose proof (Hst 1 ltac:(lia)) as H1.
  pose proof (Hst 2 ltac:(lia)) as H2.
  rewrite Nat.add_0_r in H0.
  rewrite (getitem_Ok _ _ _ H0). simpl.
  destruct (decide (0 < m)) as [Hm0|Hm0]; simpl.
  - rewrite (getitem_Ok _ _ _ H1). simpl.
    destruct (decide (1 < m)) as [Hm1|Hm1]; simpl.
    + rewrite setitem_Ok by lia. eexists. split; [done|].
      rewrite length_insert. split; [done|]. split.
      * intros s Hs. rewrite list_lookup_insert, Hst by done.
        repeat case_decide; try done; lia.
      * intros k Hk. rewrite list_lookup_insert_ne by lia. done.
    + rewrite setitem_Ok by lia. eexists. split; [done|].
      rewrite length_insert. split; [done|]. split.
      * intros s Hs. rewrite list_lookup_insert, Hst by done.
        repeat case_decide; try done; lia.
      * intros k Hk. rewrite list_lookup_insert_ne by lia. done.
  - rewrite setitem_Ok by lia. eexists. split; [done|].
    rewrite length_insert. split; [done|]. split.
    + intros s Hs. rewrite list_lookup_insert, Hst by done.
      repeat case_decide; try done; lia.
    + intros k Hk. rewrite list_lookup_insert_ne by lia. done.
Qed.

Lemma write_xyz_spec (lr : list (option Q)) (idx n s : nat) (d : data5) :
  length lr = n * 9 -> idx < n -> s < 3 ->
  exists lr',
    write_xyz lr (s * 3) (idx * 3) d = Ok lr' /\
    length lr' = n * 9 /\
    loc_at lr' idx s d /\
    (forall k, ~ (idx * 9 + s * 3 <= k < idx * 9 + s * 3 + 3) -> lr' !! k = lr !! k).
Proof.
  intros Hlen Hidx Hs. unfold write_xyz.
  replace (s * 3 + idx * 3 * 3) with (idx * 9 + s * 3) by lia.
  replace (s * 3 + 1 + idx * 3 * 3) with (idx * 9 + s * 3 + 1) by lia.
  replace (s * 3 + 2 + idx * 3 * 3) with (idx * 9 + s * 3 + 2) by lia.
  rewrite setitem_Ok by lia. cbn [mbind result_bind].
  rewrite setitem_Ok by (rewrite length_insert; lia). cbn [mbind result_bind].
  rewrite setitem_Ok by (rewrite !length_insert; lia).
  eexists. split; [done|]. rewrite !length_insert. split; [done|].
  unfold loc_at. split_and!.
  - rewrite !list_lookup_insert_ne by lia.
    apply list_lookup_insert_eq. lia.
  - rewrite list_lookup_insert_ne by lia.
    apply list_lookup_insert_eq. rewrite length_insert. lia.
  - apply list_lookup_insert_eq. rewrite !length_insert. lia.
  - intros k Hk. by rewrite !list_lookup_insert_ne by lia.
Qed.

Lemma write_loc_slot_spec (lr : list (option Q)) (idx n : nat) (d : data5) :
  length lr = n * 9 -> idx < n ->
  exists lr' s,
    write_loc_slot lr (idx * 3) d = Ok lr' /\
    length lr' = n * 9 /\
    s < 3 /\
    loc_at lr' idx s d /\
    (forall k, ~ (idx * 9 + s * 3 <= k < idx * 9 + s * 3 + 3) -> lr' !! k = lr !! k) /\
    (s = 0 <-> lr !! (idx * 9) = Some None).
Proof.
  intros Hlen Hidx. unfold write_loc_slot.
  replace (idx * 3 * 3) with (idx * 9) by lia.
  destruct (lr !! (idx * 9)) as [l0|] eqn:H0.
  2:{ apply lookup_ge_None in H0. lia. }
  rewrite (getitem_Ok _ _ _ H0). cbn [mbind result_bind].
  destruct l0 as [x0|]; cbn [is_None].
  - destruct (lr !! (idx * 3 + 1)) as [l1|] eqn:H1.
    2:{ apply lookup_ge_None in H1. lia. }
    rewrite (getitem_Ok _ _ _ H1). cbn [mbind result_bind].
    destruct l1 as [y1|]; cbn [is_None].
    + destruct (write_xyz_spec lr idx n 2 d Hlen Hidx) as (lr' & Hw & Hl & Hat & Hout);
        [lia|].
      exists lr', 2. split_and!; [exact Hw|done|lia|done|done|]. split; [lia|done].
    + destruct (write_xyz_spec lr idx n 1 d Hlen Hidx) as (lr' & Hw & Hl & Hat & Hout);
        [lia|].
      exists lr', 1. split_and!; [exact Hw|done|lia|done|done|]. split; [lia|done].
  - destruct (write_xyz_spec lr idx n 0 d Hlen Hidx) as (lr' & Hw & Hl & Hat & Hout);
      [lia|].
    exists lr', 0. split_and!; [exact Hw|done|lia|done|done|]. done.
Qed.

Lemma slot_state_ext (evs : list data5) (idx : nat) (r r' : rowpair) :
  slot_state evs idx r ->
  (forall k, idx * 3 <= k < idx * 3 + 3 -> r'.1 !! k = r.1 !! k) ->
  (forall k, idx * 9 <= k < idx * 9 + 9 -> r'.2 !! k = r.2 !! k) ->
  slot_state evs idx r'.
Proof.
  intros (Hp & He & Hh & Hl) Hc Hlr. unfold slot_state, loc_at in *. split_and!.
  - intros s Hs. rewrite Hc by lia. by apply Hp.
  - intros Hevs. rewrite Hlr by lia. by apply He.
  - intros d Hd. rewrite !Hlr by lia. by apply Hh.
  - intros d H2 Hd. destruct (Hl d H2 Hd) as (s & Hs & Hat).
    exists s. split; [done|]. rewrite !Hlr by lia. done.
Qed.

Lemma write_event_spec (names : list string) (clas : string) (idx n : nat)
  (evs : list data5) (d : data5) (r : rowpair) :
  list_index clas names = Ok idx -> idx < n ->
  length r.1 = n * 3 -> length r.2 = n * 9 -> slot_state evs idx r ->
  exists r',
    write_event names clas d r = Ok r' /\
    length r'.1 = n * 3 /\ length r'.2 = n * 9 /\
    slot_state (evs ++ [d]) idx r' /\
    (forall k, ~ (idx * 3 <= k < idx * 3 + 3) -> r'.1 !! k = r.1 !! k) /\
    (forall k, ~ (idx * 9 <= k < idx * 9 + 9) -> r'.2 !! k = r.2 !! k).
Proof.
  destruct r as [cr lr]. simpl. intros Hix Hidx Hlc Hll (Hp & He & Hh & Hl).
  simpl in *. unfold write_event. rewrite Hix. cbn [mbind result_bind].
  destruct (write_class_slot_spec cr idx n (length evs) Hlc Hidx Hp)
    as (cr' & -> & Hlc' & Hp' & Hco).
  destruct (write_loc_slot_spec lr idx n d Hll Hidx)
    as (lr' & s & -> & Hll' & Hs & Hat & Hlo & Hs0).
  cbn [mbind result_bind]. exists (cr', lr'). simpl.
  split_and!; [done..| |done|intros k Hk; apply Hlo; lia].
  assert (evs <> [] -> s <> 0) as Hne.
  { intros Hevs ->. destruct evs as [|e1 evs']; [done|].
    destruct (Hh e1 eq_refl) as (Hx & _). rewrite Nat.add_0_r in Hx.
    destruct Hs0 as [Hs0 _]. rewrite Hs0 in Hx by done. done. }
  unfold slot_state. simpl. split_and!.
  - intros s' Hs'. rewrite length_app. simpl. by apply Hp'.
  - intros Hnil. by destruct evs.
  - intros d0 Hd0. destruct evs as [|e1 evs'].
    + injection Hd0 as <-. destruct Hs0 as [_ Hs0]. rewrite Hs0 in Hat; [done|].
      by apply He.
    + injection Hd0 as <-. specialize (Hne ltac:(done)).
      destruct (Hh e1 eq_refl) as (Hx & Hy & Hz).
      unfold loc_at. rewrite !Hlo by lia. done.
  - intros d0 Hlen Hd0. rewrite last_snoc in Hd0. injection Hd0 as <-.
    rewrite length_app in Hlen. simpl in Hlen.
    exists s. split; [|done]. assert (s <> 0); [|lia].
    apply Hne. intros ->. simpl in Hlen. lia.
Qed.

Lemma write_events_spec (names : list string) (clas : string) (idx n : nat)
  (evs pre : list data5) (r : rowpair) :
  list_index clas names = Ok idx -> idx < n ->
  length r.1 = n * 3 -> length r.2 = n * 9 -> slot_state pre idx r ->
  exists r',
    write_events names clas evs r = Ok r' /\
    length r'.1 = n * 3 /\ length r'.2 = n * 9 /\
    slot_state (pre ++ evs) idx r' /\
    (forall k, ~ (idx * 3 <= k < idx * 3 + 3) -> r'.1 !! k = r.1 !! k) /\
    (forall k, ~ (idx * 9 <= k < idx * 9 + 9) -> r'.2 !! k = r.2 !! k).
Proof.
  intros Hix Hidx. revert pre r.
  induction evs as [|d evs IH]; intros pre r Hlc Hll Hst.
  - exists r. rewrite app_nil_r. by split_and!.
  - destruct (write_event_spec names clas idx n pre d r Hix Hidx Hlc Hll Hst)
      as (r1 & Hw & Hlc1 & Hll1 & Hst1 & Hc1 & Hl1).
    destruct (IH (pre ++ [d]) r1 Hlc1 Hll1 Hst1)
      as (r2 & Hw2 & Hlc2 & Hll2 & Hst2 & Hc2 & Hl2).
    exists r2. unfold write_events in *. simpl. rewrite Hw. cbn [mbind result_bind].
    rewrite <- app_assoc in Hst2.
    split_and!; [done..| |].
    + intros k Hk. by rewrite Hc2, Hc1.
    + intros k Hk. by rewrite Hl2, Hl1.
Qed.

Lemma foldM_filter {S X : Type} (p : X -> bool) (f : S -> X -> result S)
  (xs : list X) (st : S) :
  foldM (fun st x => if p x then f st x else Ok st) xs st
  = foldM f (filter (fun x => p x) xs) st.
Proof.
  revert st. induction xs as [|x xs IH]; intros st; [done|].
  simpl. rewrite filter_cons. destruct (p x) eqn:E.
  - rewrite decide_True by (by apply Is_true_true). simpl.
    destruct (f st x); simpl; [apply IH|done].
  - rewrite decide_False by (by apply Is_true_false). apply IH.
Qed.

Lemma list_index_lookup (names : list string) (idx : nat) (clas : string) :
  NoDup names -> names !! idx = Some clas -> list_index clas names = Ok idx.
Proof.
  revert idx. induction names as [|c names IH]; intros idx Hnd Hidx; [done|].
  apply NoDup_cons in Hnd as [Hc Hnd]. destruct idx as [|idx]; simpl in *.
  - injection Hidx as ->. by rewrite String.eqb_refl.
  - destruct (String.eqb c clas) eqn:E.
    + apply String.eqb_eq in E. subst. exfalso. apply Hc.
      by eapply list_elem_of_lookup_2.
    + by rewrite (IH idx).
Qed.

(** ** One frame *)

Lemma slot_state_blank (n idx : nat) :
  idx < n -> slot_state [] idx (blank_rows n).
Proof.
  intros Hidx. unfold slot_state, blank_rows. simpl. split_and!.
  - intros s Hs. rewrite lookup_replicate_2 by lia. done.
  - intros _. rewrite lookup_replicate_2 by lia. done.
  - done.
  - intros d Hlen. lia.
Qed.

Lemma frame_rows_spec (names : list string) (df : list sound) (start end_ : Q) :
  NoDup names ->
  exists r,
    frame_rows names (map (fun c => (c, events_of df c)) names) start end_
      (blank_rows (length names)) = Ok r /\
    length r.1 = length names * 3 /\ length r.2 = length names * 9 /\
    forall idx clas, names !! idx = Some clas ->
      slot_state (overlapping df clas start end_) idx r.
Proof.
  intros Hnd. set (n := length names).
  assert (forall todo done r,
            names = done ++ todo ->
            length r.1 = n * 3 -> length r.2 = n * 9 ->
            (forall idx clas, names !! idx = Some clas ->
               slot_state (if decide (clas ∈ done)
                           then overlapping df clas start end_ else []) idx r) ->
            exists r',
              frame_rows names (map (fun c => (c, events_of df c)) todo)
                start end_ r = Ok r' /\
              length r'.1 = n * 3 /\ length r'.2 = n * 9 /\
              forall idx clas, names !! idx = Some clas ->
                slot_state (overlapping df clas start end_) idx r') as H.
  { induction todo as [|c todo IH]; intros done r Hnames Hlc Hll Hinv.
    - exists r. split_and!; [done..|]. intros idx clas Hidx.
      specialize (Hinv idx clas Hidx). rewrite decide_True in Hinv; [done|].
      rewrite app_nil_r in Hnames. subst. by eapply list_elem_of_lookup_2.
    - assert (names !! length done = Some c) as Hc.
      { rewrite Hnames. by rewrite list_lookup_middle. }
      assert (c ∉ done) as Hfresh.
      { rewrite Hnames in Hnd. apply NoDup_app in Hnd as (_ & Hdisj & _).
        intros Hin. eapply Hdisj; [exact Hin|]. by left. }
      pose proof (list_index_lookup names _ c Hnd Hc) as Hix.
      assert (length done < n) as Hlt by (by eapply lookup_lt_Some).
      pose proof (Hinv _ c Hc) as Hst0. rewrite decide_False in Hst0 by done.
      destruct (write_events_spec names c (length done) n
                  (overlapping df c start end_) [] r Hix Hlt Hlc Hll Hst0)
        as (r1 & Hw & Hlc1 & Hll1 & Hst1 & Hc1 & Hl1).
      destruct (IH (done ++ [c]) r1) as (r2 & Hw2 & Hr2); [|done|done| |].
      + by rewrite <- app_assoc.
      + intros idx clas Hidx. destruct (decide (clas = c)) as [->|Hne].
        * assert (idx = length done) as ->.
          { eapply NoDup_lookup; [exact Hnd|exact Hidx|exact Hc]. }
          rewrite decide_True by (apply elem_of_app; right; by left). done.
        * assert (idx <> length done) as Hidxne by (intros ->; congruence).
          eapply slot_state_ext.
          -- specialize (Hinv idx clas Hidx).
             destruct (decide (clas ∈ done)) as [Hin|Hnin].
             ++ rewrite decide_True by (apply elem_of_app; by left). exact Hinv.
             ++ rewrite decide_False; [exact Hinv|].
                intros [Hin|Hin%list_elem_of_singleton]%elem_of_app; done.
          -- intros k Hk. apply Hc1. lia.
          -- intros k Hk. apply Hl1. lia.
      + exists r2. split; [|done]. unfold frame_rows in *. simpl.
        rewrite foldM_filter. fold (overlapping df c start end_).
        unfold write_events in Hw. rewrite Hw. exact Hw2. }
  destruct (H names [] (blank_rows n)) as (r & Hr); [done|..].
  - simpl. by rewrite length_replicate.
  - simpl. by rewrite length_replicate.
  - intros idx clas Hidx. rewrite decide_False by (apply not_elem_of_nil).
    apply slot_state_blank. by eapply lookup_lt_Some.
  - by exists r.
Qed.

(** ** From the rows of a frame to the label matrix *)

Lemma foldM_on_frame {X : Type} (G : vecs -> X -> result vecs)
  (g : rowpair -> X -> result rowpair) (j : nat) (xs : list X) :
  (forall x cv lv cr lr, cv !! j = Some cr -> lv !! j = Some lr ->
     G (cv, lv) x = (r ← g (cr, lr) x; Ok (<[j := r.1]> cv, <[j := r.2]> lv))) ->
  forall cv lv cr lr, cv !! j = Some cr -> lv !! j = Some lr ->
    foldM G xs (cv, lv)
    = (r ← foldM g xs (cr, lr); Ok (<[j := r.1]> cv, <[j := r.2]> lv)).
Proof.
  intros HG. induction xs as [|x xs IH]; intros cv lv cr lr Hc Hl; simpl.
  - by rewrite !list_insert_id.
  - rewrite (HG x cv lv cr lr Hc Hl).
    destruct (g (cr, lr) x) as [[cr1 lr1]|e]; simpl; [|done].
    rewrite (IH _ _ cr1 lr1).
    + destruct (foldM g xs (cr1, lr1)) as [[cr2 lr2]|e]; simpl; [|done].
      by rewrite !list_insert_insert_eq.
    + apply list_lookup_insert_eq. by eapply lookup_lt_Some.
    + apply list_lookup_insert_eq. by eapply lookup_lt_Some.
Qed.

Lemma on_frame_Ok (j : nat) (f : rowpair -> result rowpair) (cv : list (list (option Z)))
  (lv : list (list (option Q))) cr lr :
  cv !! j = Some cr -> lv !! j = Some lr ->
  on_frame j f (cv, lv) = (r ← f (cr, lr); Ok (<[j := r.1]> cv, <[j := r.2]> lv)).
Proof.
  intros Hc Hl. unfold on_frame, getitem. rewrite Hc, Hl. simpl.
  by destruct (f (cr, lr)) as [[cr1 lr1]|e].
Qed.

Lemma frame_step_rows (names : list string)
  (class_dict : list (string * list data5)) (frame_len : Q)
  (cv : list (list (option Z))) (lv : list (list (option Q)))
  (j : nat) (i : Q) cr lr :
  cv !! j = Some cr -> lv !! j = Some lr ->
  frame_step names class_dict frame_len (cv, lv) (j, i)
  = (r ← frame_rows names class_dict (i - frame_len) i (cr, lr);
     Ok (<[j := fill_None 0%Z r.1]> cv, <[j := fill_None 0%Q r.2]> lv)).
Proof.
  intros Hc Hl. unfold frame_step, frame_rows.
  set (g := fun (r : rowpair) (cd : string * list data5) =>
              let '(clas, data_list) := cd in
              foldM (fun r data =>
                       if is_in data (i - frame_len) i
                       then write_event names clas data r
                       else Ok r)
                data_list r).
  rewrite (foldM_on_frame _ g j class_dict) with (cr := cr) (lr := lr);
    [|..|done|done].
  - destruct (foldM g class_dict (cr, lr)) as [[cr1 lr1]|e]; simpl; [|done].
    rewrite (getitem_Ok _ _ cr1), (getitem_Ok _ _ lr1).
    + simpl. by rewrite !list_insert_insert_eq.
    + apply list_lookup_insert_eq. by eapply lookup_lt_Some.
    + apply list_lookup_insert_eq. by eapply lookup_lt_Some.
  - intros [clas data_list] cv' lv' cr' lr' Hc' Hl'. unfold g.
    apply foldM_on_frame; [|done|done].
    intros data cv2 lv2 cr2 lr2 Hc2 Hl2.
    destruct (is_in data (i - frame_len) i).
    + by apply on_frame_Ok.
    + simpl. by rewrite !list_insert_id.
Qed.

Lemma frames_loop (names : list string) (class_dict : list (string * list data5))
  (frame_len : Q) (n : nat) (frames : list Q) (rs : list rowpair) :
  Forall2 (fun i r =>
             frame_rows names class_dict (i - frame_len) i (blank_rows n) = Ok r)
    frames rs ->
  forall (m : nat) pre_c pre_l,
    length pre_c = m -> length pre_l = m ->
    foldM (frame_step names class_dict frame_len)
      (zip (seq m (length frames)) frames)
      (pre_c ++ replicate (length frames) (replicate (n * 3) None),
       pre_l ++ replicate (length frames) (replicate (n * 9) None))
    = Ok (pre_c ++ map (fun r => fill_None 0%Z r.1) rs,
          pre_l ++ map (fun r => fill_None 0%Q r.2) rs).
Proof.
  induction 1 as [|i r frames rs Hir _ IH]; intros m pre_c pre_l Hpc Hpl.
  - done.
  - cbn [length seq zip_with replicate foldM].
    rewrite (frame_step_rows _ _ _ _ _ _ _
               (replicate (n * 3) None) (replicate (n * 9) None)).
    2:{ subst m. apply list_lookup_middle. done. }
    2:{ rewrite <- Hpl. apply list_lookup_middle. done. }
    unfold blank_rows in Hir. rewrite Hir. simpl.
    rewrite !insert_app_r_alt by lia. rewrite Hpc, Hpl, Nat.sub_diag.
    cbn [insert list_insert].
    rewrite (cons_middle _ pre_c), (cons_middle _ pre_l), !app_assoc.
    rewrite (IH (S m)) by (rewrite length_app; simpl; lia).
    by rewrite <- !app_assoc.
Qed.

Lemma np_array_filled {A : Type} (zero : A) (rows : list (list (option A))) :
  np_array (map (fill_None zero) rows)
  = Ok (map (map (from_option id zero)) rows).
Proof.
  assert (forall (cells : list (option A)) acc,
            foldM (fun acc o =>
                     match o with
                     | Some a => Ok (acc ++ [a])
                     | None => Raise TypeError
                     end) (fill_None zero cells) acc
            = Ok (acc ++ map (from_option id zero) cells)) as Hrow.
  { induction cells as [|o cells IH]; intros acc; simpl.
    - by rewrite app_nil_r.
    - destruct o; simpl; rewrite IH; by rewrite <- app_assoc. }
  unfold np_array.
  rewrite (foldM_append _ (fun cells => [map (from_option id zero) cells])).
  - simpl. f_equal. induction rows as [|cells rows IH]; simpl; [done|].
    f_equal; [|done]. clear. induction cells as [|[a|] cells IH]; simpl; by f_equal.
  - intros out x Hx. apply list_elem_of_fmap in Hx as (cells & -> & _).
    rewrite Hrow. simpl. do 3 f_equal.
    clear. induction cells as [|[a|] cells IH]; simpl; by f_equal.
Qed.

Lemma Forall2_exists {B C : Type} (P : B -> C -> Prop) (l : list B) :
  (forall b, exists c, P b c) -> exists k, Forall2 P l k.
Proof.
  intros H. induction l as [|b l [k IH]]; [by exists []|].
  destruct (H b) as [c Hc]. exists (c :: k). by constructor.
Qed.

Lemma take3_drop {B : Type} (l : list B) (k : nat) (a b c : B) :
  l !! k = Some a -> l !! (k + 1) = Some b -> l !! (k + 2) = Some c ->
  take 3 (drop k l) = [a; b; c].
Proof.
  intros Ha Hb Hc. apply list_eq. intros [|[|[|p]]]; simpl.
  - rewrite lookup_take_lt, lookup_drop by lia. by rewrite Nat.add_0_r.
  - rewrite lookup_take_lt, lookup_drop by lia. done.
  - rewrite lookup_take_lt, lookup_drop by lia. done.
  - rewrite lookup_take_ge by lia. done.
Qed.

(** C4, amended: given as many rows as there are frames, [get_label_task2]
    returns, whatever the number of simultaneous events, a matrix of
    [num_frames] rows of 12 entries per class.  In the row of a frame, a
    class with [k] overlapping events has its first [min k 3] presence slots
    at 1 and the others at 0, and its location slot 0 holds the first of
    these events.  The encoder does not stop writing once the slots are
    taken: as soon as there are two events, the coordinates of the last one,
    be it the second or the tenth, are in location slot 1 or 2. *)
Theorem get_label_task2_overflow (df : list sound) (frame_len file_size : Q)
  (classes_ : list string) (num_frames : nat) (max_label_distance : Q)
  (frames : list Q) :
  NoDup classes_ ->
  np_arange_Q frame_len (file_size + frame_len) frame_len = Ok frames ->
  num_frames = length frames ->
  num_frames <> 0 ->
  exists stacked,
    get_label_task2 df frame_len file_size classes_ num_frames
      max_label_distance = Ok stacked /\
    length stacked = num_frames /\
    Forall (fun cells => length cells = length classes_ * 12) stacked /\
    forall j i cells idx clas,
      frames !! j = Some i -> stacked !! j = Some cells ->
      classes_ !! idx = Some clas ->
      let evs := overlapping df clas (i - frame_len) i in
      (forall s, s < 3 ->
         cells !! (idx * 3 + s)
         = Some (if decide (s < length evs) then 1%Q else 0%Q)) /\
      (forall d, head evs = Some d ->
         raw_location (length classes_) cells idx 0
         = normalized max_label_distance d) /\
      (forall d, 2 <= length evs -> last evs = Some d ->
         exists s, (s = 1 \/ s = 2) /\
           raw_location (length classes_) cells idx s
           = normalized max_label_distance d).
Proof.
  intros Hnd Hfr Hnf Hne. set (n := length classes_).
  set (dict := map (fun c => (c, events_of df c)) classes_).
  destruct (Forall2_exists
              (fun i r =>
                 frame_rows classes_ dict (i - frame_len) i (blank_rows n) = Ok r /\
                 length r.1 = n * 3 /\ length r.2 = n * 9 /\
                 forall idx clas, classes_ !! idx = Some clas ->
                   slot_state (overlapping df clas (i - frame_len) i) idx r)
              frames) as [rs Hrs].
  { intros i. apply frame_rows_spec. done. }
  assert (Forall2 (fun i r =>
                     frame_rows classes_ dict (i - frame_len) i (blank_rows n) = Ok r)
            frames rs) as Hloop
    by (eapply Forall2_impl; [exact Hrs|]; by intros i r [? _]).
  pose proof (Forall2_length _ _ _ Hrs) as Hlen.
  pose proof (frames_loop classes_ dict frame_len n frames rs Hloop 0 [] []
                eq_refl eq_refl) as Hfold.
  cbn [app] in Hfold.
  unfold get_label_task2. rewrite build_class_dict_NoDup by done.
  cbn [mbind result_bind]. rewrite Hfr. cbn [mbind result_bind].
  unfold enumerate. rewrite Hnf. fold n. fold dict. rewrite Hfold.
  cbn [mbind result_bind].
  rewrite <- (map_map fst (fill_None 0%Z)), <- (map_map snd (fill_None 0%Q)).
  rewrite !np_array_filled. cbn [mbind result_bind].
  rewrite decide_False by lia.
  eexists. split; [reflexivity|].
  assert (forall j cells, zip_with (fun c l => map inject_Z c ++ l)
             (map (map (from_option id 0%Z)) (map fst rs))
             (map (map (fun x => (x / max_label_distance)%Q))
                (map (map (from_option id 0%Q)) (map snd rs))) !! j = Some cells ->
            exists r, rs !! j = Some r /\
              cells = map inject_Z (map (from_option id 0%Z) r.1)
                      ++ map (fun x => (x / max_label_distance)%Q)
                           (map (from_option id 0%Q) r.2)) as Hrow.
  { intros j cells Hj. apply lookup_zip_with_Some in Hj as (c & l & -> & Hc & Hl).
    rewrite !list_lookup_fmap in Hc. rewrite !list_lookup_fmap in Hl.
    apply fmap_Some in Hc as (c1 & Hc1 & ->).
    apply fmap_Some in Hc1 as (r & Hr & ->).
    apply fmap_Some in Hl as (l1 & Hl1 & ->).
    apply fmap_Some in Hl1 as (l2 & Hl2 & ->).
    apply fmap_Some in Hl2 as (r' & Hr' & ->).
    rewrite Hr in Hr'. injection Hr' as <-. by exists r. }
  split_and!.
  - rewrite length_zip_with, !length_map, Nat.min_id. symmetry. exact Hlen.
  - apply Forall_forall. intros cells Hcells.
    apply list_elem_of_lookup in Hcells as [j Hj].
    apply Hrow in Hj as (r & Hr & ->).
    destruct (Forall2_lookup_r _ _ _ _ _ Hrs Hr) as (i & _ & _ & Hlc & Hll & _).
    rewrite length_app, !length_map. lia.
  - intros j i cells idx clas Hi Hj Hidx.
    apply Hrow in Hj as (r & Hr & ->).
    destruct (Forall2_lookup_lr _ _ _ _ _ _ Hrs Hi Hr) as (_ & Hlc & Hll & Hst).
    destruct (Hst idx clas Hidx) as (Hp & _ & Hh & Hl).
    assert (idx < n) as Hlt by (by eapply lookup_lt_Some).
    assert (forall s d, s < 3 -> loc_at r.2 idx s d ->
              raw_location n
                (map inject_Z (map (from_option id 0%Z) r.1)
                 ++ map (fun x => (x / max_label_distance)%Q)
                      (map (from_option id 0%Q) r.2)) idx s
              = normalized max_label_distance d) as Hloc.
    { intros s d Hs (Hx & Hy & Hz). unfold raw_location.
      rewrite <- Nat.add_assoc.
      rewrite drop_app_add' by (rewrite !length_map; lia).
      apply take3_drop; rewrite !list_lookup_fmap.
      - by rewrite Hx.
      - by rewrite Hy.
      - by rewrite Hz. }
    split_and!.
    + intros s Hs. rewrite lookup_app_l by (rewrite !length_map; lia).
      rewrite !list_lookup_fmap, Hp by done. by case_decide.
    + intros d Hd. apply Hloc; [lia|]. by apply Hh.
    + intros d H2 Hd. destruct (Hl d H2 Hd) as (s & Hs & Hat).
      exists s. split; [done|]. apply Hloc; [lia|done].
Qed.

Lemma get_label_task2_overflow_witness :
  exists stacked cells,
    get_label_task2 four_dogs (1 # 10) 1 ["dog"] 10 2 = Ok stacked /\
    length stacked = 10 /\
    stacked !! 1 = Some cells /\
    cells !! 0 = Some 1%Q /\ cells !! 1 = Some 1%Q /\ cells !! 2 = Some 1%Q /\
    raw_location 1 cells 0 0 = normalized 2 (data_of (dog 0 (1 # 2) 1 0 0)) /\
    exists s, (s = 1 \/ s = 2) /\
      raw_location 1 cells 0 s
      = normalized 2 (data_of (dog 0 (1 # 2) (-2) (-2) (-1))).
Proof.
  edestruct (get_label_task2_overflow four_dogs (1 # 10) 1 ["dog"] 10 2)
    as (stacked & Hret & Hlen & Hshape & Hspec).
  - apply NoDup_singleton.
  - reflexivity.
  - reflexivity.
  - discriminate.
  - destruct (stacked !! 1) as [cells|] eqn:Hcells.
    2:{ apply lookup_ge_None in Hcells. lia. }
    destruct (Hspec 1 _ cells 0 "dog" eq_refl Hcells eq_refl) as (Hp & Hh & Hl).
    exists stacked, cells. split_and!; [done..| | | | |].
    + exact (Hp 0 ltac:(lia)).
    + exact (Hp 1 ltac:(lia)).
    + exact (Hp 2 ltac:(lia)).
    + exact (Hh _ eq_refl).
    + apply Hl; [vm_compute; lia|reflexivity].
Defined.

(** C4 as stated fails on four simultaneous events of one class: the
    presence slots are the same as with three events, but the location of
    slot 2 is that of the fourth event, not the one written before.  The
    sibling encoder [csv_to_matrix_task2] raises on the same annotation. *)
Lemma get_label_task2_fourth_event_overwrites :
  exists stacked3 stacked4 cells3 cells4,
    get_label_task2 three_dogs (1 # 10) 1 ["dog"] 10 2 = Ok stacked3 /\
    get_label_task2 four_dogs (1 # 10) 1 ["dog"] 10 2 = Ok stacked4 /\
    stacked3 !! 1 = Some cells3 /\ stacked4 !! 1 = Some cells4 /\
    take 3 cells3 = [1; 1; 1]%Q /\ take 3 cells4 = [1; 1; 1]%Q /\
    location 1 cells3 0 2 = [3 # 4; 1 # 2; 1 # 2]%Q /\
    location 1 cells4 0 2 = [- 1; - 1; - (1 # 2)]%Q /\
    stacked3 <> stacked4 /\
    csv_to_matrix_task2 four_dogs [("dog", 0%Z)] 1 (1 # 10) 3 2 = Raise IndexError.
Proof.
  eexists _, _, _, _.
  split; [vm_compute; reflexivity|]. split; [vm_compute; reflexivity|].
  repeat split. discriminate.
Qed.

(** ** The two defects of the encoder, in general *)

(** What the three tests of lines 202-207 accept. *)
Lemma is_in_iff (data : data5) (start end_ : Q) :
  is_in data start end_ = true <->
  ((start_audio data < start)%Q /\ (end_ < end_audio data)%Q) \/
  ((start < end_audio data)%Q /\ (end_audio data < end_)%Q) \/
  ((start < start_audio data)%Q /\ (start_audio data < end_)%Q).
Proof.
  unfold is_in. rewrite <- !Qlt_bool_iff.
  destruct (Qlt_bool (start_audio data) start), (Qlt_bool end_ (end_audio data)),
    (Qlt_bool start (end_audio data)), (Qlt_bool (end_audio data) end_),
    (Qlt_bool start (start_audio data)), (Qlt_bool (start_audio data) end_);
    simpl; intuition congruence.
Qed.

(** An event that starts with a frame, or ends with it, and covers it is
    not found in that frame. *)
Lemma is_in_boundary (data : data5) (start end_ : Q) :
  (start < end_)%Q ->
  ((start_audio data == start)%Q /\ (end_ <= end_audio data)%Q) \/
  ((start_audio data <= start)%Q /\ (end_audio data == end_)%Q) ->
  is_in data start end_ = false.
Proof.
  intros Hframe Hcover. destruct (is_in data start end_) eqn:E; [|done].
  exfalso. apply is_in_iff in E.
  destruct Hcover as [[Hs He]|[Hs He]],
    E as [[H1 H2]|[[H1 H2]|[H1 H2]]];
    rewrite ?Hs, ?He in *;
    try (by apply Qlt_irrefl in H1); try (by apply Qlt_irrefl in H2).
  - eapply Qlt_irrefl, Qlt_le_trans; [exact H2|exact He].
  - eapply Qlt_irrefl, Qlt_le_trans; [exact H1|exact Hs].
Qed.

(** For the first class, the test of line 220 reads the y coordinate of
    location slot 0: once that slot is filled, every further event goes to
    location slot 2 and location slot 1 is never written. *)
Lemma write_loc_slot_first_class (lr : list (option Q)) (n : nat) (d : data5)
  (x0 y0 : Q) :
  length lr = n * 9 -> 0 < n ->
  lr !! 0 = Some (Some x0) -> lr !! 1 = Some (Some y0) ->
  exists lr',
    write_loc_slot lr (0 * 3) d = Ok lr' /\
    loc_at lr' 0 2 d /\
    forall k, k < 6 -> lr' !! k = lr !! k.
Proof.
  intros Hlen Hn H0 H1. unfold write_loc_slot.
  change (0 * 3 * 3) with 0. change (0 * 3 + 1) with 1.
  rewrite (getitem_Ok _ _ _ H0). cbn [mbind result_bind is_None].
  rewrite (getitem_Ok _ _ _ H1). cbn [mbind result_bind is_None].
  destruct (write_xyz_spec lr 0 n 2 d Hlen Hn) as (lr' & Hw & _ & Hat & Hout);
    [lia|].
  exists lr'. split; [exact Hw|]. split; [done|].
  intros k Hk. apply Hout. lia.
Qed.

(** ** The overlap test *)

(** X1.  For a frame with [start < end_] and an event that does not end
    before it starts, the three tests of lines 202-207 find the event in
    the frame exactly when the two open intervals intersect, except when
    the event covers the whole frame and shares an end point with it. *)
Theorem is_in_overlap (data : data5) (start end_ : Q) :
  (start < end_)%Q -> (start_audio data <= end_audio data)%Q ->
  is_in data start end_ = true <->
    ((start_audio data < end_)%Q /\ (start < end_audio data)%Q) /\
    ~ ((start_audio data <= start)%Q /\ (end_ <= end_audio data)%Q /\
       ((start_audio data == start)%Q \/ (end_audio data == end_)%Q)).
Proof.
  intros Hframe Hev. rewrite is_in_iff. split.
  - intros [[H1 H2]|[[H1 H2]|[H1 H2]]].
    + split; [split|].
      * by eapply Qlt_trans.
      * by eapply Qlt_trans.
      * intros (_ & _ & [He|He]); rewrite He in *.
        -- by apply Qlt_irrefl in H1.
        -- by apply Qlt_irrefl in H2.
    + split; [split|].
      * by eapply Qle_lt_trans.
      * done.
      * intros (_ & Hc & _). eapply Qlt_irrefl, Qlt_le_trans; [exact H2|exact Hc].
    + split; [split|].
      * done.
      * by eapply Qlt_le_trans.
      * intros (Hc & _ & _). eapply Qlt_irrefl, Qlt_le_trans; [exact H1|exact Hc].
  - intros [[H1 H2] Hnb].
    destruct (Qlt_le_dec start (start_audio data)) as [Hs|Hs]; [by right; right|].
    destruct (Qlt_le_dec (end_audio data) end_) as [He|He]; [by right; left|].
    left. split.
    + apply Qle_lt_or_eq in Hs as [Hs|Hs]; [done|]. exfalso. apply Hnb.
      split_and!; [rewrite Hs; apply Qle_refl|done|by left].
    + apply Qle_lt_or_eq in He as [He|He]; [done|]. exfalso. apply Hnb.
      split_and!; [done|rewrite He; apply Qle_refl|right; by symmetry].
Qed.

Lemma is_in_overlap_witness :
  is_in (data_of (dog 0 (1 # 2) 1 0 0)) (1 # 10) (2 # 10) = true <->
    ((0 < 2 # 10)%Q /\ (1 # 10 < 1 # 2)%Q) /\
    ~ ((0 <= 1 # 10)%Q /\ (2 # 10 <= 1 # 2)%Q /\
       ((0 == 1 # 10)%Q \/ (1 # 2 == 2 # 10)%Q)).
Proof.
  apply (is_in_overlap (data_of (dog 0 (1 # 2) 1 0 0)) (1 # 10) (2 # 10)).
  - reflexivity.
  - discriminate.
Defined.

(** ** Rows of an unknown class *)

Lemma events_of_known (classes_ : list string) (df : list sound) (c : string) :
  c ∈ classes_ ->
  events_of (filter (fun s => Class s ∈ classes_) df) c = events_of df c.
Proof.
  intros Hc. unfold events_of. f_equal.
  induction df as [|s df IH]; [done|].
  rewrite !filter_cons. destruct (decide (Class s = c)) as [Heq|Hne].
  - rewrite decide_True by (by rewrite Heq). rewrite filter_cons.
    rewrite decide_True by done. by f_equal.
  - case_decide; [|done]. rewrite filter_cons. by rewrite decide_False.
Qed.

(** X2.  With distinct class names, the rows of the csv whose class is not
    in [classes_] have no effect: the result is the same as without them. *)
Theorem get_label_task2_unknown_class (df : list sound) (frame_len file_size : Q)
  (classes_ : list string) (num_frames : nat) (max_label_distance : Q) :
  NoDup classes_ ->
  get_label_task2 (filter (fun s => Class s ∈ classes_) df) frame_len file_size
    classes_ num_frames max_label_distance
  = get_label_task2 df frame_len file_size classes_ num_frames max_label_distance.
Proof.
  intros Hnd. unfold get_label_task2. rewrite !build_class_dict_NoDup by done.
  replace (map (fun c => (c, events_of (filter (fun s => Class s ∈ classes_) df) c))
             classes_)
    with (map (fun c => (c, events_of df c)) classes_); [done|].
  apply map_ext_in. intros c Hc%list_elem_of_In. by rewrite events_of_known.
Qed.

Lemma get_label_task2_unknown_class_witness :
  get_label_task2
    (filter (fun s => Class s ∈ ["dog"])
       [dog 0 (1 # 2) 1 0 0;
        {| File := "fold0_room1_mix001.wav"; Start := 0; End_ := 1;
           Class := "cat"; X := 1; Y := 1; Z_ := 1 |}])
    (1 # 10) 1 ["dog"] 10 2
  = get_label_task2
      [dog 0 (1 # 2) 1 0 0;
       {| File := "fold0_room1_mix001.wav"; Start := 0; End_ := 1;
          Class := "cat"; X := 1; Y := 1; Z_ := 1 |}]
      (1 # 10) 1 ["dog"] 10 2.
Proof.
  apply (get_label_task2_unknown_class
           [dog 0 (1 # 2) 1 0 0;
            {| File := "fold0_room1_mix001.wav"; Start := 0; End_ := 1;
               Class := "cat"; X := 1; Y := 1; Z_ := 1 |}]
           (1 # 10) 1 ["dog"] 10 2).
  apply NoDup_singleton.
Defined.

(** ** The number of frames *)

Lemma foldM_app {S X : Type} (body : S -> X -> result S) (xs ys : list X) (st : S) :
  foldM body (xs ++ ys) st = (st' ← foldM body xs st; foldM body ys st').
Proof.
  revert st. induction xs as [|x xs IH]; intros st; simpl; [done|].
  destruct (body st x); simpl; [apply IH|done].
Qed.

(** A loop whose every step leaves the state as it is or raises [e]. *)
Lemma foldM_skip_or_raise {S X : Type} (body : S -> X -> result S) (e : exn)
  (xs : list X) (st : S) :
  (forall x, body st x = Ok st \/ body st x = Raise e) ->
  foldM body xs st = Ok st \/ foldM body xs st = Raise e.
Proof.
  intros Hbody. induction xs as [|x xs IH]; simpl; [by left|].
  destruct (Hbody x) as [-> | ->]; simpl; [exact IH|by right].
Qed.

Lemma on_frame_out_of_range (j : nat) (f : rowpair -> result rowpair)
  (cv : list (list (option Z))) (lv : list (list (option Q))) :
  length cv <= j -> on_frame j f (cv, lv) = Raise IndexError.
Proof.
  intros Hj. unfold on_frame, getitem.
  by rewrite (lookup_ge_None_2 cv j Hj).
Qed.

Lemma frame_step_out_of_range (names : list string)
  (class_dict : list (string * list data5)) (frame_len : Q)
  (cv : list (list (option Z))) (lv : list (list (option Q))) (j : nat) (i : Q) :
  length cv <= j ->
  frame_step names class_dict frame_len (cv, lv) (j, i) = Raise IndexError.
Proof.
  intros Hj. unfold frame_step.
  destruct (foldM_skip_or_raise
              (fun v '(clas, data_list) =>
                 foldM (fun v data =>
                          if is_in data (i - frame_len) i
                          then on_frame j (write_event names clas data) v
                          else Ok v)
                   data_list v)
              IndexError class_dict (cv, lv)) as [H|H].
  - intros [clas data_list]. apply foldM_skip_or_raise. intros data.
    destruct (is_in data (i - frame_len) i); [right|by left].
    by apply on_frame_out_of_range.
  - rewrite H. cbn [mbind result_bind]. by apply on_frame_out_of_range.
  - by rewrite H.
Qed.

(** The loop over the frames when there are more rows than frames: the
    rows past the last frame stay as they are. *)
Lemma frames_loop_rest (names : list string) (class_dict : list (string * list data5))
  (frame_len : Q) (n : nat) (frames : list Q) (rs : list rowpair) :
  Forall2 (fun i r =>
             frame_rows names class_dict (i - frame_len) i (blank_rows n) = Ok r)
    frames rs ->
  forall (m : nat) pre_c pre_l rest_c rest_l,
    length pre_c = m -> length pre_l = m ->
    foldM (frame_step names class_dict frame_len)
      (zip (seq m (length frames)) frames)
      (pre_c ++ replicate (length frames) (replicate (n * 3) None) ++ rest_c,
       pre_l ++ replicate (length frames) (replicate (n * 9) None) ++ rest_l)
    = Ok (pre_c ++ map (fun r => fill_None 0%Z r.1) rs ++ rest_c,
          pre_l ++ map (fun r => fill_None 0%Q r.2) rs ++ rest_l).
Proof.
  induction 1 as [|i r frames rs Hir _ IH];
    intros m pre_c pre_l rest_c rest_l Hpc Hpl.
  - done.
  - cbn [length seq zip_with replicate foldM app].
    rewrite (frame_step_rows _ _ _ _ _ _ _
               (replicate (n * 3) None) (replicate (n * 9) None)).
    2:{ subst m. apply list_lookup_middle. done. }
    2:{ rewrite <- Hpl. apply list_lookup_middle. done. }
    unfold blank_rows in Hir. rewrite Hir. simpl.
    rewrite !insert_app_r_alt by lia. rewrite Hpc, Hpl, Nat.sub_diag.
    cbn [insert list_insert].
    rewrite (cons_middle _ pre_c), (cons_middle _ pre_l), !app_assoc.
    rewrite <- !(app_assoc (pre_c ++ _)), <- !(app_assoc (pre_l ++ _)).
    rewrite (IH (S m)) by (rewrite length_app; simpl; lia).
    by rewrite <- !app_assoc.
Qed.

Lemma np_array_blank {A : Type} (zero : A) (rows rest : list (list (option A)))
  (cells : list (option A)) :
  np_array (map (fill_None zero) rows ++ (None :: cells) :: rest) = Raise TypeError.
Proof.
  pose proof (np_array_filled zero rows) as Hrows. unfold np_array in *.
  rewrite foldM_app, Hrows. reflexivity.
Qed.

Lemma enumerate_app {X : Type} (xs ys : list X) :
  enumerate (xs ++ ys) = enumerate xs ++ zip (seq (length xs) (length ys)) ys.
Proof.
  unfold enumerate. rewrite length_app, seq_app.
  rewrite zip_with_app by (by rewrite length_seq). done.
Qed.

Lemma frame_rows_total (classes_ : list string) (df : list sound) (frame_len : Q)
  (frames : list Q) :
  NoDup classes_ ->
  exists rs,
    Forall2 (fun i r =>
               frame_rows classes_ (map (fun c => (c, events_of df c)) classes_)
                 (i - frame_len) i (blank_rows (length classes_)) = Ok r)
      frames rs.
Proof.
  intros Hnd. apply Forall2_exists. intros i.
  destruct (frame_rows_spec classes_ df (i - frame_len) i Hnd) as (r & Hr & _).
  by exists r.
Qed.

(** X3.  [num_frames] has to be the number of frames that
    [np.arange(frame_len, file_size + frame_len, frame_len)] generates: with
    fewer rows than frames the write into row [num_frames] is an
    [IndexError]; with more rows than frames, and at least one class, the
    rows past the last frame keep their [None] and the arithmetic on them is
    a [TypeError]. *)
Theorem get_label_task2_num_frames (df : list sound) (frame_len file_size : Q)
  (classes_ : list string) (num_frames : nat) (max_label_distance : Q)
  (frames : list Q) :
  NoDup classes_ ->
  np_arange_Q frame_len (file_size + frame_len) frame_len = Ok frames ->
  (num_frames < length frames ->
   get_label_task2 df frame_len file_size classes_ num_frames max_label_distance
   = Raise IndexError) /\
  (length frames < num_frames -> classes_ <> [] ->
   get_label_task2 df frame_len file_size classes_ num_frames max_label_distance
   = Raise TypeError).
Proof.
  intros Hnd Hfr. set (n := length classes_).
  set (dict := map (fun c => (c, events_of df c)) classes_).
  split.
  - intros Hlt.
    destruct (drop num_frames frames) as [|i rest] eqn:Hdrop.
    { apply (f_equal length) in Hdrop. rewrite length_drop in Hdrop.
      simpl in Hdrop. lia. }
    assert (length (take num_frames frames) = num_frames) as Hlen
      by (rewrite length_take; lia).
    destruct (frame_rows_total classes_ df frame_len (take num_frames frames) Hnd)
      as [rs Hrs].
    pose proof (Forall2_length _ _ _ Hrs) as Hrlen.
    pose proof (frames_loop classes_ dict frame_len n _ rs Hrs 0 [] []
                  eq_refl eq_refl) as Hfold.
    cbn [app] in Hfold. rewrite Hlen in Hfold.
    unfold get_label_task2. rewrite build_class_dict_NoDup by done.
    cbn [mbind result_bind]. rewrite Hfr. cbn [mbind result_bind].
    rewrite <- (take_drop num_frames frames), Hdrop, enumerate_app.
    rewrite foldM_app. unfold enumerate. rewrite Hlen. fold n. fold dict.
    rewrite Hfold. cbn [mbind result_bind length seq zip_with foldM].
    rewrite frame_step_out_of_range; [done|].
    apply Nat.eq_le_incl. rewrite length_map.
    etrans; [symmetry; exact Hrlen|exact Hlen].
  - intros Hlt Hne.
    destruct (frame_rows_total classes_ df frame_len frames Hnd) as [rs Hrs].
    pose proof (frames_loop_rest classes_ dict frame_len n _ rs Hrs 0 [] []
                  (replicate (num_frames - length frames) (replicate (n * 3) None))
                  (replicate (num_frames - length frames) (replicate (n * 9) None))
                  eq_refl eq_refl) as Hfold.
    cbn [app] in Hfold. rewrite <- !replicate_add in Hfold.
    replace (length frames + (num_frames - length frames)) with num_frames
      in Hfold by lia.
    unfold get_label_task2. rewrite build_class_dict_NoDup by done.
    cbn [mbind result_bind]. rewrite Hfr. cbn [mbind result_bind].
    unfold enumerate. fold n. fold dict. rewrite Hfold.
    cbn [mbind result_bind].
    destruct (num_frames - length frames) as [|k] eqn:Hk; [lia|].
    assert (n * 3 = S (n * 3 - 1)) as Hn3.
    { destruct classes_; [done|]. unfold n. simpl. lia. }
    rewrite Hn3. cbn [replicate].
    rewrite <- (map_map fst (fill_None 0%Z)).
    rewrite np_array_blank. done.
Qed.

Lemma get_label_task2_num_frames_witness :
  get_label_task2 scenario (1 # 10) 1 ["dog"] 5 2 = Raise IndexError /\
  get_label_task2 scenario (1 # 10) 1 ["dog"] 12 2 = Raise TypeError.
Proof.
  split.
  - eapply (proj1 (get_label_task2_num_frames scenario (1 # 10) 1 ["dog"] 5 2 _
                     (NoDup_singleton _) eq_refl)).
    vm_compute. lia.
  - eapply (proj2 (get_label_task2_num_frames scenario (1 # 10) 1 ["dog"] 12 2 _
                     (NoDup_singleton _) eq_refl)).
    + vm_compute. lia.
    + discriminate.
Defined.

(** ** Time stamps and frames *)

Lemma int_of_Q_floor (q : Q) : (0 <= q)%Q -> int_of_Q q = Qfloor q.
Proof.
  destruct q as [n d]. unfold Qle, int_of_Q, Qfloor. simpl. intros H.
  apply Z.quot_div_nonneg; lia.
Qed.

Lemma int_of_Q_inject_Z (z : Z) : int_of_Q (inject_Z z) = z.
Proof. unfold int_of_Q, inject_Z. simpl. apply Z.quot_1_r. Qed.

Lemma Qfloor_between (q : Q) (z : Z) :
  (inject_Z z <= q)%Q -> (q < inject_Z (z + 1))%Q -> Qfloor q = z.
Proof.
  intros Hlo Hhi.
  pose proof (Qfloor_le q) as H1. pose proof (Qlt_floor q) as H2.
  assert (inject_Z z < inject_Z (Qfloor q + 1))%Q as Ha
    by (eapply Qle_lt_trans; [exact Hlo|exact H2]).
  assert (inject_Z (Qfloor q) < inject_Z (z + 1))%Q as Hb
    by (eapply Qle_lt_trans; [exact H1|exact Hhi]).
  rewrite <- Zlt_Qlt in Ha. rewrite <- Zlt_Qlt in Hb. lia.
Qed.

Lemma round_half_even_near (q : Q) :
  (q - (1 # 2) <= inject_Z (round_half_even q))%Q /\
  (inject_Z (round_half_even q) <= q + (1 # 2))%Q.
Proof.
  unfold round_half_even.
  pose proof (Qfloor_le q) as H1. pose proof (Qlt_floor q) as H2.
  set (f := Qfloor q) in *.
  assert (inject_Z (f + 1) == inject_Z f + 1)%Q as Hf1
    by (rewrite inject_Z_plus; reflexivity).
  rewrite Hf1 in H2.
  destruct (Qcompare (q - inject_Z f) (1 # 2)) eqn:Hc.
  - apply Qeq_alt in Hc.
    assert (q == inject_Z f + (1 # 2))%Q as Hq by (rewrite <- Hc; ring).
    destruct (Z.even f); rewrite ?Hf1, Hq; split.
    + apply Qle_minus_iff. ring_simplify. discriminate.
    + apply Qle_minus_iff. ring_simplify. discriminate.
    + apply Qle_minus_iff. ring_simplify. discriminate.
    + apply Qle_minus_iff. ring_simplify. discriminate.
  - apply Qlt_alt in Hc. split.
    + apply Qle_minus_iff. apply Qlt_le_weak in Hc. apply Qle_minus_iff in Hc.
      eapply Qle_trans; [exact Hc|]. apply Qle_lteq. right. ring.
    + eapply Qle_trans; [exact H1|]. apply Qle_minus_iff. ring_simplify. discriminate.
  - apply Qgt_alt in Hc. rewrite Hf1. split.
    + apply Qlt_le_weak in H2. eapply Qle_trans; [|exact H2].
      apply Qle_minus_iff. ring_simplify. discriminate.
    + apply Qlt_le_weak in Hc. apply Qle_minus_iff in Hc. apply Qle_minus_iff.
      eapply Qle_trans; [exact Hc|]. apply Qle_lteq. right. ring.
Qed.

Lemma np_interp_range (x dur hi : Q) :
  (0 < dur)%Q -> (0 <= hi)%Q ->
  (0 <= np_interp x dur hi)%Q /\ (np_interp x dur hi <= hi)%Q.
Proof.
  intros Hdur Hhi. unfold np_interp.
  destruct (Qle_bool x 0) eqn:E0; [lra|].
  destruct (Qle_bool dur x) eqn:E1; [lra|].
  assert (0 < x)%Q as Hx.
  { apply Qnot_le_lt. intros H. apply Qle_bool_iff in H. congruence. }
  assert (x < dur)%Q as Hx'.
  { apply Qnot_le_lt. intros H. apply Qle_bool_iff in H. congruence. }
  assert (x * (hi / dur) == hi * (x / dur))%Q as -> by (field; lra).
  assert (0 <= x / dur)%Q as Ha by (apply Qle_shift_div_l; lra).
  assert (x / dur <= 1)%Q as Hb by (apply Qle_shift_div_r; lra).
  set (r := (x / dur)%Q) in *. split; nra.
Qed.

Lemma np_interp_mono (x y dur hi : Q) :
  (0 < dur)%Q -> (0 <= hi)%Q -> (x <= y)%Q ->
  (np_interp x dur hi <= np_interp y dur hi)%Q.
Proof.
  intros Hdur Hhi Hxy.
  pose proof (np_interp_range x dur hi Hdur Hhi) as [Hx0 Hx1].
  pose proof (np_interp_range y dur hi Hdur Hhi) as [Hy0 Hy1].
  unfold np_interp in *.
  destruct (Qle_bool x 0) eqn:Ex0; [done|].
  destruct (Qle_bool y 0) eqn:Ey0.
  { apply Qle_bool_iff in Ey0. assert (x <= 0)%Q as H by lra.
    apply Qle_bool_iff in H. congruence. }
  destruct (Qle_bool dur y) eqn:Ey1; [by destruct (Qle_bool dur x)|].
  destruct (Qle_bool dur x) eqn:Ex1.
  { apply Qle_bool_iff in Ex1. assert (dur <= y)%Q as H by lra.
    apply Qle_bool_iff in H. congruence. }
  assert (0 <= hi / dur)%Q as Hr by (apply Qle_shift_div_l; lra).
  set (r := (hi / dur)%Q) in *. nra.
Qed.

Lemma get_frame_range (dur : Q) (num_frames : Z) (x : Q) :
  (0 < dur)%Q -> (1 <= num_frames)%Z ->
  (0 <= get_frame dur num_frames x <= num_frames - 1)%Z.
Proof.
  intros Hdur HN. unfold get_frame.
  assert (0 <= inject_Z (num_frames - 1))%Q as Hhi
    by (rewrite <- (Zle_Qle 0); lia).
  destruct (np_interp_range x dur _ Hdur Hhi) as [H0 H1].
  rewrite int_of_Q_floor by done. split.
  - replace 0%Z with (Qfloor 0) by done. by apply Qfloor_resp_le.
  - etrans; [apply Qfloor_resp_le, H1|]. by rewrite Qfloor_Z.
Qed.

Lemma get_frame_mono (dur : Q) (num_frames : Z) (x y : Q) :
  (0 < dur)%Q -> (1 <= num_frames)%Z -> (x <= y)%Q ->
  (get_frame dur num_frames x <= get_frame dur num_frames y)%Z.
Proof.
  intros Hdur HN Hxy. unfold get_frame.
  assert (0 <= inject_Z (num_frames - 1))%Q as Hhi
    by (rewrite <- (Zle_Qle 0); lia).
  destruct (np_interp_range x dur _ Hdur Hhi) as [Hx0 _].
  destruct (np_interp_range y dur _ Hdur Hhi) as [Hy0 _].
  rewrite !int_of_Q_floor by done.
  apply Qfloor_resp_le. by apply np_interp_mono.
Qed.

(** On the grid of the frames: the time stamp [k * step] is in frame
    [k - 1], clamped to the frames there are. *)
Lemma get_frame_grid (dur step : Q) (num_frames k : Z) :
  (0 < step)%Q -> (1 <= num_frames)%Z -> (dur == inject_Z num_frames * step)%Q ->
  get_frame dur num_frames (inject_Z k * step)
  = Z.max 0 (Z.min k num_frames - 1).
Proof.
  intros Hstep HN Hdur. unfold get_frame.
  assert (0 < dur)%Q as Hpos.
  { rewrite Hdur. apply Qmult_lt_0_compat; [|done].
    rewrite <- (Zlt_Qlt 0). lia. }
  assert (0 <= inject_Z (num_frames - 1))%Q as Hhi
    by (rewrite <- (Zle_Qle 0); lia).
  destruct (np_interp_range (inject_Z k * step) dur _ Hpos Hhi) as [H0 _].
  rewrite int_of_Q_floor by done. clear H0.
  unfold np_interp.
  destruct (Qle_bool (inject_Z k * step) 0) eqn:E0.
  { apply Qle_bool_iff in E0.
    assert (k <= 0)%Z.
    { apply Z.le_ngt. intros Hk. rewrite (Zlt_Qlt 0) in Hk.
      pose proof (Qmult_lt_0_compat _ _ Hk Hstep). lra. }
    change (Qfloor 0) with 0%Z. lia. }
  assert (0 < k)%Z as Hk.
  { apply Z.lt_nge. intros Hk. rewrite (Zle_Qle k 0) in Hk.
    change (inject_Z 0) with 0%Q in Hk.
    assert (inject_Z k * step <= 0)%Q as H by nra.
    apply Qle_bool_iff in H. congruence. }
  destruct (Qle_bool dur (inject_Z k * step)) eqn:E1.
  { apply Qle_bool_iff in E1. rewrite Hdur in E1.
    assert (num_frames <= k)%Z.
    { apply Z.le_ngt. intros Hlt. rewrite Zlt_Qlt in Hlt. nra. }
    rewrite Qfloor_Z. lia. }
  assert (k < num_frames)%Z as HkN.
  { apply Z.lt_nge. intros Hle. rewrite Zle_Qle in Hle.
    assert (dur <= inject_Z k * step)%Q as H by (rewrite Hdur; nra).
    apply Qle_bool_iff in H. congruence. }
  assert (inject_Z (k - 1) == inject_Z k - 1)%Q as Hk1
    by (unfold Zminus; rewrite inject_Z_plus; reflexivity).
  assert (inject_Z (num_frames - 1) == inject_Z num_frames - 1)%Q as HN1
    by (unfold Zminus; rewrite inject_Z_plus; reflexivity).
  pose proof Hk as HkZ. pose proof HkN as HkNZ.
  rewrite Zlt_Qlt in Hk. rewrite Zlt_Qlt in HkN.
  change (inject_Z 0) with 0%Q in Hk.
  set (K := inject_Z k) in *. set (M := inject_Z num_frames) in *.
  assert (K * step * (inject_Z (num_frames - 1) / dur) == K * (M - 1) / M)%Q
    as Hv by (rewrite Hdur, HN1; field; split; lra).
  rewrite (Qfloor_between _ (k - 1)); [lia|..].
  - rewrite Hv, Hk1. apply Qle_shift_div_l; [lra|]. nra.
  - replace (k - 1 + 1)%Z with k by lia. fold K.
    rewrite Hv. apply Qlt_shift_div_r; [lra|]. nra.
Qed.

(** X4.  When the duration is a whole number of steps, the two lambdas of
    lines 121 and 123 put the time stamp [x] on the grid point
    [round(x / step) * step], at most half a step away, and then in frame
    [round(x / step) - 1], clamped to the frames there are: a time stamp on
    the boundary between two frames is in the earlier one. *)
Theorem get_frame_quantized (dur step : Q) (num_frames : Z) (x : Q) :
  (0 < step)%Q -> (1 <= num_frames)%Z -> (dur == inject_Z num_frames * step)%Q ->
  exists q,
    quantize step x = Ok q /\
    (q == inject_Z (round_half_even (x / step)) * step)%Q /\
    (x - step * (1 # 2) <= q)%Q /\ (q <= x + step * (1 # 2))%Q /\
    get_frame dur num_frames q
    = Z.max 0 (Z.min (round_half_even (x / step)) num_frames - 1).
Proof.
  intros Hstep HN Hdur. unfold quantize.
  destruct (Qeq_bool step 0) eqn:E.
  { apply Qeq_bool_iff in E. lra. }
  eexists. split; [reflexivity|]. split; [reflexivity|].
  destruct (round_half_even_near (x / step)) as [Hlo Hhi].
  assert (x == x / step * step)%Q as Hx by (field; lra).
  set (r := inject_Z (round_half_even (x / step))) in *.
  set (y := (x / step)%Q) in *.
  split_and!.
  - nra.
  - nra.
  - by apply get_frame_grid.
Qed.

Lemma get_frame_quantized_witness :
  exists q,
    quantize (1 # 10) (1 # 2) = Ok q /\
    (q == inject_Z (round_half_even ((1 # 2) / (1 # 10))) * (1 # 10))%Q /\
    ((1 # 2) - (1 # 10) * (1 # 2) <= q)%Q /\ (q <= (1 # 2) + (1 # 10) * (1 # 2))%Q /\
    get_frame 1 10 q
    = Z.max 0 (Z.min (round_half_even ((1 # 2) / (1 # 10))) 10 - 1).
Proof.
  apply (get_frame_quantized 1 (1 # 10) 10 (1 # 2)); [reflexivity|lia|reflexivity].
Defined.

(** X5.  Whatever the time stamp, its frame is one of the frames of the
    matrix; a time stamp before the start is in frame 0, one past the end in
    the last frame, and a later time stamp is never in an earlier frame. *)
Theorem get_frame_clamped (dur : Q) (num_frames : Z) (x y : Q) :
  (0 < dur)%Q -> (1 <= num_frames)%Z ->
  (0 <= get_frame dur num_frames x <= num_frames - 1)%Z /\
  ((x <= 0)%Q -> get_frame dur num_frames x = 0%Z) /\
  ((dur <= x)%Q -> get_frame dur num_frames x = (num_frames - 1)%Z) /\
  ((x <= y)%Q -> (get_frame dur num_frames x <= get_frame dur num_frames y)%Z).
Proof.
  intros Hdur HN. split; [|split; [|split]].
  - by apply get_frame_range.
  - intros Hx. unfold get_frame, np_interp.
    apply Qle_bool_iff in Hx. by rewrite Hx.
  - intros Hx. unfold get_frame, np_interp.
    destruct (Qle_bool x 0) eqn:E0.
    { apply Qle_bool_iff in E0. lra. }
    apply Qle_bool_iff in Hx. rewrite Hx. apply int_of_Q_inject_Z.
  - by apply get_frame_mono.
Qed.

Lemma get_frame_clamped_witness :
  (0 <= get_frame 60 600 (-1) <= 600 - 1)%Z /\
  ((-1 <= 0)%Q -> get_frame 60 600 (-1) = 0%Z) /\
  ((60 <= -1)%Q -> get_frame 60 600 (-1) = (600 - 1)%Z) /\
  ((-1 <= 61)%Q -> (get_frame 60 600 (-1) <= get_frame 60 600 61)%Z).
Proof.
  apply (get_frame_clamped 60 600 (-1) 61); [reflexivity|lia].
Defined.

Lemma concat_mjoin {A} (ls : list (list A)) : concat ls = mjoin ls.
Proof. induction ls as [|l ls IH]; [done|]. simpl. by rewrite IH. Qed.

Lemma insert_tabulate {A} (g : nat -> A) (n i : nat) (a : A) :
  <[i := a]> (map g (seq 0 n))
  = map (fun j => if decide (j = i) then a else g j) (seq 0 n).
Proof.
  apply list_eq. intros j.
  destruct (decide (j < n)) as [Hj|Hj].
  - rewrite list_lookup_fmap, lookup_seq_lt by done. simpl.
    destruct (decide (j = i)) as [->|Hne].
    + rewrite list_lookup_insert_eq by (by rewrite length_map, length_seq). done.
    + rewrite list_lookup_insert_ne by done.
      rewrite list_lookup_fmap, lookup_seq_lt by done. done.
  - rewrite (lookup_ge_None_2 (map _ _)) by (rewrite length_map, length_seq; lia).
    apply lookup_ge_None_2. rewrite length_insert, length_map, length_seq. lia.
Qed.

Lemma lookup_tabulate {A} (g : nat -> A) (n i : nat) :
  i < n -> map g (seq 0 n) !! i = Some (g i).
Proof. intros Hi. by rewrite list_lookup_fmap, lookup_seq_lt. Qed.

Lemma Qsum_cl_slots (max_overlap : nat) (evs : list sound) :
  (Qsum (cl_slots max_overlap evs) == inject_Z (Z.of_nat (length evs)))%Q.
Proof.
  unfold cl_slots, Qsum. rewrite foldr_app.
  assert (forall m, foldr Qplus 0 (replicate m 0) == 0)%Q as H0.
  { induction m as [|m IH]; simpl; [reflexivity|]. rewrite IH. reflexivity. }
  assert (forall k a, foldr Qplus a (replicate k 1) == a + inject_Z (Z.of_nat k))%Q
    as H1.
  { induction k as [|k IH]; intros a.
    - simpl. unfold inject_Z. ring.
    - cbn [replicate foldr]. rewrite IH, Nat2Z.inj_succ. unfold Z.succ.
      rewrite inject_Z_plus. ring. }
  rewrite H1, H0. ring.
Qed.

Lemma pos_cl_slots (max_overlap : nat) (evs : list sound) :
  Z.to_nat (int_of_Q (Qsum (cl_slots max_overlap evs))) = length evs.
Proof.
  rewrite int_of_Q_floor.
  - rewrite Qsum_cl_slots, Qfloor_Z. lia.
  - rewrite Qsum_cl_slots. rewrite <- (Zle_Qle 0). lia.
Qed.

Lemma cl_slots_add (max_overlap : nat) (evs : list sound) (s : sound) :
  length evs < max_overlap ->
  <[length evs := 1%Q]> (cl_slots max_overlap evs)
  = cl_slots max_overlap (evs ++ [s]).
Proof.
  intros Hlt. unfold cl_slots. rewrite length_app. simpl.
  rewrite insert_app_r_alt by (rewrite length_replicate; lia).
  rewrite length_replicate, Nat.sub_diag.
  destruct (max_overlap - length evs) as [|m] eqn:E; [lia|].
  replace (max_overlap - (length evs + 1)) with m by lia.
  simpl. rewrite replicate_add, <- app_assoc. done.
Qed.

Lemma loc_slots_add (max_overlap : nat) (evs : list sound) (s : sound) :
  length evs < max_overlap ->
  <[length evs := [X s; Y s; Z_ s]]> (loc_slots max_overlap evs)
  = loc_slots max_overlap (evs ++ [s]).
Proof.
  intros Hlt. unfold loc_slots. rewrite length_app. simpl.
  rewrite insert_app_r_alt by (rewrite length_map; lia).
  rewrite length_map, Nat.sub_diag.
  destruct (max_overlap - length evs) as [|m] eqn:E; [lia|].
  replace (max_overlap - (length evs + 1)) with m by lia.
  simpl. rewrite map_app, <- app_assoc. done.
Qed.

Lemma length_cl_slots (max_overlap : nat) (evs : list sound) :
  length evs <= max_overlap -> length (cl_slots max_overlap evs) = max_overlap.
Proof. intros H. unfold cl_slots. rewrite length_app, !length_replicate. lia. Qed.

Lemma length_loc_slots (max_overlap : nat) (evs : list sound) :
  length evs <= max_overlap -> length (loc_slots max_overlap evs) = max_overlap.
Proof.
  intros H. unfold loc_slots. rewrite length_app, length_map, length_replicate. lia.
Qed.

Lemma np_index_nat (len i : nat) : i < len -> np_index len (Z.of_nat i) = Ok i.
Proof.
  intros Hi. unfold np_index. rewrite decide_True by lia. by rewrite Nat2Z.id.
Qed.

Lemma setitem_ge {A} (l : list A) (i : nat) (v : A) :
  length l <= i -> setitem l i v = Raise IndexError.
Proof. intros H. unfold setitem. rewrite decide_False by lia. done. Qed.

(** Lines 139-144 on the tensors of [E]: the sound takes the next free slot
    of its class in the frame, and there is an [IndexError] when none is
    left. *)
Lemma mark_frame_render (N nc mo : nat) (E : nat -> nat -> list sound)
  (f c : nat) (s : sound) :
  f < N -> c < nc -> length (E f c) <= mo ->
  mark_frame (Z.of_nat c) s (render N nc mo E) (Z.of_nat f)
  = if decide (length (E f c) < mo)
    then Ok (render N nc mo (add_sound E f c s))
    else Raise IndexError.
Proof.
  intros Hf Hc Hlen. unfold mark_frame, render.
  set (cl_f := fun f0 : nat => map (fun c0 => cl_slots mo (E f0 c0)) (seq 0 nc)).
  set (loc_f := fun f0 : nat => map (fun c0 => loc_slots mo (E f0 c0)) (seq 0 nc)).
  assert (length (cl_f f) = nc) as Hlcl
    by (unfold cl_f; by rewrite length_map, length_seq).
  assert (cl_f f !! c = Some (cl_slots mo (E f c))) as Hcl
    by (unfold cl_f; by rewrite (lookup_tabulate _ nc c Hc)).
  assert (loc_f f !! c = Some (loc_slots mo (E f c))) as Hloc
    by (unfold loc_f; by rewrite (lookup_tabulate _ nc c Hc)).
  rewrite length_map, length_seq, np_index_nat by done.
  cbn [mbind result_bind].
  rewrite (getitem_Ok _ _ _ (lookup_tabulate cl_f N f Hf)). cbn [mbind result_bind].
  rewrite Hlcl, np_index_nat by done. cbn [mbind result_bind].
  rewrite (getitem_Ok _ _ _ Hcl). cbn [mbind result_bind].
  rewrite pos_cl_slots.
  destruct (decide (length (E f c) < mo)) as [Hlt|Hge].
  2:{ rewrite setitem_ge; [done|]. rewrite length_cl_slots by done. lia. }
  rewrite setitem_Ok by (rewrite length_cl_slots by done; lia).
  cbn [mbind result_bind].
  rewrite (getitem_Ok _ _ _ (lookup_tabulate loc_f N f Hf)). cbn [mbind result_bind].
  rewrite (getitem_Ok _ _ _ Hloc). cbn [mbind result_bind].
  rewrite setitem_Ok by (rewrite length_loc_slots by done; lia).
  cbn [mbind result_bind].
  rewrite (cl_slots_add mo _ s), (loc_slots_add mo _ s) by done.
  unfold cl_f, loc_f.
  rewrite !insert_tabulate. unfold add_sound. do 2 f_equal.
  - apply map_ext_in. intros f' _. destruct (decide (f' = f)) as [->|Hne].
    + apply map_ext_in. intros c' _. destruct (decide (c' = c)) as [->|Hne].
      * by rewrite decide_True.
      * rewrite decide_False by tauto. done.
    + apply map_ext_in. intros c' _. rewrite decide_False by tauto. done.
  - apply map_ext_in. intros f' _. destruct (decide (f' = f)) as [->|Hne].
    + apply map_ext_in. intros c' _. destruct (decide (c' = c)) as [->|Hne].
      * by rewrite decide_True.
      * rewrite decide_False by tauto. done.
    + apply map_ext_in. intros c' _. rewrite decide_False by tauto. done.
Qed.

Lemma render_ext (N nc mo : nat) (E E' : nat -> nat -> list sound) :
  (forall f c, f < N -> c < nc -> E f c = E' f c) ->
  render N nc mo E = render N nc mo E'.
Proof.
  intros H. unfold render. f_equal.
  - apply map_ext_in. intros f Hf%list_elem_of_In%elem_of_seq.
    apply map_ext_in. intros c Hc%list_elem_of_In%elem_of_seq.
    rewrite H by lia. done.
  - apply map_ext_in. intros f Hf%list_elem_of_In%elem_of_seq.
    apply map_ext_in. intros c Hc%list_elem_of_In%elem_of_seq.
    rewrite H by lia. done.
Qed.

(** Lines 138-144: the frames of one sound. *)
Lemma mark_frames_Ok (N nc mo : nat) (c : nat) (s : sound) (fs : list nat) :
  c < nc -> NoDup fs -> (forall f, f ∈ fs -> f < N) ->
  forall E,
    (forall f, f ∈ fs -> length (E f c) < mo) ->
    foldM (mark_frame (Z.of_nat c) s) (map Z.of_nat fs) (render N nc mo E)
    = Ok (render N nc mo (add_sounds E fs c s)).
Proof.
  intros Hc. induction fs as [|f fs IH]; intros Hnd HN E Hfree.
  - reflexivity.
  - apply NoDup_cons in Hnd as [Hf Hnd]. cbn [map foldM].
    rewrite mark_frame_render; [|apply HN; by left|done|].
    2:{ apply Nat.lt_le_incl, Hfree. by left. }
    rewrite decide_True by (apply Hfree; by left). cbn [mbind result_bind].
    rewrite IH; [|done|intros f' Hf'; apply HN; by right|].
    + f_equal. apply render_ext. intros f' c' _ _. unfold add_sounds, add_sound.
      destruct (decide (f' = f /\ c' = c)) as [[-> ->]|Hne].
      * rewrite decide_False by tauto. rewrite decide_True; [done|].
        split; [by left|done].
      * destruct (decide (f' ∈ fs /\ c' = c)) as [[Hin ->]|Hnin].
        -- rewrite decide_True; [done|]. split; [by right|done].
        -- rewrite decide_False; [done|].
           intros [[->|Hin]%elem_of_cons ->]; tauto.
    + intros f' Hf'. unfold add_sound. rewrite decide_False.
      * apply Hfree. by right.
      * intros [-> _]. done.
Qed.

Lemma mark_frames_overflow (N nc mo : nat) (c : nat) (s : sound) (fs : list nat) :
  c < nc -> NoDup fs -> (forall f, f ∈ fs -> f < N) ->
  forall E,
    (forall f, length (E f c) <= mo) ->
    (exists f, f ∈ fs /\ mo <= length (E f c)) ->
    foldM (mark_frame (Z.of_nat c) s) (map Z.of_nat fs) (render N nc mo E)
    = Raise IndexError.
Proof.
  intros Hc. induction fs as [|f fs IH]; intros Hnd HN E Hinv (f0 & Hf0 & Hfull).
  - by apply not_elem_of_nil in Hf0.
  - apply NoDup_cons in Hnd as [Hf Hnd]. cbn [map foldM].
    rewrite mark_frame_render; [|apply HN; by left|done|done].
    case_decide as Hlt; [|done]. cbn [mbind result_bind].
    apply IH; [done|intros f' Hf'; apply HN; by right| |].
    + intros f'. unfold add_sound. case_decide as Heq; [|done].
      destruct Heq as [-> _]. rewrite length_app. simpl. lia.
    + exists f0. apply elem_of_cons in Hf0 as [->|Hin]; [lia|].
      split; [done|]. unfold add_sound. rewrite decide_False; [done|].
      intros [-> _]. done.
Qed.

Lemma np_arange_Z_nat (lo hi : Z) :
  (0 <= lo)%Z ->
  np_arange_Z lo hi = map Z.of_nat (seq (Z.to_nat lo) (Z.to_nat (hi - lo))).
Proof.
  intros Hlo. unfold np_arange_Z. apply list_eq. intros i.
  rewrite !list_lookup_fmap.
  destruct (decide (i < Z.to_nat (hi - lo))) as [Hi|Hi].
  - rewrite !lookup_seq_lt by done. simpl. f_equal. lia.
  - rewrite !lookup_seq_ge by lia. done.
Qed.

Lemma dict_get_elem {V} (k : string) (v : V) (d : list (string * V)) :
  dict_get k d = Ok v -> exists k', (k', v) ∈ d.
Proof.
  induction d as [|[k1 v1] d IH]; simpl; [done|].
  destruct (String.eqb k1 k).
  - intros [= ->]. exists k1. by left.
  - intros H. destruct (IH H) as [k' Hk']. exists k'. by right.
Qed.

Section CsvToMatrix.
Variables (class_dict : list (string * Z)) (dur step : Q) (max_overlap : nat).
Hypothesis Hstep : (0 < step)%Q.
Hypothesis Hdur : (0 < dur)%Q.
Hypothesis Hframes : (1 <= int_of_Q (dur / step))%Z.
Hypothesis Hids :
  Forall (fun kv => (0 <= kv.2 < Z.of_nat (length class_dict))%Z) class_dict.


Lemma frame_of_range (x : Q) :
  (0 <= frame_of dur step x <= int_of_Q (dur / step) - 1)%Z.
Proof. unfold frame_of. by apply get_frame_range. Qed.

Lemma elem_of_sound_span (s : sound) (f : nat) :
  f ∈ sound_span dur step s <->
  (frame_of dur step (Start s) <= Z.of_nat f <= frame_of dur step (End_ s))%Z.
Proof.
  unfold sound_span. rewrite elem_of_seq.
  pose proof (frame_of_range (Start s)). pose proof (frame_of_range (End_ s)). lia.
Qed.

Lemma sound_span_lt (s : sound) (f : nat) : f ∈ sound_span dur step s -> f < frame_count dur step.
Proof.
  rewrite elem_of_sound_span. pose proof (frame_of_range (End_ s)).
  unfold frame_count. lia.
Qed.

Lemma marks_iff (s : sound) (c c' f' : nat) :
  dict_get (Class s) class_dict = Ok (Z.of_nat c) ->
  marks class_dict dur step c' f' s = true <->
  f' ∈ sound_span dur step s /\ c' = c.
Proof.
  intros Hget. unfold marks. rewrite Hget, elem_of_sound_span.
  rewrite !andb_true_iff, Z.eqb_eq, !Z.leb_le. lia.
Qed.

Lemma marking_snoc (done : list sound) (s : sound) (c f : nat) :
  marking class_dict dur step (done ++ [s]) f c
  = marking class_dict dur step done f c
    ++ (if marks class_dict dur step c f s then [s] else []).
Proof.
  unfold marking. rewrite filter_app. f_equal.
  rewrite filter_cons, filter_nil.
  destruct (marks class_dict dur step c f s); by case_decide.
Qed.

Lemma length_marking_app (l1 l2 : list sound) (c f : nat) :
  length (marking class_dict dur step (l1 ++ l2) f c)
  = length (marking class_dict dur step l1 f c)
    + length (marking class_dict dur step l2 f c).
Proof. unfold marking. by rewrite filter_app, length_app. Qed.

(** Lines 128-144 on the tensors of the sounds read so far. *)
Lemma mark_sound_render (done : list sound) (s : sound) (c : nat) :
  dict_get (Class s) class_dict = Ok (Z.of_nat c) ->
  (forall f, length (marking class_dict dur step done f c) <= max_overlap) ->
  mark_sound class_dict dur step (render (frame_count dur step) (length class_dict) max_overlap (marking class_dict dur step done)) s
  = if decide (Forall (fun f => length (marking class_dict dur step done f c)
                                < max_overlap)
                 (sound_span dur step s))
    then Ok (render (frame_count dur step) (length class_dict) max_overlap (marking class_dict dur step (done ++ [s])))
    else Raise IndexError.
Proof.
  intros Hget Hinv.
  assert (c < length class_dict) as Hc.
  { destruct (dict_get_elem _ _ _ Hget) as [k' Hk'].
    rewrite Forall_forall in Hids. specialize (Hids _ Hk'). simpl in Hids. lia. }
  unfold mark_sound, quantize.
  destruct (Qeq_bool step 0) eqn:E.
  { apply Qeq_bool_iff in E. rewrite E in Hstep. by apply Qlt_irrefl in Hstep. }
  cbn [mbind result_bind]. rewrite Hget. cbn [mbind result_bind].
  fold (frame_of dur step (Start s)). fold (frame_of dur step (End_ s)).
  rewrite np_arange_Z_nat by apply frame_of_range.
  fold (sound_span dur step s).
  pose proof (NoDup_seq (Z.to_nat (frame_of dur step (Start s)))
                (Z.to_nat (frame_of dur step (End_ s) + 1
                           - frame_of dur step (Start s)))) as Hnd.
  fold (sound_span dur step s) in Hnd.
  case_decide as Hfree.
  - rewrite Forall_forall in Hfree.
    rewrite (mark_frames_Ok (frame_count dur step) (length class_dict) max_overlap c s _ Hc Hnd (sound_span_lt s)
               (marking class_dict dur step done) Hfree).
    f_equal. apply render_ext. intros f' c' _ _. unfold add_sounds.
    rewrite marking_snoc.
    destruct (marks class_dict dur step c' f' s) eqn:Hm.
    + apply (marks_iff s c c' f' Hget) in Hm. by rewrite decide_True.
    + rewrite decide_False; [by rewrite app_nil_r|].
      intros Hin. apply (marks_iff s c c' f' Hget) in Hin. congruence.
  - apply (mark_frames_overflow (frame_count dur step) (length class_dict) max_overlap c s _ Hc Hnd (sound_span_lt s)
             (marking class_dict dur step done) Hinv).
    apply not_Forall_Exists in Hfree; [|apply _].
    apply Exists_exists in Hfree as (f & Hf & Hfull). unfold compose in Hfull.
    exists f. split; [done|lia].
Qed.

Lemma csv_loop (todo : list sound) :
  Forall (fun s => exists class_id, dict_get (Class s) class_dict = Ok class_id)
    todo ->
  forall done,
    (forall c f, length (marking class_dict dur step done f c) <= max_overlap) ->
    ((forall c f, length (marking class_dict dur step (done ++ todo) f c)
                  <= max_overlap) ->
     foldM (mark_sound class_dict dur step) todo
       (render (frame_count dur step) (length class_dict) max_overlap (marking class_dict dur step done))
     = Ok (render (frame_count dur step) (length class_dict) max_overlap (marking class_dict dur step (done ++ todo)))) /\
    ((exists c f, max_overlap
                  < length (marking class_dict dur step (done ++ todo) f c)) ->
     foldM (mark_sound class_dict dur step) todo
       (render (frame_count dur step) (length class_dict) max_overlap (marking class_dict dur step done))
     = Raise IndexError).
Proof.
  induction 1 as [|s todo [class_id Hget] _ IH]; intros done Hinv.
  - rewrite app_nil_r. split; [done|].
    intros (c & f & H). specialize (Hinv c f). lia.
  - assert (exists c, class_id = Z.of_nat c) as [c ->].
    { destruct (dict_get_elem _ _ _ Hget) as [k' Hk'].
      rewrite Forall_forall in Hids. specialize (Hids _ Hk'). simpl in Hids.
      exists (Z.to_nat class_id). lia. }
    cbn [foldM]. rewrite (mark_sound_render done s c Hget (fun f => Hinv c f)).
    replace (done ++ s :: todo) with ((done ++ [s]) ++ todo)
      by (by rewrite <- app_assoc).
    case_decide as Hfree.
    + cbn [mbind result_bind]. apply IH.
      intros c' f'. rewrite marking_snoc, length_app.
      destruct (marks class_dict dur step c' f' s) eqn:Hm; simpl.
      * apply (marks_iff s c c' f' Hget) in Hm as [Hin ->].
        rewrite Forall_forall in Hfree. specialize (Hfree _ Hin). lia.
      * specialize (Hinv c' f'). lia.
    + cbn [mbind result_bind]. split; [|done].
      intros Hall. exfalso. apply Hfree. apply Forall_forall. intros f Hf.
      specialize (Hall c f). rewrite length_marking_app, marking_snoc in Hall.
      rewrite length_app in Hall.
      rewrite (proj2 (marks_iff s c c f Hget)) in Hall by done. simpl in Hall. lia.
Qed.

End CsvToMatrix.

Lemma replicate_tabulate {A} (n : nat) (a : A) :
  replicate n a = map (fun _ => a) (seq 0 n).
Proof.
  apply list_eq. intros i. destruct (decide (i < n)) as [Hi|Hi].
  - rewrite lookup_replicate_2, list_lookup_fmap, lookup_seq_lt by done. done.
  - rewrite !(lookup_ge_None_2 _ i); [done|..].
    + rewrite length_map, length_seq. lia.
    + rewrite length_replicate. lia.
Qed.

Lemma render_empty (class_dict : list (string * Z)) (dur step : Q) (N nc mo : nat) :
  (replicate N (replicate nc (replicate mo 0%Q)),
   replicate N (replicate nc (replicate mo (replicate 3 0%Q))))
  = render N nc mo (marking class_dict dur step []).
Proof.
  unfold render, marking, cl_slots, loc_slots. simpl. rewrite Nat.sub_0_r.
  by rewrite !replicate_tabulate.
Qed.

Lemma csv_to_matrix_task2_stack (df : list sound) (class_dict : list (string * Z))
  (dur step : Q) (max_overlap : nat) (max_loc_value : Q) :
  (0 < step)%Q -> (0 <= int_of_Q (dur / step))%Z ->
  csv_to_matrix_task2 df class_dict dur step max_overlap max_loc_value
  = (t ← foldM (mark_sound class_dict dur step) df
           (render (frame_count dur step) (length class_dict) max_overlap
              (marking class_dict dur step []));
     Ok (stack max_loc_value t)).
Proof.
  intros Hstep HN. unfold csv_to_matrix_task2.
  destruct (Qeq_bool step 0) eqn:E.
  { apply Qeq_bool_iff in E. rewrite E in Hstep. by apply Qlt_irrefl in Hstep. }
  rewrite decide_False by lia. rewrite <- render_empty.
  unfold frame_count.
  match goal with
  | |- (foldM ?body df ?st ≫= _) = _ =>
      change body with (mark_sound class_dict dur step)
  end.
  destruct (foldM _ df _) as [[cl loc]|e]; reflexivity.
Qed.

Lemma concat_lookup_uniform {A} (n : nat) (ls : list (list A)) (j i : nat) :
  Forall (fun l => length l = n) ls -> i < n ->
  concat ls !! (j * n + i) = (ls !! j) ≫= (fun l => l !! i).
Proof.
  intros Hls Hi. rewrite concat_mjoin.
  destruct (ls !! j) as [l|] eqn:Hj; simpl.
  - destruct (l !! i) as [x|] eqn:Hx.
    + apply (join_lookup_Some_same_length' n); eauto.
    + apply lookup_ge_None in Hx. rewrite Forall_forall in Hls.
      rewrite (Hls l) in Hx by (by eapply list_elem_of_lookup_2). lia.
  - apply lookup_ge_None. apply lookup_ge_None in Hj.
    rewrite length_join, (sum_list_fmap_same n) by done. nia.
Qed.

Lemma length_concat_uniform {A} (n : nat) (ls : list (list A)) :
  Forall (fun l => length l = n) ls -> length (concat ls) = length ls * n.
Proof.
  intros H. rewrite concat_mjoin, length_join, (sum_list_fmap_same n) by done. done.
Qed.

Lemma cl_slots_lookup (mo : nat) (evs : list sound) (p : nat) :
  p < mo -> length evs <= mo ->
  cl_slots mo evs !! p = Some (if decide (p < length evs) then 1%Q else 0%Q).
Proof.
  intros Hp Hlen. unfold cl_slots. case_decide.
  - rewrite lookup_app_l by (by rewrite length_replicate).
    by rewrite lookup_replicate_2.
  - rewrite lookup_app_r by (rewrite length_replicate; lia).
    rewrite lookup_replicate_2; [done|]. rewrite length_replicate. lia.
Qed.

Lemma loc_slots_lookup (mo : nat) (evs : list sound) (p : nat) :
  p < mo -> length evs <= mo ->
  loc_slots mo evs !! p
  = Some (match evs !! p with
          | Some s => [X s; Y s; Z_ s]
          | None => replicate 3 0%Q
          end).
Proof.
  intros Hp Hlen. unfold loc_slots. destruct (evs !! p) as [s|] eqn:E.
  - rewrite lookup_app_l by (rewrite length_map; by eapply lookup_lt_Some).
    by rewrite list_lookup_fmap, E.
  - apply lookup_ge_None in E.
    rewrite lookup_app_r by (rewrite length_map; lia).
    rewrite lookup_replicate_2; [done|]. rewrite length_map. lia.
Qed.

(** The row of frame [f] in the stacked matrix of the tensors of [E]. *)
Lemma stack_render_lookup (mlv : Q) (N nc mo : nat) (E : nat -> nat -> list sound)
  (f : nat) (cells : list Q) :
  stack mlv (render N nc mo E) !! f = Some cells ->
  f < N /\
  cells = concat (map (fun c => cl_slots mo (E f c)) (seq 0 nc))
          ++ map (fun x => (x / mlv)%Q)
               (concat (concat (map (fun c => loc_slots mo (E f c)) (seq 0 nc)))).
Proof.
  unfold stack, render. intros H.
  apply lookup_zip_with_Some in H as (a & b & -> & Ha & Hb).
  rewrite !list_lookup_fmap in Ha. rewrite !list_lookup_fmap in Hb.
  destruct (seq 0 N !! f) as [f'|] eqn:Hf; [|done].
  apply lookup_seq in Hf as [-> Hf]. simpl in Ha, Hb.
  injection Ha as <-. injection Hb as <-. done.
Qed.

Section CsvToMatrixSpec.
Variables (class_dict : list (string * Z)) (dur step : Q) (max_overlap : nat).
Hypothesis Hstep : (0 < step)%Q.
Hypothesis Hdur : (0 < dur)%Q.
Hypothesis Hframes : (1 <= int_of_Q (dur / step))%Z.
Hypothesis Hids :
  Forall (fun kv => (0 <= kv.2 < Z.of_nat (length class_dict))%Z) class_dict.

(** X6.  With a positive step and duration, at least one frame, class ids
    below the number of classes, every class of the file in the dictionary
    and no more than [max_overlap] sounds of one class in a frame,
    [csv_to_matrix_task2] returns one row of [4 * max_overlap] entries per
    class for every frame.  In the row of frame [f], the sounds of class
    [c] that mark [f] take the slots of [c] in file order: slot [p] has
    presence 1 and the coordinates of sound [p], divided by
    [max_loc_value], at the same slot of the location part; the slots past
    the last sound hold zeros. *)
Theorem csv_to_matrix_task2_spec (df : list sound) (max_loc_value : Q) :
  Forall (fun s => exists class_id, dict_get (Class s) class_dict = Ok class_id) df ->
  (forall f c, length (marking class_dict dur step df f c) <= max_overlap) ->
  exists stacked,
    csv_to_matrix_task2 df class_dict dur step max_overlap max_loc_value
      = Ok stacked /\
    length stacked = frame_count dur step /\
    Forall (fun cells => length cells = length class_dict * max_overlap * 4)
      stacked /\
    forall f c cells,
      stacked !! f = Some cells -> c < length class_dict ->
      let evs := marking class_dict dur step df f c in
      (forall p, p < max_overlap ->
         cells !! (c * max_overlap + p)
         = Some (if decide (p < length evs) then 1%Q else 0%Q)) /\
      (forall p s, evs !! p = Some s ->
         take 3 (drop (length class_dict * max_overlap + (c * max_overlap + p) * 3)
                   cells)
         = [(X s / max_loc_value)%Q; (Y s / max_loc_value)%Q;
            (Z_ s / max_loc_value)%Q]) /\
      (forall p, length evs <= p < max_overlap ->
         take 3 (drop (length class_dict * max_overlap + (c * max_overlap + p) * 3)
                   cells)
         = replicate 3 (0 / max_loc_value)%Q).
Proof.
  intros Hknown Hroom.
  rewrite csv_to_matrix_task2_stack by (done || lia).
  destruct (csv_loop class_dict dur step max_overlap Hstep Hdur Hframes Hids
              df Hknown []) as [Hok _].
  { intros c f. simpl. lia. }
  rewrite Hok by (intros c f; apply Hroom). cbn [mbind result_bind app].
  set (E := marking class_dict dur step df).
  set (nc := length class_dict). set (N := frame_count dur step).
  assert (forall f, Forall (fun l => length l = max_overlap)
            (map (fun c => cl_slots max_overlap (E f c)) (seq 0 nc))) as Hcl.
  { intros f. apply Forall_forall. intros l (c & -> & _)%list_elem_of_fmap.
    apply length_cl_slots, Hroom. }
  assert (forall f, Forall (fun l => length l = max_overlap)
            (map (fun c => loc_slots max_overlap (E f c)) (seq 0 nc))) as Hloc.
  { intros f. apply Forall_forall. intros l (c & -> & _)%list_elem_of_fmap.
    apply length_loc_slots, Hroom. }
  assert (forall f, Forall (fun l => length l = 3)
            (concat (map (fun c => loc_slots max_overlap (E f c)) (seq 0 nc))))
    as Htri.
  { intros f. apply Forall_forall. intros l Hl.
    apply list_elem_of_In, in_concat in Hl as (ls & Hls & Hl).
    apply in_map_iff in Hls as (c & <- & _). unfold loc_slots in Hl.
    apply in_app_or in Hl as [Hl|Hl].
    - apply in_map_iff in Hl as (s & <- & _). done.
    - apply list_elem_of_In, elem_of_replicate in Hl as [-> _]. done. }
  eexists. split; [reflexivity|]. split_and!.
  - unfold stack, render. rewrite length_zip_with, !length_map, length_seq. lia.
  - apply Forall_forall. intros cells Hcells.
    apply list_elem_of_lookup in Hcells as [f Hf].
    apply stack_render_lookup in Hf as [_ ->].
    rewrite length_app, length_map.
    rewrite (length_concat_uniform 3 (concat _)) by apply Htri.
    rewrite (length_concat_uniform max_overlap _ (Hcl f)).
    rewrite (length_concat_uniform max_overlap _ (Hloc f)).
    rewrite !length_map, length_seq. lia.
  - intros f c cells Hf Hc. apply stack_render_lookup in Hf as [HfN ->].
    assert (length (concat (map (fun c => cl_slots max_overlap (E f c)) (seq 0 nc)))
            = nc * max_overlap) as Hlen1.
    { rewrite (length_concat_uniform max_overlap) by done.
      by rewrite length_map, length_seq. }
    assert (forall p, p < max_overlap ->
              take 3 (drop (nc * max_overlap + (c * max_overlap + p) * 3)
                        (concat (map (fun c => cl_slots max_overlap (E f c))
                                   (seq 0 nc))
                         ++ map (fun x => (x / max_loc_value)%Q)
                              (concat (concat
                                 (map (fun c => loc_slots max_overlap (E f c))
                                    (seq 0 nc))))))
              = map (fun x => (x / max_loc_value)%Q)
                  (match E f c !! p with
                   | Some s => [X s; Y s; Z_ s]
                   | None => replicate 3 0%Q
                   end)) as Hloc3.
    { intros p Hp. rewrite <- Hlen1, drop_app_add.
      assert (concat (map (fun c => loc_slots max_overlap (E f c)) (seq 0 nc))
                !! (c * max_overlap + p)
              = Some (match E f c !! p with
                      | Some s => [X s; Y s; Z_ s]
                      | None => replicate 3 0%Q
                      end)) as Hslot.
      { rewrite (concat_lookup_uniform max_overlap) by done.
        rewrite lookup_tabulate by done. simpl.
        apply loc_slots_lookup; [done|apply Hroom]. }
      set (triple := match E f c !! p with
                     | Some s => [X s; Y s; Z_ s]
                     | None => replicate 3 0%Q
                     end) in *.
      assert (length triple = 3) as Hlt by (unfold triple; by destruct (E f c !! p)).
      destruct triple as [|x [|y [|z [|? ?]]]]; try done.
      apply take3_drop; rewrite list_lookup_fmap.
      - replace ((c * max_overlap + p) * 3) with ((c * max_overlap + p) * 3 + 0)
          by lia.
        rewrite (concat_lookup_uniform 3) by (apply Htri || lia).
        by rewrite Hslot.
      - rewrite (concat_lookup_uniform 3) by (apply Htri || lia).
        by rewrite Hslot.
      - rewrite (concat_lookup_uniform 3) by (apply Htri || lia).
        by rewrite Hslot. }
    split_and!.
    + intros p Hp. rewrite lookup_app_l by (rewrite Hlen1; nia).
      rewrite (concat_lookup_uniform max_overlap) by done.
      rewrite lookup_tabulate by done. simpl.
      apply cl_slots_lookup; [done|apply Hroom].
    + intros p s Hs. rewrite Hloc3.
      * fold E in Hs. by rewrite Hs.
      * apply lookup_lt_Some in Hs. specialize (Hroom f c). unfold E in Hs. lia.
    + intros p [Hp1 Hp2]. rewrite Hloc3 by done.
      rewrite (lookup_ge_None_2 (E f c) p) by done. done.
Qed.

(** X7.  Under the same conditions on the parameters, a frame that more
    than [max_overlap] sounds of one class mark makes [csv_to_matrix_task2]
    raise [IndexError]. *)
Theorem csv_to_matrix_task2_overflow (df : list sound) (max_loc_value : Q)
  (f c : nat) :
  Forall (fun s => exists class_id, dict_get (Class s) class_dict = Ok class_id) df ->
  max_overlap < length (marking class_dict dur step df f c) ->
  csv_to_matrix_task2 df class_dict dur step max_overlap max_loc_value
  = Raise IndexError.
Proof.
  intros Hknown Hfull.
  rewrite csv_to_matrix_task2_stack by (done || lia).
  destruct (csv_loop class_dict dur step max_overlap Hstep Hdur Hframes Hids
              df Hknown []) as [_ Hraise].
  { intros c' f'. simpl. lia. }
  rewrite Hraise; [done|]. by exists c, f.
Qed.

(** X8.  A row whose class is not in the dictionary makes
    [csv_to_matrix_task2] raise [KeyError], when the rows before it are
    written without error. *)
Theorem csv_to_matrix_task2_missing_class (pre post : list sound) (s : sound)
  (max_loc_value : Q) :
  Forall (fun s => exists class_id, dict_get (Class s) class_dict = Ok class_id)
    pre ->
  (forall f c, length (marking class_dict dur step pre f c) <= max_overlap) ->
  dict_get (Class s) class_dict = Raise KeyError ->
  csv_to_matrix_task2 (pre ++ s :: post) class_dict dur step max_overlap
    max_loc_value
  = Raise KeyError.
Proof.
  intros Hknown Hroom Hget.
  rewrite csv_to_matrix_task2_stack by (done || lia).
  destruct (csv_loop class_dict dur step max_overlap Hstep Hdur Hframes Hids
              pre Hknown []) as [Hok _].
  { intros c f. simpl. lia. }
  rewrite foldM_app, Hok by (intros c f; apply Hroom).
  cbn [mbind result_bind app foldM].
  assert (forall t, mark_sound class_dict dur step t s = Raise KeyError) as ->;
    [|done].
  intros t. unfold mark_sound, quantize.
  destruct (Qeq_bool step 0) eqn:E.
  { apply Qeq_bool_iff in E. rewrite E in Hstep. by apply Qlt_irrefl in Hstep. }
  cbn [mbind result_bind]. by rewrite Hget.
Qed.

End CsvToMatrixSpec.

(** ** The decoder on arbitrary scores *)

Lemma frame_events_rounded (max_loc_value : Q) (num_classes max_overlaps i : nat)
  (c l : list Q) (r : list (list (list Q))) (out : list entry) :
  length c = num_classes * max_overlaps ->
  reshape3 num_classes max_overlaps 3
    (map (fun v => (v * max_loc_value)%Q) l) = Ok r ->
  frame_events max_overlaps i (map round_half_even c) r out =
    Ok (out ++ slot_rows emitted max_loc_value max_overlaps i c l).
Proof.
  intros Hlen Hr. unfold frame_events, slot_rows.
  rewrite enumerate_fmap.
  erewrite foldM_append with
    (g := fun '(j, e) =>
            if decide (e <> 0%Z)
            then
              let class_id := j / max_overlaps in
              let event := j mod max_overlaps in
              [mk_entry i class_id
                 (coord l max_overlaps class_id event 0 * max_loc_value)
                 (coord l max_overlaps class_id event 1 * max_loc_value)
                 (coord l max_overlaps class_id event 2 * max_loc_value)]
            else []).
  - do 3 f_equal. rewrite map_map. apply map_ext_in.
    intros [j s] _. unfold emitted. cbn beta iota.
    destruct (Z.eqb_spec (round_half_even s) 0) as [Heq|Hne]; case_decide; done.
  - intros out' [j e] Hje.
    apply list_elem_of_fmap in Hje as ([j' s] & Heq & Hjs).
    injection Heq as Hj' He'. subst j' e. apply elem_of_enumerate in Hjs.
    apply lookup_lt_Some in Hjs. rewrite Hlen in Hjs.
    case_decide as He; [|by rewrite app_nil_r].
    assert (max_overlaps <> 0) as Hmo by (intros ->; lia).
    case_decide; [done|].
    assert (j / max_overlaps < num_classes) as Hpc
      by (apply Nat.Div0.div_lt_upper_bound; lia).
    assert (j mod max_overlaps < max_overlaps) as Hne
      by (by apply Nat.mod_upper_bound).
    pose proof (Nat.div_mod_eq j max_overlaps) as Hdm.
    unfold reshape3 in Hr. case_decide as Hl; [|done]. rewrite length_map in Hl.
    assert (forall k, k < 3 ->
              exists m cells, r !! (j / max_overlaps) = Some m /\
                m !! (j mod max_overlaps) = Some cells /\
                cells !! k
                = Some (coord l max_overlaps (j / max_overlaps)
                          (j mod max_overlaps) k * max_loc_value)%Q) as Hget.
    { intros k Hk.
      destruct (reshape3_lookup num_classes max_overlaps 3
                  (map (fun v => (v * max_loc_value)%Q) l) r
                  (j / max_overlaps) (j mod max_overlaps) k)
        as (m & cells & Hm & Hcells & Hv); try done.
      { unfold reshape3. rewrite length_map. by rewrite decide_True. }
      exists m, cells. split_and!; [done..|].
      rewrite Hv, list_lookup_fmap. unfold coord.
      replace (j / max_overlaps * (max_overlaps * 3) + j mod max_overlaps * 3 + k)
        with ((j / max_overlaps * max_overlaps + j mod max_overlaps) * 3 + k) by lia.
      destruct (l !! _) eqn:E; [done|].
      apply lookup_ge_None in E. nia. }
    destruct (Hget 0) as (m & cells & Hm & Hcells & Hx); [lia|].
    destruct (Hget 1) as (m1 & cells1 & Hm1 & Hcells1 & Hy); [lia|].
    destruct (Hget 2) as (m2 & cells2 & Hm2 & Hcells2 & Hz); [lia|].
    simplify_eq. unfold getitem. rewrite Hm. simpl. rewrite Hcells. simpl.
    rewrite Hx, Hy, Hz. simpl. reflexivity.
Qed.

Lemma decode_frames (max_loc_value : Q)
  (num_classes max_overlaps : nat) (frames : list (nat * (list Q * list Q)))
  (out : list entry) :
  Forall (fun '(_, (c, l)) => length c = num_classes * max_overlaps /\
                              length l = num_classes * max_overlaps * 3) frames ->
  foldM (fun output '(i, (c, l)) =>
           let c := map round_half_even c in
           let l := map (fun v => (v * max_loc_value)%Q) l in
           l ← reshape3 num_classes max_overlaps 3 l;
           if decide (foldr Z.add 0%Z c = 0%Z) then Ok output
           else frame_events max_overlaps i c l output)
    frames out
  = Ok (out ++ concat (map (fun '(i, (c, l)) =>
                 if decide (foldr Z.add 0%Z (map round_half_even c) = 0%Z) then []
                 else slot_rows emitted max_loc_value max_overlaps i c l)
            frames)).
Proof.
  intros Hshape. apply foldM_append. intros out' [i [c l]] Hin.
  rewrite Forall_forall in Hshape. destruct (Hshape _ Hin) as [Hc Hl].
  cbn beta iota zeta.
  destruct (reshape3 num_classes max_overlaps 3
              (map (fun v => (v * max_loc_value)%Q) l)) as [r|e] eqn:Hr.
  2:{ unfold reshape3 in Hr. rewrite length_map in Hr. by case_decide. }
  cbn [mbind result_bind]. case_decide as Hsum; [by rewrite app_nil_r|].
  by apply frame_events_rounded with (num_classes := num_classes).
Qed.

Lemma zip_shapes (sed doa : list (list Q)) (n m : nat) :
  Forall (fun c => length c = n) sed -> Forall (fun l => length l = m) doa ->
  Forall (fun '(_, (c, l)) => length c = n /\ length l = m)
    (enumerate (zip sed doa)).
Proof.
  intros Hsed Hdoa. apply Forall_forall. intros [i [c l]] Hin.
  apply elem_of_enumerate, list_elem_of_lookup_2, elem_of_zip_with in Hin
    as (c' & l' & Heq & Hc & Hl). injection Heq as <- <-.
  rewrite Forall_forall in Hsed, Hdoa. split; [by apply Hsed|by apply Hdoa].
Qed.

(** X10.  On well-shaped tensors the decoder returns whatever the scores:
    a frame whose rounded scores sum to zero gives no row, also when single
    scores are not zero, and in any other frame every slot whose score
    [np.round] makes non-zero gives one row. *)
Theorem gen_submission_list_task2_rounded (sed doa : list (list Q))
  (max_loc_value : Q) (num_frames num_classes max_overlaps : nat) :
  Forall (fun c => length c = num_classes * max_overlaps) sed ->
  Forall (fun l => length l = num_classes * max_overlaps * 3) doa ->
  gen_submission_list_task2 sed doa max_loc_value num_frames num_classes
    max_overlaps = Ok (decode_rounded sed doa max_loc_value max_overlaps).
Proof.
  intros Hsed Hdoa. unfold gen_submission_list_task2, decode_rounded.
  rewrite <- (app_nil_l (concat _)).
  apply decode_frames. by apply zip_shapes.
Qed.

(** X11.  A location row of the wrong length stops the decoder with the
    [ValueError] of [reshape], whatever the scores of its frame, the frames
    before it being well-shaped. *)
Theorem gen_submission_list_task2_bad_location (sed doa : list (list Q))
  (max_loc_value : Q) (num_frames num_classes max_overlaps : nat)
  (c l : list Q) (sed' doa' : list (list Q)) :
  length sed = length doa ->
  Forall (fun c => length c = num_classes * max_overlaps) sed ->
  Forall (fun l => length l = num_classes * max_overlaps * 3) doa ->
  length l <> num_classes * max_overlaps * 3 ->
  gen_submission_list_task2 (sed ++ c :: sed') (doa ++ l :: doa') max_loc_value
    num_frames num_classes max_overlaps
  = Raise (ValueError "cannot reshape array").
Proof.
  intros Hlen Hsed Hdoa Hbad. unfold gen_submission_list_task2.
  rewrite zip_with_app by done. cbn [zip_with].
  rewrite enumerate_app, foldM_app.
  rewrite (decode_frames max_loc_value num_classes max_overlaps)
    by (by apply zip_shapes).
  cbn [mbind result_bind length seq zip_with foldM].
  assert (reshape3 num_classes max_overlaps 3
            (map (fun v => (v * max_loc_value)%Q) l)
          = Raise (ValueError "cannot reshape array")) as ->; [|done].
  unfold reshape3. rewrite length_map. by rewrite decide_False.
Qed.

(** ** From the annotation to the submission list and back *)

Lemma zip_with_tabulate {A B C} (h : A -> B -> C) (a : nat -> A) (b : nat -> B)
  (l : list nat) :
  zip_with h (map a l) (map b l) = map (fun f => h (a f) (b f)) l.
Proof. induction l as [|x l IH]; simpl; [done|]. by rewrite IH. Qed.

Lemma enumerate_tabulate {A} (a : nat -> A) (n : nat) :
  enumerate (map a (seq 0 n)) = map (fun f => (f, a f)) (seq 0 n).
Proof.
  unfold enumerate. rewrite length_map, length_seq.
  rewrite <- (map_id (seq 0 n)) at 1. apply zip_with_tabulate.
Qed.

Lemma stack_render_rows (mlv : Q) (N nc mo : nat) (E : nat -> nat -> list sound) :
  stack mlv (render N nc mo E)
  = map (fun f => score_row nc mo E f ++ location_row mlv nc mo E f) (seq 0 N).
Proof.
  unfold stack, render, score_row, location_row.
  rewrite !map_map. apply zip_with_tabulate.
Qed.

Lemma length_score_row (nc mo : nat) (E : nat -> nat -> list sound) (f : nat) :
  (forall c, length (E f c) <= mo) -> length (score_row nc mo E f) = nc * mo.
Proof.
  intros Hroom. unfold score_row. rewrite (length_concat_uniform mo).
  - by rewrite length_map, length_seq.
  - apply Forall_forall. intros l (c & -> & _)%list_elem_of_fmap.
    by apply length_cl_slots.
Qed.

Lemma triples_loc_slots (nc mo : nat) (E : nat -> nat -> list sound) (f : nat) :
  Forall (fun l => length l = 3)
    (concat (map (fun c => loc_slots mo (E f c)) (seq 0 nc))).
Proof.
  apply Forall_forall. intros l Hl.
  apply list_elem_of_In, in_concat in Hl as (ls & Hls & Hl).
  apply in_map_iff in Hls as (c & <- & _). unfold loc_slots in Hl.
  apply in_app_or in Hl as [Hl|Hl].
  - apply in_map_iff in Hl as (s & <- & _). done.
  - apply list_elem_of_In, elem_of_replicate in Hl as [-> _]. done.
Qed.

Lemma length_location_row (mlv : Q) (nc mo : nat) (E : nat -> nat -> list sound)
  (f : nat) :
  (forall c, length (E f c) <= mo) ->
  length (location_row mlv nc mo E f) = nc * mo * 3.
Proof.
  intros Hroom. unfold location_row. rewrite length_map.
  rewrite (length_concat_uniform 3) by apply triples_loc_slots.
  rewrite (length_concat_uniform mo).
  - by rewrite length_map, length_seq.
  - apply Forall_forall. intros l (c & -> & _)%list_elem_of_fmap.
    by apply length_loc_slots.
Qed.

Lemma location_row_lookup (mlv : Q) (nc mo : nat) (E : nat -> nat -> list sound)
  (f c p t : nat) (s : sound) :
  (forall c, length (E f c) <= mo) -> c < nc -> t < 3 ->
  E f c !! p = Some s ->
  location_row mlv nc mo E f !! ((c * mo + p) * 3 + t)
  = (fun x => (x / mlv)%Q) <$> ([X s; Y s; Z_ s] !! t).
Proof.
  intros Hroom Hc Ht Hs. unfold location_row.
  assert (p < mo) as Hp.
  { apply lookup_lt_Some in Hs. specialize (Hroom c). lia. }
  rewrite list_lookup_fmap. f_equal.
  rewrite (concat_lookup_uniform 3) by (apply triples_loc_slots || done).
  rewrite (concat_lookup_uniform mo); [|  |done].
  - rewrite lookup_tabulate by done. simpl.
    rewrite loc_slots_lookup by done. simpl. by rewrite Hs.
  - apply Forall_forall. intros l (c' & -> & _)%list_elem_of_fmap.
    by apply length_loc_slots.
Qed.

Lemma concat_map_concat {A B} (F : A -> list B) (LL : list (list A)) :
  concat (map F (concat LL)) = concat (map (fun L => concat (map F L)) LL).
Proof.
  induction LL as [|L LL IH]; simpl; [done|].
  by rewrite map_app, concat_app, IH.
Qed.

Lemma zip_seq_shift {A} (k : nat) (l : list A) :
  zip (seq k (length l)) l = map (fun '(p, x) => (k + p, x)) (enumerate l).
Proof.
  apply list_eq. intros i. rewrite list_lookup_fmap. unfold enumerate.
  rewrite !lookup_zip_with.
  destruct (l !! i) as [x|] eqn:Hx.
  - pose proof (lookup_lt_Some _ _ _ Hx) as Hi.
    rewrite !lookup_seq_lt by done. done.
  - apply lookup_ge_None in Hx. rewrite !lookup_seq_ge by lia. done.
Qed.

Lemma enumerate_concat_uniform {A} (mo : nat) (g : nat -> list A) (n : nat) :
  (forall c, length (g c) = mo) ->
  enumerate (concat (map g (seq 0 n)))
  = concat (map (fun c => map (fun '(p, x) => (c * mo + p, x)) (enumerate (g c)))
              (seq 0 n)).
Proof.
  intros Hlen. induction n as [|n IH]; [done|].
  rewrite seq_S, !map_app, !concat_app. cbn [map concat].
  rewrite !app_nil_r, enumerate_app, IH. f_equal.
  rewrite (length_concat_uniform mo).
  - rewrite length_map, length_seq. apply zip_seq_shift.
  - apply Forall_forall. intros l (c & -> & _)%list_elem_of_fmap. apply Hlen.
Qed.

Lemma slots_of_class {B} (h : nat -> B) (k m : nat) :
  concat (map (fun '(p, x) => if emitted x then [h p] else [])
            (enumerate (replicate k 1%Q ++ replicate m 0%Q)))
  = map h (seq 0 k).
Proof.
  rewrite enumerate_app, !length_replicate, map_app, concat_app.
  assert (forall j, concat (map (fun '(p, x) => if emitted x then [h p] else [])
                              (zip (seq j m) (replicate m 0%Q))) = []) as ->.
  { induction m as [|m IH]; intros j; simpl; [done|]. apply IH. }
  rewrite app_nil_r. unfold enumerate. rewrite length_replicate.
  generalize 0. induction k as [|k IH]; intros j; simpl; [done|].
  f_equal. apply IH.
Qed.

Lemma map_seq_lookup {A B} (h : nat -> B) (e : A -> B) (l : list A) :
  (forall p a, l !! p = Some a -> h p = e a) ->
  map h (seq 0 (length l)) = map e l.
Proof.
  intros H. apply list_eq. intros p. rewrite !list_lookup_fmap.
  destruct (l !! p) as [a|] eqn:Ha.
  - rewrite lookup_seq_lt by (by eapply lookup_lt_Some). simpl.
    by rewrite (H p a).
  - apply lookup_ge_None in Ha. by rewrite lookup_seq_ge by lia.
Qed.

(** The rows that the decoder makes of one encoded frame. *)
Lemma slot_rows_render (mlv : Q) (nc mo : nat) (E : nat -> nat -> list sound)
  (f : nat) :
  (forall c, length (E f c) <= mo) ->
  slot_rows emitted mlv mo f (score_row nc mo E f) (location_row mlv nc mo E f)
  = concat (map (fun c =>
                   map (fun s => mk_entry f c (X s / mlv * mlv) (Y s / mlv * mlv)
                                   (Z_ s / mlv * mlv))
                     (E f c))
              (seq 0 nc)).
Proof.
  intros Hroom. unfold slot_rows, score_row.
  rewrite (enumerate_concat_uniform mo)
    by (intros c; by apply length_cl_slots).
  rewrite concat_map_concat, map_map. f_equal. apply map_ext_in.
  intros c Hc%list_elem_of_In%elem_of_seq. rewrite map_map.
  set (L := location_row mlv nc mo E f).
  set (h := fun p => mk_entry f ((c * mo + p) / mo)
                       (coord L mo ((c * mo + p) / mo) ((c * mo + p) mod mo) 0 * mlv)
                       (coord L mo ((c * mo + p) / mo) ((c * mo + p) mod mo) 1 * mlv)
                       (coord L mo ((c * mo + p) / mo) ((c * mo + p) mod mo) 2 * mlv)).
  rewrite (map_ext _ (fun '(p, x) => if emitted x then [h p] else []))
    by (by intros [p x]).
  unfold cl_slots. rewrite slots_of_class.
  apply map_seq_lookup. intros p s Hs.
  assert (p < mo) as Hp.
  { apply lookup_lt_Some in Hs. specialize (Hroom c). lia. }
  assert ((c * mo + p) / mo = c) as Hdiv.
  { rewrite Nat.div_add_l by lia. rewrite Nat.div_small by done. lia. }
  assert ((c * mo + p) mod mo = p) as Hmod.
  { rewrite Nat.add_comm, Nat.Div0.mod_add. by apply Nat.mod_small. }
  unfold h. rewrite Hdiv, Hmod. unfold coord, L.
  rewrite !(location_row_lookup mlv nc mo E f c p _ s) by (done || lia).
  done.
Qed.

Lemma rounded_cl_slots (mo : nat) (evs : list sound) :
  Forall (fun x => round_half_even x = 0%Z \/ round_half_even x = 1%Z)
    (cl_slots mo evs).
Proof.
  unfold cl_slots. apply Forall_app. split; apply Forall_forall;
    intros x [-> _]%elem_of_replicate; [by right|by left].
Qed.

Lemma slot_rows_silent (act : Q -> bool) (mlv : Q) (mo i : nat) (c l : list Q) :
  Forall (fun s => act s = false) c -> slot_rows act mlv mo i c l = [].
Proof.
  intros Hc. unfold slot_rows.
  assert (Forall (fun js => act js.2 = false) (enumerate c)) as H.
  { apply Forall_forall. intros [j s] Hjs. apply elem_of_enumerate in Hjs.
    rewrite Forall_forall in Hc. apply Hc. by eapply list_elem_of_lookup_2. }
  induction H as [|[j s] js Hjs _ IH]; simpl in *; [done|]. by rewrite Hjs.
Qed.

Lemma decode_render_frame (mlv : Q) (nc mo : nat) (E : nat -> nat -> list sound)
  (f : nat) :
  (forall c, length (E f c) <= mo) ->
  (if decide (foldr Z.add 0%Z (map round_half_even (score_row nc mo E f)) = 0%Z)
   then []
   else slot_rows emitted mlv mo f (score_row nc mo E f)
          (location_row mlv nc mo E f))
  = concat (map (fun c =>
                   map (fun s => mk_entry f c (X s / mlv * mlv) (Y s / mlv * mlv)
                                   (Z_ s / mlv * mlv))
                     (E f c))
              (seq 0 nc)).
Proof.
  intros Hroom. rewrite <- (slot_rows_render mlv nc mo E f) by done.
  case_decide as Hsum; [|done].
  symmetry. apply slot_rows_silent.
  assert (Forall (fun x => round_half_even x = 0%Z \/ round_half_even x = 1%Z)
            (score_row nc mo E f)) as Hbin.
  { unfold score_row. apply Forall_forall. intros x Hx.
    apply list_elem_of_In, in_concat in Hx as (l & Hl & Hx).
    apply in_map_iff in Hl as (c & <- & _).
    pose proof (rounded_cl_slots mo (E f c)) as H.
    rewrite Forall_forall in H. apply H. by apply list_elem_of_In. }
  apply Zsum_zero in Hsum.
  - rewrite Forall_fmap in Hsum. eapply Forall_impl; [exact Hsum|].
    intros x Hx. simpl in Hx. unfold emitted. by rewrite Hx.
  - rewrite Forall_fmap. eapply Forall_impl; [exact Hbin|].
    intros x [Hx|Hx]; simpl; lia.
Qed.

Section RoundTrip.
Variables (class_dict : list (string * Z)) (dur step : Q) (max_overlap : nat).
Hypothesis Hstep : (0 < step)%Q.
Hypothesis Hdur : (0 < dur)%Q.
Hypothesis Hframes : (1 <= int_of_Q (dur / step))%Z.
Hypothesis Hids :
  Forall (fun kv => (0 <= kv.2 < Z.of_nat (length class_dict))%Z) class_dict.

(** X9.  Decoding what [csv_to_matrix_task2] encoded gives the annotation
    back: with the same [max_overlap] and [max_loc_value], the decoder
    returns, frame after frame and class after class, one row
    [[frame, class id, x, y, z]] for every sound that marks the frame, in
    file order, each coordinate divided and multiplied by [max_loc_value],
    which is the coordinate itself when [max_loc_value] is not zero. *)
Theorem csv_to_matrix_task2_roundtrip (df : list sound) (max_loc_value : Q)
  (num_frames : nat) :
  Forall (fun s => exists class_id, dict_get (Class s) class_dict = Ok class_id) df ->
  (forall f c, length (marking class_dict dur step df f c) <= max_overlap) ->
  exists stacked,
    csv_to_matrix_task2 df class_dict dur step max_overlap max_loc_value
      = Ok stacked /\
    gen_submission_list_task2
      (map (take (length class_dict * max_overlap)) stacked)
      (map (drop (length class_dict * max_overlap)) stacked)
      max_loc_value num_frames (length class_dict) max_overlap
    = Ok (annotated_rows (fun x => (x / max_loc_value * max_loc_value)%Q)
            class_dict dur step df) /\
    (~ (max_loc_value == 0)%Q ->
     forall x, (x / max_loc_value * max_loc_value == x)%Q).
Proof.
  intros Hknown Hroom.
  rewrite csv_to_matrix_task2_stack by (done || lia).
  destruct (csv_loop class_dict dur step max_overlap Hstep Hdur Hframes Hids
              df Hknown []) as [Hok _].
  { intros c f. simpl. lia. }
  rewrite Hok by (intros c f; apply Hroom). cbn [mbind result_bind app].
  set (E := marking class_dict dur step df).
  set (nc := length class_dict). set (N := frame_count dur step).
  eexists. split; [reflexivity|]. split.
  2:{ intros Hne x. field. done. }
  rewrite stack_render_rows, !map_map.
  rewrite (map_ext_in _ (score_row nc max_overlap E)).
  2:{ intros f _. rewrite take_app_length'; [done|].
      by rewrite length_score_row by (intros c; apply Hroom). }
  rewrite (map_ext_in (fun f => drop _ _) (location_row max_loc_value nc max_overlap E)).
  2:{ intros f _. rewrite drop_app_length'; [done|].
      by rewrite length_score_row by (intros c; apply Hroom). }
  rewrite gen_submission_list_task2_rounded.
  - f_equal. unfold decode_rounded, annotated_rows.
    rewrite zip_with_tabulate, enumerate_tabulate, map_map. f_equal.
    apply map_ext_in. intros f _. apply decode_render_frame.
    intros c. apply Hroom.
  - apply Forall_forall. intros l (f & -> & _)%list_elem_of_fmap.
    apply length_score_row. intros c. apply Hroom.
  - apply Forall_forall. intros l (f & -> & _)%list_elem_of_fmap.
    apply length_location_row. intros c. apply Hroom.
Qed.

End RoundTrip.

(** ** The target chunks of [segment_task2] *)

Lemma reshape2_lookup {A} (rows cols : nat) (l : list A) (m : list (list A))
  (r c : nat) :
  reshape2 rows cols l = Ok m -> r < rows -> c < cols ->
  length m = rows /\
  exists cells, m !! r = Some cells /\ length cells = cols /\
    cells !! c = l !! (r * cols + c).
Proof.
  unfold reshape2. intros Hm Hr Hc. case_decide as Hlen; [|done].
  injection Hm as <-. split; [by rewrite length_map, length_seq|].
  eexists. split_and!.
  - rewrite list_lookup_fmap, lookup_seq_lt by done. reflexivity.
  - rewrite length_take, length_drop. nia.
  - simpl. rewrite lookup_take_lt by done. rewrite lookup_drop. done.
Qed.

Section TargetChunks.
Context {A : Type} (zero : A).

(** The target as line 287 reshapes it: row [a] of the reshaped array is
    the stretch of [length labels] entries from position [a * length labels]
    of the flattened matrix. *)
Lemma reshaped_target (labels : list (list A)) (F : nat) reshaped :
  Forall (fun row => length row = F) labels -> labels <> [] ->
  reshape3 1 (shape_last labels) (length labels) (concat labels) = Ok reshaped ->
  reshaped = [map (fun a => take (length labels)
                               (drop (a * length labels) (concat labels)))
                (seq 0 F)].
Proof.
  intros Hrect Hne. unfold reshape3. case_decide as Hlen; [|done].
  intros [= <-]. simpl.
  assert (shape_last labels = F) as ->.
  { destruct labels as [|row labels]; [done|]. simpl.
    by apply Forall_cons in Hrect as [-> _]. }
  f_equal. apply map_ext_in. intros a Ha%list_elem_of_In%elem_of_seq.
  rewrite (take_ge (concat labels)); [done|].
  rewrite (length_concat_rect labels F Hrect). lia.
Qed.

(** X12.  Line 287 reshapes the target, it does not transpose it.  For a
    chunk whose two windows fit, entry [(r, c)] of the target chunk is the
    entry of the flattened label matrix at position
    [(r * F + c) / tlen * T + start + (r * F + c) mod tlen], for [T] label
    frames of [F] features; with one feature this is label frame
    [start + r]. *)
Theorem segment_task2_target_chunk spectra (labels : list (list A))
  (plen tlen : nat) (overlap : Q) X Y (F i r c : nat) :
  Forall (fun row => length row = F) labels -> 0 < F ->
  segment_task2 zero spectra labels plen tlen overlap = Returned X Y ->
  i < length Y ->
  i * Z.to_nat (stride plen overlap) + plen <= shape_last3 spectra ->
  i * Z.to_nat (stride tlen overlap) + tlen <= length labels ->
  r < tlen -> c < F ->
  exists cy cells,
    Y !! i = Some cy /\ length cy = tlen /\
    cy !! r = Some cells /\ length cells = F /\
    cells !! c
    = concat labels !! ((r * F + c) / tlen * length labels
                        + i * Z.to_nat (stride tlen overlap)
                        + (r * F + c) mod tlen) /\
    (F = 1 -> Some cells = labels !! (i * Z.to_nat (stride tlen overlap) + r)).
Proof.
  intros Hrect HF Hret Hi Hfit Hwin Hr Hc.
  destruct (segment_task2_Returned zero spectra labels plen tlen overlap X Y Hret)
    as (reshaped & Hresh & _ & _ & HXY & Hchunks).
  destruct (Hchunks i) as (_ & cy & HY & Hcy); [lia|].
  set (sp := Z.to_nat (stride plen overlap)) in *.
  set (st := Z.to_nat (stride tlen overlap)) in *.
  set (T := length labels) in *.
  assert (labels <> []) as Hne by (intros ->; simpl in *; lia).
  pose proof (reshaped_target labels F reshaped Hrect Hne Hresh) as ->.
  fold T in Hcy.
  unfold task2_cut_y in Hcy. rewrite decide_True in Hcy by done.
  cbn [map] in Hcy. rewrite map_map in Hcy.
  set (chunk := fun a => exact_chunk (i * st) tlen
                           (take T (drop (a * T) (concat labels)))) in *.
  assert (length (concat labels) = T * F) as Hflat
    by (by apply length_concat_rect).
  assert (forall a, a < F -> length (chunk a) = tlen) as Hchunk.
  { intros a Ha. unfold chunk, exact_chunk.
    rewrite length_take, length_drop, length_take, length_drop. nia. }
  assert (shape_last3 [map chunk (seq 0 F)] = tlen) as Hlast.
  { destruct F as [|F']; [lia|]. simpl. apply Hchunk. lia. }
  assert (shape_mid3 [map chunk (seq 0 F)] = F) as Hmid
    by (simpl; by rewrite length_map, length_seq).
  rewrite Hlast, Hmid in Hcy. cbn [concat] in Hcy. rewrite app_nil_r in Hcy.
  destruct (reshape2_lookup tlen F _ cy r c Hcy Hr Hc)
    as (Hlen & cells & Hcells & Hlcells & Hcell).
  assert (cells !! c
          = concat labels !! ((r * F + c) / tlen * T + i * st + (r * F + c) mod tlen))
    as Hform.
  { rewrite Hcell.
    assert (tlen <> 0) as Htl by lia.
    pose proof (Nat.div_mod_eq (r * F + c) tlen) as Hdm.
    assert ((r * F + c) mod tlen < tlen) as Hb by (by apply Nat.mod_upper_bound).
    assert ((r * F + c) / tlen < F) as Ha
      by (apply Nat.Div0.div_lt_upper_bound; nia).
    set (a := (r * F + c) / tlen) in *. set (b := (r * F + c) mod tlen) in *.
    replace (r * F + c) with (a * tlen + b) by lia.
    rewrite (concat_lookup_uniform tlen); [| |done].
    - rewrite lookup_tabulate by done. simpl. unfold chunk, exact_chunk.
      rewrite lookup_take_lt by done. rewrite lookup_drop.
      rewrite lookup_take_lt by lia. rewrite lookup_drop. f_equal. lia.
    - apply Forall_forall. intros l (a' & -> & Ha'%elem_of_seq)%list_elem_of_fmap.
      apply Hchunk. lia. }
  exists cy, cells. split_and!; [done..|].
  intros ->. assert (c = 0) as -> by lia.
  destruct (labels !! (i * st + r)) as [row|] eqn:Hrow.
  2:{ apply lookup_ge_None in Hrow. lia. }
  assert (length row = 1) as Hlrow.
  { rewrite Forall_forall in Hrect. apply Hrect. by eapply list_elem_of_lookup_2. }
  rewrite Nat.mul_1_r, Nat.add_0_r, Nat.div_small, Nat.mod_small in Hform by done.
  replace (0 * T + i * st + r) with ((i * st + r) * 1 + 0) in Hform by lia.
  rewrite (concat_lookup_uniform 1) in Hform by (done || lia).
  rewrite Hrow in Hform. simpl in Hform.
  f_equal. destruct cells as [|x [|? ?]], row as [|y [|? ?]]; try done.
  simpl in Hform. congruence.
Qed.

End TargetChunks.

(** ** [segment_task2] with chunks that overlap by half *)

Lemma stride_half (len_segment : nat) :
  stride len_segment (1 # 2) = Z.of_nat (len_segment / 2).
Proof.
  unfold stride, int_of_Q. cbn [Qnum Qden Qmult inject_Z Pos.mul].
  rewrite Z.mul_1_r, Z.quot_div_nonneg by lia. by rewrite Nat2Z.inj_div.
Qed.

Lemma append_loop_total {CX CY : Type} (body : nat -> result (CX * CY))
  (range : list nat) (X0 : list CX) (Y0 : list CY) :
  (forall i, i ∈ range -> exists c, body i = Ok c) ->
  exists X Y,
    append_loop body range X0 Y0 = Returned X Y /\
    length X = length X0 + length range /\ length Y = length Y0 + length range.
Proof.
  revert X0 Y0. induction range as [|i range IH]; intros X0 Y0 Hbody.
  - exists X0, Y0. simpl. split_and!; [done|lia..].
  - destruct (Hbody i) as [[cx cy] Hi]; [by left|]. simpl. rewrite Hi.
    destruct (IH (X0 ++ [cx]) (Y0 ++ [cy])) as (X & Y & Hret & HX & HY).
    { intros j Hj. apply Hbody. by right. }
    exists X, Y. rewrite !length_app in *. simpl in *. split_and!; [done|lia..].
Qed.

Section HalfOverlap.
Context {A : Type} (zero : A).

Lemma reshape2_rows (rows : list (list A)) (L : nat) :
  rows <> [] -> Forall (fun row => length row = L) rows ->
  exists cy,
    reshape2 (shape_last3 [rows]) (shape_mid3 [rows]) (concat (concat [rows]))
    = Ok cy.
Proof.
  intros Hne Hrect. unfold reshape2. simpl. rewrite app_nil_r.
  rewrite (length_concat_rect rows L Hrect).
  assert (shape_last rows = L) as ->.
  { destruct rows as [|row rows]; [done|]. simpl.
    by apply Forall_cons in Hrect as [-> _]. }
  rewrite decide_True by lia. by eexists.
Qed.

(** X13.  At an overlap of one half, segment lengths of at least 2 and
    rectangular inputs, [segment_task2] returns as soon as both streams give
    the same number of cuts: the padding of a target chunk cannot fail. *)
Theorem segment_task2_half_overlap spectra (labels : list (list A))
  (plen tlen F : nat) :
  Forall (Forall (fun row => length row = shape_last3 spectra)) spectra ->
  Forall (fun row => length row = F) labels -> 0 < F ->
  2 <= plen -> 2 <= tlen ->
  num_cuts (shape_last3 spectra) (stride plen (1 # 2))
  = num_cuts (length labels) (stride tlen (1 # 2)) ->
  exists X Y,
    segment_task2 zero spectra labels plen tlen (1 # 2) = Returned X Y /\
    length X = num_cuts (shape_last3 spectra) (stride plen (1 # 2)) /\
    length Y = length X.
Proof.
  intros Hspec Hrect HF Hplen Htlen Hcuts.
  set (P := shape_last3 spectra) in *. set (T := length labels) in *.
  rewrite !stride_half in *.
  assert (0 < plen / 2) as Hsp by (apply Nat.div_str_pos; lia).
  assert (0 < tlen / 2) as Hst by (apply Nat.div_str_pos; lia).
  assert (2 * (plen / 2) <= plen <= 2 * (plen / 2) + 1) as Hp2.
  { pose proof (Nat.div_mod_eq plen 2).
    pose proof (Nat.mod_upper_bound plen 2). lia. }
  assert (2 * (tlen / 2) <= tlen) as Ht2.
  { pose proof (Nat.div_mod_eq tlen 2). lia. }
  set (sp := plen / 2) in *. set (st := tlen / 2) in *.
  set (k := num_cuts P (Z.of_nat sp)) in *.
  unfold segment_task2. rewrite !stride_half. fold sp st.
  destruct (reshape_target labels F Hrect HF) as (reshaped & Hresh & Hlast).
  rewrite Hresh, Hlast. fold P T.
  rewrite !np_arange_Ok by lia. rewrite !length_map, !length_seq.
  fold k. rewrite <- Hcuts. rewrite decide_False by lia.
  destruct (decide (labels = [])) as [Hnil|Hne].
  { subst labels. simpl in *. unfold T in *. simpl in *.
    assert (k = 0) as Hk0.
    { rewrite Hcuts. unfold num_cuts. simpl. rewrite Z.div_0_l by lia. done. }
    clearbody k. subst k. simpl. by exists [], []. }
  pose proof (reshaped_target labels F reshaped Hrect Hne Hresh) as ->.
  fold T.
  destruct (append_loop_total
              (task2_cut zero spectra
                 [map (fun a => take T (drop (a * T) (concat labels))) (seq 0 F)]
                 plen tlen
                 (map (fun j => j * Z.to_nat (Z.of_nat sp)) (seq 0 k))
                 (map (fun j => j * Z.to_nat (Z.of_nat st)) (seq 0 k)))
              (seq 0 k) [] []) as (X & Y & Hret & HX & HY).
  2:{ exists X, Y. rewrite length_seq in HX, HY. simpl in HX, HY.
      split_and!; [done|lia..]. }
  intros i Hi%elem_of_seq. rewrite !Nat2Z.id.
  assert (length (concat labels) = T * F) as Hflat
    by (by apply length_concat_rect).
  unfold task2_cut.
  rewrite (getitem_Ok _ _ _ (lookup_tabulate (fun j => j * sp) k i ltac:(lia))).
  cbn [mbind result_bind].
  rewrite (getitem_Ok _ _ _ (lookup_tabulate (fun j => j * st) k i ltac:(lia))).
  cbn [mbind result_bind]. fold P.
  set (rows := map (fun a => take T (drop (a * T) (concat labels))) (seq 0 F)).
  assert (rows <> []) as Hrows.
  { unfold rows. destruct F; [lia|]. done. }
  assert (Forall (fun row => length row = T) rows) as HrowsT.
  { apply Forall_forall. intros row (a & -> & Ha%elem_of_seq)%list_elem_of_fmap.
    rewrite length_take, length_drop. nia. }
  case_decide as Hfit.
  - cbn [mbind result_bind map].
    destruct (reshape2_rows (map (slice (i * st) (i * st + tlen)) rows)
                (length (slice (i * st) (i * st + tlen) (replicate T zero))))
      as [cy Hcy].
    + by destruct rows.
    + apply Forall_forall. intros row (r0 & -> & Hr0)%list_elem_of_fmap.
      rewrite Forall_forall in HrowsT. specialize (HrowsT _ Hr0).
      unfold slice. rewrite !length_take, !length_drop, length_replicate. lia.
    + rewrite Hcy. cbn [mbind result_bind]. by eexists.
  - assert (T <= (i + 2) * st) as Hroom.
    { apply Nat.le_ngt. intros Hlt.
      assert (i + 2 < num_cuts T (Z.of_nat st)) as H2
        by (apply num_cuts_lt; [lia|]; rewrite Nat2Z.id; lia).
      rewrite <- Hcuts in H2. fold k in H2.
      apply (num_cuts_lt P (Z.of_nat sp)) in H2 as [_ H2]; [|lia].
      rewrite Nat2Z.id in H2. lia. }
    assert (pad3 zero (map (map (drop (i * sp))) spectra) plen
            = Ok (map (map (pad_row zero plen)) (map (map (drop (i * sp))) spectra)))
      as ->.
    { unfold pad3. rewrite decide_True; [done|].
      apply Forall_forall. intros m (m0 & -> & Hm0)%list_elem_of_fmap.
      apply Forall_forall. intros row (r0 & -> & Hr0)%list_elem_of_fmap.
      rewrite Forall_forall in Hspec. specialize (Hspec _ Hm0).
      rewrite Forall_forall in Hspec. specialize (Hspec _ Hr0).
      rewrite length_drop. fold P in Hspec. lia. }
    cbn [mbind result_bind map].
    assert (pad3 zero [map (drop (i * st)) rows] tlen
            = Ok [map (pad_row zero tlen) (map (drop (i * st)) rows)]) as ->.
    { unfold pad3. rewrite decide_True; [done|].
      repeat constructor.
      apply Forall_forall. intros row (r0 & -> & Hr0)%list_elem_of_fmap.
      rewrite Forall_forall in HrowsT. specialize (HrowsT _ Hr0).
      rewrite length_drop. lia. }
    cbn [mbind result_bind map].
    destruct (reshape2_rows (map (pad_row zero tlen) (map (drop (i * st)) rows))
                tlen) as [cy Hcy].
    + by destruct rows.
    + apply Forall_forall. intros row (r1 & -> & Hr1)%list_elem_of_fmap.
      apply list_elem_of_fmap in Hr1 as (r0 & -> & Hr0).
      rewrite Forall_forall in HrowsT. specialize (HrowsT _ Hr0).
      unfold pad_row. rewrite length_app, length_replicate, length_drop. lia.
    + rewrite Hcy. cbn [mbind result_bind]. by eexists.
Qed.

End HalfOverlap.

(** ** [spectrum_fast] on a batch of signals *)

(** X14.  The cuts of lines 75 and 78 address the axes 1 and 2 of the
    array.  On the transform of a signal with a channel axis these are the
    frequency bins and the time frames: the DC bin and the last time frame
    go.  On the transform of a batch of such signals they are the channels
    and the frequency bins: one of the channels of the magnitude and the
    last frequency bin go, and every time frame stays. *)
Theorem spectrum_fast_by_rank
  (stft : shape -> string -> Z -> Z -> result shape)
  (b c n f t : nat) (window : string) (nperseg noverlap : Z)
  (cut_dc output_phase cut_last_timeframe : bool) :
  stft [c; n] window nperseg noverlap = Ok [c; f; t] ->
  stft [b; c; n] window nperseg noverlap = Ok [b; c; f; t] ->
  spectrum_fast stft [c; n] nperseg noverlap window cut_dc output_phase
    cut_last_timeframe
  = Ok [if output_phase then c + c else c;
        if cut_dc then f - 1 else f;
        if cut_last_timeframe then t - 1 else t] /\
  spectrum_fast stft [b; c; n] nperseg noverlap window cut_dc output_phase
    cut_last_timeframe
  = Ok [b;
        if cut_dc then (if output_phase then c + c else c) - 1
        else if output_phase then c + c else c;
        if cut_last_timeframe then f - 1 else f;
        t].
Proof.
  intros H2 H3. unfold spectrum_fast. rewrite H2, H3. simpl.
  destruct output_phase, cut_dc, cut_last_timeframe; simpl;
    unfold concatenate_axis_m3; simpl;
    repeat case_decide; try (split; reflexivity); exfalso; tauto.
Qed.

Lemma spectrum_fast_by_rank_witness :
  spectrum_fast
    (fun x _ _ _ => match x with
                    | [c; _] => Ok [c; 257; 13]
                    | [b; c; _] => Ok [b; c; 257; 13]
                    | _ => Raise (ValueError "unsupported")
                    end)
    [4; 4800] 512 112 "hamming" true false true
  = Ok [4; 256; 12] /\
  spectrum_fast
    (fun x _ _ _ => match x with
                    | [c; _] => Ok [c; 257; 13]
                    | [b; c; _] => Ok [b; c; 257; 13]
                    | _ => Raise (ValueError "unsupported")
                    end)
    [16; 4; 4800] 512 112 "hamming" true false true
  = Ok [16; 3; 256; 13].
Proof.
  apply (spectrum_fast_by_rank
           (fun x _ _ _ => match x with
                           | [c; _] => Ok [c; 257; 13]
                           | [b; c; _] => Ok [b; c; 257; 13]
                           | _ => Raise (ValueError "unsupported")
                           end)
           16 4 4800 257 13 "hamming" 512 112 true false true);
    reflexivity.
Defined.

Lemma length_marking_le (class_dict : list (string * Z)) (dur step : Q)
  (df : list sound) (f c : nat) :
  length (marking class_dict dur step df f c) <= length df.
Proof. unfold marking. apply length_filter. Qed.

Lemma csv_to_matrix_task2_spec_witness :
  exists stacked,
    csv_to_matrix_task2 three_dogs dog_ids 1 (1 # 10) 3 2 = Ok stacked /\
    length stacked = frame_count 1 (1 # 10) /\
    Forall (fun cells => length cells = length dog_ids * 3 * 4) stacked /\
    forall f c cells,
      stacked !! f = Some cells -> c < length dog_ids ->
      (forall p, p < 3 ->
         cells !! (c * 3 + p)
         = Some (if decide (p < length (marking dog_ids 1 (1 # 10) three_dogs f c))
                 then 1%Q else 0%Q)) /\
      (forall p s, marking dog_ids 1 (1 # 10) three_dogs f c !! p = Some s ->
         take 3 (drop (length dog_ids * 3 + (c * 3 + p) * 3) cells)
         = [(X s / 2)%Q; (Y s / 2)%Q; (Z_ s / 2)%Q]) /\
      (forall p, length (marking dog_ids 1 (1 # 10) three_dogs f c) <= p < 3 ->
         take 3 (drop (length dog_ids * 3 + (c * 3 + p) * 3) cells)
         = replicate 3 (0 / 2)%Q).
Proof.
  apply (csv_to_matrix_task2_spec dog_ids 1 (1 # 10) 3).
  - reflexivity.
  - reflexivity.
  - vm_compute. discriminate.
  - repeat constructor; simpl; lia.
  - repeat constructor; by eexists.
  - intros f c. etrans; [apply length_marking_le|]. simpl. lia.
Defined.

Lemma csv_to_matrix_task2_overflow_witness :
  csv_to_matrix_task2 four_dogs dog_ids 1 (1 # 10) 3 2 = Raise IndexError.
Proof.
  apply (csv_to_matrix_task2_overflow dog_ids 1 (1 # 10) 3) with (f := 0) (c := 0).
  - reflexivity.
  - reflexivity.
  - vm_compute. discriminate.
  - repeat constructor; simpl; lia.
  - repeat constructor; by eexists.
  - vm_compute. lia.
Defined.

Lemma csv_to_matrix_task2_missing_class_witness :
  csv_to_matrix_task2 (scenario ++ cat 0 1 1 1 1 :: two_dogs) dog_ids 1 (1 # 10) 3 2
  = Raise KeyError.
Proof.
  apply (csv_to_matrix_task2_missing_class dog_ids 1 (1 # 10) 3).
  - reflexivity.
  - reflexivity.
  - vm_compute. discriminate.
  - repeat constructor; simpl; lia.
  - repeat constructor; by eexists.
  - intros f c. etrans; [apply length_marking_le|]. simpl. lia.
  - reflexivity.
Defined.

Lemma csv_to_matrix_task2_roundtrip_witness :
  exists stacked,
    csv_to_matrix_task2 two_dogs dog_ids 1 (1 # 10) 3 2 = Ok stacked /\
    gen_submission_list_task2
      (map (take (length dog_ids * 3)) stacked)
      (map (drop (length dog_ids * 3)) stacked) 2 600 (length dog_ids) 3
    = Ok (annotated_rows (fun x => (x / 2 * 2)%Q) dog_ids 1 (1 # 10) two_dogs) /\
    (~ (2 == 0)%Q -> forall x, (x / 2 * 2 == x)%Q).
Proof.
  apply (csv_to_matrix_task2_roundtrip dog_ids 1 (1 # 10) 3).
  - reflexivity.
  - reflexivity.
  - vm_compute. discriminate.
  - repeat constructor; simpl; lia.
  - repeat constructor; by eexists.
  - intros f c. etrans; [apply length_marking_le|]. simpl. lia.
Defined.

Lemma gen_submission_list_task2_rounded_witness :
  gen_submission_list_task2 [[1; -1; 0]; [2; -(3 # 2); 1 # 2]]%Q
    [[1; 1; 1; 2; 2; 2; 3; 3; 3]; [1; 1; 1; 2; 2; 2; 3; 3; 3]]%Q 2 600 1 3
  = Ok (decode_rounded [[1; -1; 0]; [2; -(3 # 2); 1 # 2]]%Q
          [[1; 1; 1; 2; 2; 2; 3; 3; 3]; [1; 1; 1; 2; 2; 2; 3; 3; 3]]%Q 2 3).
Proof.
  apply (gen_submission_list_task2_rounded
           [[1; -1; 0]; [2; -(3 # 2); 1 # 2]]%Q
           [[1; 1; 1; 2; 2; 2; 3; 3; 3]; [1; 1; 1; 2; 2; 2; 3; 3; 3]]%Q 2 600 1 3);
    repeat constructor.
Defined.

Lemma gen_submission_list_task2_bad_location_witness :
  gen_submission_list_task2 ([[1; 0; 0]] ++ [0; 0; 0] :: [])%Q
    ([[1; 1; 1; 2; 2; 2; 3; 3; 3]] ++ [1; 1; 1] :: [])%Q 2 600 1 3
  = Raise (ValueError "cannot reshape array").
Proof.
  apply (gen_submission_list_task2_bad_location
           [[1; 0; 0]]%Q [[1; 1; 1; 2; 2; 2; 3; 3; 3]]%Q 2 600 1 3
           [0; 0; 0]%Q [1; 1; 1]%Q [] []).
  - reflexivity.
  - repeat constructor.
  - repeat constructor.
  - simpl. lia.
Defined.

Lemma segment_task2_target_chunk_witness :
  exists X Y cy cells,
    segment_task2 0 (spectrogram 8) (label_pairs 4) 4 2 (1 # 2) = Returned X Y /\
    Y !! 0 = Some cy /\ cy !! 1 = Some cells /\
    cells !! 0 = Some 5 /\
    label_pairs 4 !! 1 = Some [3; 4].
Proof.
  assert (exists X Y,
            segment_task2 0 (spectrogram 8) (label_pairs 4) 4 2 (1 # 2)
            = Returned X Y /\ 0 < length Y) as (X & Y & Hret & HY).
  { eexists _, _. split; [vm_compute; reflexivity|]. simpl. lia. }
  destruct (segment_task2_target_chunk 0 (spectrogram 8) (label_pairs 4) 4 2
              (1 # 2) X Y 2 0 1 0)
    as (cy & cells & Hcy & _ & Hcells & _ & Hcell & _).
  - repeat constructor.
  - lia.
  - exact Hret.
  - exact HY.
  - vm_compute. lia.
  - vm_compute. lia.
  - lia.
  - lia.
  - exists X, Y, cy, cells. split_and!; [done..| |done].
    rewrite Hcell. reflexivity.
Defined.

Lemma segment_task2_half_overlap_witness :
  exists X Y,
    segment_task2 0 (spectrogram 10) (labels 5) 8 4 (1 # 2) = Returned X Y /\
    length X = num_cuts (shape_last3 (spectrogram 10)) (stride 8 (1 # 2)) /\
    length Y = length X.
Proof.
  apply (segment_task2_half_overlap 0 (spectrogram 10) (labels 5) 8 4 1).
  - repeat constructor.
  - repeat constructor.
  - lia.
  - lia.
  - lia.
  - reflexivity.
Defined.

(** ** The keys of a checkpoint *)

Lemma substring_all (s : string) : String.substring 0 (String.length s) s = s.
Proof. induction s as [|a s IH]; simpl; [done|]. by rewrite IH. Qed.

Lemma prefix_self_append (p s : string) : String.prefix p (String.append p s) = true.
Proof.
  induction p as [|a p IH]; simpl; [by destruct s|].
  destruct (Ascii.ascii_dec a a); [done|congruence].
Qed.

Lemma strip_prefix_append (p k : string) : strip_prefix p (String.append p k) = k.
Proof.
  unfold strip_prefix. rewrite prefix_self_append.
  induction p as [|a p IH]; simpl.
  - rewrite Nat.sub_0_r. apply substring_all.
  - exact IH.
Qed.

Lemma fold_dict_set_fresh {V} (f : string -> string) (sd acc : list (string * V)) :
  NoDup (map fst acc ++ map (fun kv => f kv.1) sd) ->
  fold_left (fun fixed '(k, v) => dict_set (f k) v fixed) sd acc
  = acc ++ map (fun '(k, v) => (f k, v)) sd.
Proof.
  revert acc. induction sd as [|[k v] sd IH]; intros acc Hnd; simpl.
  - by rewrite app_nil_r.
  - simpl in Hnd. apply NoDup_app in Hnd as (Hacc & Hdisj & Hsd).
    apply NoDup_cons in Hsd as [Hk Hsd].
    rewrite dict_set_fresh.
    2:{ intros Hin. apply (Hdisj _ Hin). by left. }
    rewrite IH.
    + by rewrite <- app_assoc.
    + rewrite map_app. simpl. rewrite <- app_assoc. simpl.
      apply NoDup_app. split_and!; [done| |by apply NoDup_cons].
      intros x Hx. apply Hdisj in Hx as Hx'. intros Hin. apply Hx'.
      by apply elem_of_cons in Hin as [->|Hin]; [left|right].
Qed.

Lemma fix_wrapped_keys {V} (sd : list (string * V)) :
  NoDup (map fst sd) -> fix_state_dict (wrapped_keys sd) = sd.
Proof.
  intros Hnd. unfold fix_state_dict.
  etrans; [apply (fold_dict_set_fresh (strip_prefix "module."))|].
  - unfold wrapped_keys. rewrite map_map. simpl.
    erewrite map_ext; [exact Hnd|].
    intros [k v]. simpl. by rewrite strip_prefix_append.
  - unfold wrapped_keys. rewrite map_map. simpl.
    rewrite <- (map_id sd) at 2. apply map_ext.
    intros [k v]. by rewrite strip_prefix_append.
Qed.

(** X15.  The work-around of [load_model] undoes what wrapping a module in
    [DataParallel] does to the keys of its state dict: from a state dict
    whose keys all got the prefix ['module.'] it makes the state dict with
    the original keys, same values, same order; one prefix is removed, not
    more.  A state dict without a prefixed key is left as it is. *)
Theorem fix_state_dict_wrapped {V} (sd : list (string * V)) :
  NoDup (map fst sd) ->
  fix_state_dict (wrapped_keys sd) = sd /\
  (Forall (fun kv => String.prefix "module." kv.1 = false) sd ->
   fix_state_dict sd = sd).
Proof.
  intros Hnd. split; [by apply fix_wrapped_keys|].
  intros Hplain. unfold fix_state_dict.
  etrans; [apply (fold_dict_set_fresh (strip_prefix "module."))|].
  - simpl. erewrite map_ext_Forall; [exact Hnd|].
    eapply Forall_impl; [exact Hplain|].
    intros [k v] Hk. simpl in *. unfold strip_prefix. by rewrite Hk.
  - simpl. rewrite <- (map_id sd) at 2. apply map_ext_Forall.
    eapply Forall_impl; [exact Hplain|].
    intros [k v] Hk. simpl in *. unfold strip_prefix. by rewrite Hk.
Qed.

Lemma fix_state_dict_wrapped_witness :
  fix_state_dict (wrapped_keys [("conv.weight", 1); ("module.bias", 2)])
    = [("conv.weight", 1); ("module.bias", 2)] /\
  (Forall (fun kv => String.prefix "module." kv.1 = false)
     [("conv.weight", 1); ("module.bias", 2)] ->
   fix_state_dict [("conv.weight", 1); ("module.bias", 2)]
   = [("conv.weight", 1); ("module.bias", 2)]).
Proof.
  apply (fix_state_dict_wrapped [("conv.weight", 1); ("module.bias", 2)]).
  apply (bool_decide_unpack _). by vm_compute.
Defined.

(** ** Saving and loading *)

Section DictLookups.
Context {V : Type}.

Lemma dict_get_set_eq (k : string) (v : V) (d : list (string * V)) :
  dict_get k (dict_set k v d) = Ok v.
Proof.
  induction d as [|[k1 v1] d IH]; simpl.
  - by rewrite String.eqb_refl.
  - destruct (String.eqb k1 k) eqn:E; simpl.
    + by rewrite String.eqb_refl.
    + by rewrite E.
Qed.

Lemma dict_get_set_ne (k k' : string) (v : V) (d : list (string * V)) :
  k <> k' -> dict_get k' (dict_set k v d) = dict_get k' d.
Proof.
  intros Hne. induction d as [|[k1 v1] d IH]; simpl.
  - destruct (String.eqb_spec k k'); [done|done].
  - destruct (String.eqb_spec k1 k) as [->|Hk1]; simpl.
    + destruct (String.eqb_spec k k'); [done|done].
    + destruct (String.eqb_spec k1 k'); [done|exact IH].
Qed.
End DictLookups.

Section Checkpoints.
Context {V M O W : Type}.
Variable module_state_dict : M -> list (string * V).
Variable load_state_dict : M -> list (string * V) -> loading M.
Variable optimizer_state_dict_of : O -> W.
Variable optimizer_load_state_dict : O -> W -> attempt O.

(** X16.  What [save_model] wrote, [load_model] reads back: whatever was
    at the path before and whether or not the two modules are wrapped in
    [DataParallel], the state dict of the inner module of the one is loaded
    into the inner module of the other, the optimizer is loaded too, and the
    state returned is the state saved. *)
Theorem load_model_save_model (model model' : module M) (optimizer optimizer' : O)
  (st : train_state) (path : string) (cuda : bool) (fs : files V W)
  (loaded : M) (loaded_optimizer : O) :
  load_state_dict (unwrap model') (module_state_dict (unwrap model))
    = Loaded loaded ->
  optimizer_load_state_dict optimizer' (optimizer_state_dict_of optimizer)
    = Success loaded_optimizer ->
  load_model load_state_dict optimizer_load_state_dict model' (Some optimizer')
    path cuda
    (save_model module_state_dict optimizer_state_dict_of model optimizer st
       path fs)
  = Success (loaded, Some loaded_optimizer, st).
Proof.
  intros Hload Hopt. unfold load_model, save_model, torch_load, torch_save.
  rewrite dict_get_set_eq. cbn [mbind attempt_bind model_state_dict].
  rewrite Hload. cbn [mbind attempt_bind optimizer_state_dict subscript].
  rewrite Hopt. reflexivity.
Qed.

(** X17.  A checkpoint in which the state dict of a [DataParallel] wrapper
    was saved, every key with the prefix ['module.'], is loaded as the
    state dict of the inner module: when the module rejects the prefixed
    keys, the second attempt of [load_model] loads the original state
    dict. *)
Theorem load_model_wrapped_checkpoint (model : module M) (path : string)
  (cuda : bool) (fs : files V W) (ck : checkpoint V W)
  (sd : list (string * V)) (st : train_state) (e : failure) (m1 m2 : M) :
  dict_get path fs = Ok ck ->
  model_state_dict ck = Some (wrapped_keys sd) ->
  state ck = Some st ->
  NoDup (map fst sd) ->
  load_state_dict (unwrap model) (wrapped_keys sd) = Rejected e m1 ->
  load_state_dict m1 sd = Loaded m2 ->
  load_model load_state_dict optimizer_load_state_dict model None path cuda fs
  = Success (m2, None, st).
Proof.
  intros Hfile Hsd Hst Hnd Hrej Hload. unfold load_model, torch_load.
  rewrite Hfile. cbn [mbind attempt_bind]. rewrite Hsd, Hrej.
  cbn [mbind attempt_bind subscript].
  rewrite fix_wrapped_keys by done.
  rewrite Hload, Hst. reflexivity.
Qed.

End Checkpoints.

(** ** The mean loss *)

Lemma running_mean (losses : list Q) (k0 : nat) (acc : Q) :
  (fold_left (fun m '(k, l) =>
                m + (1 / inject_Z (Z.of_nat (k + 1))) * (l - m))
     (zip (seq k0 (length losses)) losses) acc
   * inject_Z (Z.of_nat (k0 + length losses))
   == acc * inject_Z (Z.of_nat k0) + Qsum losses)%Q.
Proof.
  revert k0 acc. induction losses as [|l losses IH]; intros k0 acc.
  - simpl. rewrite Nat.add_0_r. ring.
  - cbn [length seq zip_with fold_left Qsum foldr].
    replace (k0 + S (length losses)) with (S k0 + length losses) by lia.
    rewrite IH. fold (Qsum losses).
    replace (Z.of_nat (S k0)) with (Z.of_nat k0 + 1)%Z by lia.
    replace (Z.of_nat (k0 + 1)) with (Z.of_nat k0 + 1)%Z by lia.
    rewrite inject_Z_plus.
    assert (0 <= inject_Z (Z.of_nat k0))%Q as Hk
      by (rewrite <- (Zle_Qle 0); lia).
    set (K := inject_Z (Z.of_nat k0)) in *.
    change (inject_Z 1) with 1%Q. field. lra.
Qed.

Section Evaluate.
Context {M : Type}.
Variable batch_loss : M -> tensor3 -> tensor3 -> Q.

(** X18.  [evaluate] returns the arithmetic mean of the losses of the
    batches, each batch cut by [dyn_pad] to its first 32000 samples: the
    running mean of line 45 is the mean, in exact arithmetic. *)
Theorem evaluate_mean (model : M) (dataloader : list (tensor3 * tensor3)) :
  dataloader <> [] ->
  (evaluate batch_loss model dataloader
   == Qsum (map (fun '(x, target) =>
                   batch_loss model (map (map (take default_size)) x)
                     (map (map (take default_size)) target))
              dataloader)
      / inject_Z (Z.of_nat (length dataloader)))%Q.
Proof.
  intros Hne. unfold evaluate, enumerate.
  set (L := fun '(x, target) =>
              batch_loss model (map (map (take default_size)) x)
                (map (map (take default_size)) target)).
  assert (forall k0 acc,
            fold_left (fun test_loss '(example_num, (x, target)) =>
                         let '(x, target) :=
                           dyn_pad x target default_size default_size in
                         let loss := batch_loss model x target in
                         (test_loss
                          + (1 / inject_Z (Z.of_nat (example_num + 1)))
                            * (loss - test_loss))%Q)
              (zip (seq k0 (length dataloader)) dataloader) acc
            = fold_left (fun m '(k, l) =>
                           m + (1 / inject_Z (Z.of_nat (k + 1))) * (l - m))%Q
                (zip (seq k0 (length (map L dataloader))) (map L dataloader)) acc)
    as Hfold.
  { clear Hne. induction dataloader as [|[x target] data IH]; intros k0 acc.
    - done.
    - cbn [length seq zip_with fold_left map]. apply IH. }
  rewrite Hfold.
  pose proof (running_mean (map L dataloader) 0 0) as Hmean.
  rewrite length_map in Hmean.
  change (0 + length dataloader) with (length dataloader) in Hmean.
  change (inject_Z (Z.of_nat 0)) with 0%Q in Hmean.
  assert (0 < inject_Z (Z.of_nat (length dataloader)))%Q as Hpos.
  { rewrite <- (Zlt_Qlt 0). destruct dataloader; [done|]. simpl. lia. }
  rewrite length_map.
  set (n := inject_Z (Z.of_nat (length dataloader))) in *.
  set (r := fold_left _ _ _) in *.
  set (S := Qsum (map L dataloader)) in *.
  assert (S == r * n)%Q as -> by nra.
  field. lra.
Qed.

End Evaluate.

(** ** The training loop *)

Section TrainingFacts.
Context {V M O W : Type}.
Variable module_state_dict : M -> list (string * V).
Variable load_state_dict : M -> list (string * V) -> loading M.
Variable optimizer_state_dict_of : O -> W.
Variable optimizer_load_state_dict : O -> W -> attempt O.
Variable batch_loss : M -> tensor3 -> tensor3 -> Q.
Variable training_loss : M -> tensor3 -> tensor3 -> Q.
Variable optimizer_step : M -> O -> tensor3 -> tensor3 -> M * O.
Variable patience : Z.
Variable checkpoint_path : string.
Variable use_cuda : bool.
Variable tr_data : nat -> list (tensor3 * tensor3).
Variable val_data : list (tensor3 * tensor3).
Variable test_data : list (tensor3 * tensor3).

(** Lines 164-183: a batch changes the module, the optimizer and the step,
    and nothing else. *)
Lemma train_batch_spec (batch : nat * (tensor3 * tensor3))
  (c : @run V M O W) (train_loss : Q) (s : Z) :
  step (cur_state c) = Some s ->
  exists c' train_loss',
    train_batch training_loss optimizer_step (c, train_loss) batch
      = Success (c', train_loss') /\
    step (cur_state c') = Some (s + 1)%Z /\
    worse_epochs (cur_state c') = worse_epochs (cur_state c) /\
    epochs (cur_state c') = epochs (cur_state c) /\
    best_loss (cur_state c') = best_loss (cur_state c) /\
    best_checkpoint (cur_state c') = best_checkpoint (cur_state c) /\
    cur_files c' = cur_files c /\
    train_loss_hist c' = train_loss_hist c /\
    val_loss_hist c' = val_loss_hist c.
Proof.
  intros Hs. destruct batch as [example_num [x target]].
  unfold train_batch, dyn_pad. cbn beta iota zeta.
  match goal with
  | |- context [optimizer_step ?m ?o ?a ?b] =>
      destruct (optimizer_step m o a b) as [model optimizer]
  end.
  rewrite Hs. cbn [mbind attempt_bind subscript].
  eexists _, _. split; [reflexivity|]. done.
Qed.

Lemma train_batches_spec (batches : list (nat * (tensor3 * tensor3)))
  (c : @run V M O W) (train_loss : Q) (s : Z) :
  step (cur_state c) = Some s ->
  exists c' train_loss',
    foldA (train_batch training_loss optimizer_step) batches (c, train_loss)
      = Success (c', train_loss') /\
    step (cur_state c') = Some (s + Z.of_nat (length batches))%Z /\
    worse_epochs (cur_state c') = worse_epochs (cur_state c) /\
    epochs (cur_state c') = epochs (cur_state c) /\
    best_loss (cur_state c') = best_loss (cur_state c) /\
    best_checkpoint (cur_state c') = best_checkpoint (cur_state c) /\
    cur_files c' = cur_files c /\
    train_loss_hist c' = train_loss_hist c /\
    val_loss_hist c' = val_loss_hist c.
Proof.
  revert c train_loss s.
  induction batches as [|batch batches IH]; intros c train_loss s Hs.
  - exists c, train_loss. simpl. rewrite Z.add_0_r. done.
  - cbn [foldA].
    destruct (train_batch_spec batch c train_loss s Hs)
      as (c1 & tl1 & H1 & Hs1 & Hw1 & He1 & Hb1 & Hbc1 & Hf1 & Ht1 & Hv1).
    rewrite H1. cbn [mbind attempt_bind].
    destruct (IH c1 tl1 _ Hs1)
      as (c' & tl' & Hfold & Hstep & Hw & He & Hb & Hbc & Hf & Ht & Hv).
    exists c', tl'. split; [done|].
    split_and!; try congruence. rewrite Hstep. f_equal. simpl length. lia.
Qed.

Lemma best_at_worse (hist : list Q) (b : nat) (v : Q) (w : nat) (u : Q) :
  best_at hist b v w -> (v <= u)%Q -> best_at (hist ++ [u]) b v (w + 1).
Proof.
  intros (Hlen & Hb & Hpre & Hsuf) Hu. unfold best_at. split_and!.
  - rewrite length_app. simpl. lia.
  - rewrite lookup_app_l by lia. done.
  - rewrite take_app_le by lia. done.
  - rewrite drop_app_le by lia. apply Forall_app. split; [done|].
    by constructor.
Qed.

Lemma best_at_all (hist : list Q) (b : nat) (v : Q) (w : nat) :
  best_at hist b v w -> Forall (fun u => (v <= u)%Q) hist.
Proof.
  intros (Hlen & Hb & Hpre & Hsuf).
  rewrite <- (take_drop_middle hist b v Hb).
  apply Forall_app. split.
  - eapply Forall_impl; [exact Hpre|]. intros u Hu. by apply Qlt_le_weak.
  - constructor; [apply Qle_refl|].
    by replace (S b) with (b + 1) by lia.
Qed.

Lemma best_at_better (hist : list Q) (b : nat) (v : Q) (w : nat) (u : Q) :
  best_at hist b v w -> (u < v)%Q -> best_at (hist ++ [u]) (length hist) u 0.
Proof.
  intros Hbest Hu. pose proof (best_at_all _ _ _ _ Hbest) as Hall.
  unfold best_at. split_and!.
  - rewrite length_app. simpl. lia.
  - apply list_lookup_middle. done.
  - rewrite take_app_length. eapply Forall_impl; [exact Hall|].
    intros x Hx. by eapply Qlt_le_trans.
  - rewrite drop_ge; [done|]. rewrite length_app. simpl. lia.
Qed.

Lemma best_at_first (u : Q) : best_at [u] 0 u 0.
Proof. unfold best_at. split_and!; [done|done|constructor|constructor]. Qed.

Lemma cpu_mean_of {X} (batches : list X) (value : Q) :
  match cpu (mean_of batches value) with
  | Success q => batches <> [] /\ q = value
  | Failure f => batches = [] /\ f = AttributeError
  end.
Proof. by destruct batches. Qed.

(** Lines 158-208 keep the books; a pass fails only at lines 207 and 208,
    on a loader without batches. *)
Lemma epoch_bookkeeping (e : nat) (c : @run V M O W) (w : Z) :
  bookkeeping module_state_dict optimizer_state_dict_of batch_loss
    checkpoint_path val_data c ->
  worse_epochs (cur_state c) = Some w ->
  match epoch module_state_dict optimizer_state_dict_of batch_loss
          training_loss optimizer_step checkpoint_path tr_data val_data e c
  with
  | Success c' =>
      tr_data e <> [] /\ val_data <> [] /\
      bookkeeping module_state_dict optimizer_state_dict_of batch_loss
        checkpoint_path val_data c' /\
      length (val_loss_hist c') = S (length (val_loss_hist c)) /\
      (worse_epochs (cur_state c') = Some (w + 1)%Z \/
       worse_epochs (cur_state c') = Some 0%Z)
  | Failure f =>
      f = AttributeError /\ (tr_data e = [] \/ val_data = [])
  end.
Proof.
  intros (Htl & Hep & [s Hs] & Hcases) Hw. unfold epoch.
  rewrite Hs. cbn [subscript mbind attempt_bind].
  destruct (train_batches_spec (enumerate (tr_data e)) c 0%Q s Hs)
    as (c1 & tl & Hfold & Hs1 & Hw1 & He1 & Hb1 & Hbc1 & Hf1 & Ht1 & Hv1).
  rewrite Hfold. cbn [mbind attempt_bind].
  set (v' := evaluate batch_loss (cur_model c1) val_data).
  pose proof (cpu_mean_of (tr_data e) tl) as Hcpu_t.
  pose proof (cpu_mean_of val_data v') as Hcpu_v.
  destruct Hcases
    as [(Hnil & _ & Hbest & Hbc)|(b & v & w0 & Hat & Hw0 & Hbest & Hbc & Hhold)].
  - rewrite Hb1, Hbest. cbn [subscript mbind attempt_bind loss_ge].
    cbn [epochs]. rewrite He1, Hep. cbn [subscript mbind attempt_bind].
    destruct (cpu (mean_of (tr_data e) tl)) as [tl'|f];
      cbn [mbind attempt_bind]; [|destruct Hcpu_t as [? ->]; split; [done|by left]].
    destruct Hcpu_t as [Hne_t ->].
    destruct (cpu (mean_of val_data v')) as [v''|f];
      cbn [mbind attempt_bind]; [|destruct Hcpu_v as [? ->]; split; [done|by right]].
    destruct Hcpu_v as [Hne_v ->].
    cbn [val_loss_hist cur_state worse_epochs].
    rewrite Hv1, Hnil. split_and!; [done|done| |done|by right].
    unfold bookkeeping.
    cbn [val_loss_hist train_loss_hist cur_state epochs step worse_epochs
         best_loss best_checkpoint cur_files].
    rewrite ?Ht1, ?Hv1, ?Hnil. split_and!.
    + rewrite Hnil in Htl. rewrite !length_app. simpl in *. lia.
    + done.
    + by eexists.
    + right. exists 0, v', 0. split_and!; [apply best_at_first|done..|].
      unfold holds_best. cbn [cur_files].
      exists (cur_model c1), (cur_optimizer c1),
        (s + Z.of_nat (length (enumerate (tr_data e))))%Z.
      split; [|done]. unfold save_model, torch_save. rewrite dict_get_set_eq.
      cbn [unwrap]. by rewrite Hs1.
  - rewrite Hb1, Hbest. cbn [subscript mbind attempt_bind loss_ge].
    rewrite Hw0 in Hw. injection Hw as <-.
    destruct (Qle_bool v v') eqn:Hcmp.
    + apply Qle_bool_iff in Hcmp.
      rewrite Hw1, Hw0. cbn [subscript mbind attempt_bind].
      cbn [epochs]. rewrite He1, Hep. cbn [subscript mbind attempt_bind].
      destruct (cpu (mean_of (tr_data e) tl)) as [tl'|f];
        cbn [mbind attempt_bind]; [|destruct Hcpu_t as [? ->]; split; [done|by left]].
      destruct Hcpu_t as [Hne_t ->].
      destruct (cpu (mean_of val_data v')) as [v''|f];
        cbn [mbind attempt_bind]; [|destruct Hcpu_v as [? ->]; split; [done|by right]].
      destruct Hcpu_v as [Hne_v ->].
      cbn [val_loss_hist cur_state worse_epochs]. rewrite Hv1.
      split_and!; [done|done| |rewrite length_app; simpl; lia|by left].
      unfold bookkeeping.
      cbn [val_loss_hist train_loss_hist cur_state epochs step worse_epochs
           best_loss best_checkpoint cur_files].
      rewrite ?Ht1, ?Hv1. split_and!.
      * rewrite !length_app. simpl. lia.
      * rewrite length_app. simpl. do 2 f_equal. lia.
      * by eexists.
      * right. exists b, v, (w0 + 1). split_and!.
        -- by apply best_at_worse.
        -- do 2 f_equal. lia.
        -- done.
        -- by rewrite Hbc1.
        -- unfold holds_best in *. cbn [cur_files]. by rewrite Hf1.
    + assert (v' < v)%Q as Hlt.
      { apply Qnot_le_lt. intros Hle. apply Qle_bool_iff in Hle. congruence. }
      cbn [subscript mbind attempt_bind].
      cbn [epochs]. rewrite He1, Hep. cbn [subscript mbind attempt_bind].
      destruct (cpu (mean_of (tr_data e) tl)) as [tl'|f];
        cbn [mbind attempt_bind]; [|destruct Hcpu_t as [? ->]; split; [done|by left]].
      destruct Hcpu_t as [Hne_t ->].
      destruct (cpu (mean_of val_data v')) as [v''|f];
        cbn [mbind attempt_bind]; [|destruct Hcpu_v as [? ->]; split; [done|by right]].
      destruct Hcpu_v as [Hne_v ->].
      cbn [val_loss_hist cur_state worse_epochs]. rewrite Hv1.
      split_and!; [done|done| |rewrite length_app; simpl; lia|by right].
      unfold bookkeeping.
      cbn [val_loss_hist train_loss_hist cur_state epochs step worse_epochs
           best_loss best_checkpoint cur_files].
      rewrite ?Ht1, ?Hv1. split_and!.
      * rewrite !length_app. simpl. lia.
      * rewrite length_app. simpl. do 2 f_equal. lia.
      * by eexists.
      * right. exists (length (val_loss_hist c)), v', 0. split_and!.
        -- by eapply best_at_better.
        -- done.
        -- done.
        -- done.
        -- unfold holds_best. cbn [cur_files].
           exists (cur_model c1), (cur_optimizer c1),
             (s + Z.of_nat (length (enumerate (tr_data e))))%Z.
           split; [|done]. unfold save_model, torch_save.
           rewrite dict_get_set_eq. cbn [unwrap]. by rewrite Hs1.
Qed.

(** The loop of line 157, from a state whose books are kept. *)
Lemma training_bookkeeping (fuel e : nat) (c : @run V M O W) (w : Z) :
  bookkeeping module_state_dict optimizer_state_dict_of batch_loss
    checkpoint_path val_data c ->
  worse_epochs (cur_state c) = Some w ->
  (0 <= w <= patience)%Z ->
  match training module_state_dict optimizer_state_dict_of batch_loss
          training_loss optimizer_step patience checkpoint_path tr_data
          val_data fuel e c
  with
  | Success (Exited c') =>
      bookkeeping module_state_dict optimizer_state_dict_of batch_loss
        checkpoint_path val_data c' /\
      worse_epochs (cur_state c') = Some patience /\
      length (val_loss_hist c') <= length (val_loss_hist c) + fuel
  | Success (Running c') =>
      bookkeeping module_state_dict optimizer_state_dict_of batch_loss
        checkpoint_path val_data c' /\
      (exists w', worse_epochs (cur_state c') = Some w' /\
                  (0 <= w' < patience)%Z) /\
      length (val_loss_hist c') = length (val_loss_hist c) + fuel
  | Failure f =>
      f = AttributeError /\ (val_data = [] \/ exists e', tr_data e' = [])
  end.
Proof.
  revert e c w. induction fuel as [|fuel IH]; intros e c w Hbook Hw Hle.
  - cbn [training]. rewrite Hw. cbn [subscript mbind attempt_bind].
    destruct (Z.ltb_spec w patience) as [Hlt|Hge].
    + split_and!; [done| |lia]. exists w. split; [done|lia].
    + split_and!; [done| |lia]. rewrite Hw. f_equal. lia.
  - cbn [training]. rewrite Hw. cbn [subscript mbind attempt_bind].
    destruct (Z.ltb_spec w patience) as [Hlt|Hge].
    + pose proof (epoch_bookkeeping e c w Hbook Hw) as Hepoch.
      destruct (epoch _ _ _ _ _ _ _ _ e c) as [c1|f]; cbn [mbind attempt_bind].
      2:{ destruct Hepoch as [-> [Ht|Hv]]; (split; [done|]); eauto. }
      destruct Hepoch as (_ & _ & Hbook1 & Hlen1 & Hw1).
      assert (exists w1, worse_epochs (cur_state c1) = Some w1 /\
                         (0 <= w1 <= patience)%Z) as (w1 & Hw1' & Hle1).
      { destruct Hw1 as [Hw1|Hw1]; eexists; (split; [exact Hw1|lia]). }
      pose proof (IH (S e) c1 w1 Hbook1 Hw1' Hle1) as Hrest.
      destruct (training _ _ _ _ _ _ _ _ _ fuel (S e) c1) as [[c'|c']|f];
        [| |done]; rewrite Hlen1 in Hrest.
      * destruct Hrest as (? & ? & ?). split_and!; [done|done|lia].
      * destruct Hrest as (? & ? & ?). split_and!; [done|done|lia].
    + split_and!; [done| |lia]. rewrite Hw. f_equal. lia.
Qed.

(** The books of the state of lines 143-146 are kept. *)
Lemma bookkeeping_initial (model : M) (optimizer : O) (fs : files V W) :
  bookkeeping module_state_dict optimizer_state_dict_of batch_loss
    checkpoint_path val_data
    {| cur_state := initial_state; cur_model := model;
       cur_optimizer := optimizer; cur_files := fs;
       train_loss_hist := []; val_loss_hist := [] |}.
Proof.
  unfold bookkeeping. cbn. split_and!; [done|done|by eexists|]. by left.
Qed.

(** X19.  Early stopping, from the state of lines 143-146, with a positive
    patience and loaders that give at least one batch.  However many passes
    are allowed, the loop raises nothing.  When it has exited, the
    validation losses end with exactly [patience] passes that did not
    improve on the best pass before them, which was better than every pass
    before it; the two histories have an entry for every pass.  While it
    runs, it has made every pass allowed and fewer than [patience] passes
    have gone by since the best one. *)
Theorem training_early_stopping (model : M) (optimizer : O) (fs : files V W)
  (fuel : nat) :
  (0 < patience)%Z ->
  val_data <> [] ->
  (forall e, tr_data e <> []) ->
  exists c0 p,
    start load_state_dict optimizer_load_state_dict use_cuda model optimizer
      None fs = Success c0 /\
    training module_state_dict optimizer_state_dict_of batch_loss training_loss
      optimizer_step patience checkpoint_path tr_data val_data fuel 0 c0
    = Success p /\
    match p with
    | Exited c =>
        length (val_loss_hist c) <= fuel /\
        length (train_loss_hist c) = length (val_loss_hist c) /\
        exists b v, best_at (val_loss_hist c) b v (Z.to_nat patience)
    | Running c =>
        length (val_loss_hist c) = fuel /\
        length (train_loss_hist c) = fuel /\
        (fuel = 0 \/
         exists b v w,
           best_at (val_loss_hist c) b v w /\ (Z.of_nat w < patience)%Z)
    end.
Proof.
  intros Hpat Hval Htr.
  set (c := {| cur_state := initial_state; cur_model := model;
               cur_optimizer := optimizer; cur_files := fs;
               train_loss_hist := []; val_loss_hist := [] |} : @run V M O W).
  exists c.
  pose proof (training_bookkeeping fuel 0 c 0
                (bookkeeping_initial model optimizer fs) eq_refl ltac:(lia))
    as Hrest.
  destruct (training _ _ _ _ _ _ _ _ _ fuel 0 c) as [p|f].
  2:{ destruct Hrest as [_ [Hv|[e' He']]]; [done|]. by apply Htr in He'. }
  exists p. split; [reflexivity|]. split; [reflexivity|].
  destruct p as [c'|c'].
  - destruct Hrest as ((Htl & _ & _ & Hcases) & Hw & Hlen).
    split_and!; [exact Hlen|exact Htl|].
    destruct Hcases as [(_ & Hw0 & _)|(b & v & w & Hat & Hw' & _)].
    + rewrite Hw0 in Hw. injection Hw as Hw. lia.
    + exists b, v. rewrite Hw' in Hw. injection Hw as <-.
      by rewrite Nat2Z.id.
  - destruct Hrest as ((Htl & _ & _ & Hcases) & (w' & Hw & Hlt) & Hlen).
    cbn in Hlen. split_and!; [exact Hlen|by rewrite Htl|].
    destruct Hcases as [(Hnil & _)|(b & v & w & Hat & Hw' & _)].
    + left. rewrite Hnil in Hlen. done.
    + right. exists b, v, w. split; [done|].
      rewrite Hw' in Hw. injection Hw as <-. lia.
Qed.

(** X20.  When the loop has exited, lines 214-217 reload the module of the
    best pass: if a module is what its state dict makes of any module, the
    validation loss that the script reports is the smallest entry of
    [val_loss_hist], the loss of pass [b], and the state that [load_model]
    returns is the state of that pass: [b] passes counted, no worse pass,
    this loss as the best. *)
Theorem main_tests_best_model (model : M) (optimizer : O) (fs : files V W)
  (fuel : nat) (c : @run V M O W) :
  (forall m m', load_state_dict m' (module_state_dict m) = Loaded m) ->
  (0 < patience)%Z ->
  (c0 ← start load_state_dict optimizer_load_state_dict use_cuda model
          optimizer None fs;
   training module_state_dict optimizer_state_dict_of batch_loss training_loss
     optimizer_step patience checkpoint_path tr_data val_data fuel 0 c0)
  = Success (Exited c) ->
  exists best s b v train_loss test_loss,
    testing load_state_dict optimizer_load_state_dict batch_loss use_cuda
      tr_data val_data test_data c
    = Success (best,
               {| step := Some s; worse_epochs := Some 0%Z;
                  epochs := Some (Z.of_nat b); best_loss := Some (Finite v);
                  best_checkpoint := Some checkpoint_path |},
               (train_loss, v, test_loss)) /\
    val_loss_hist c !! b = Some v /\
    Forall (fun u => (v <= u)%Q) (val_loss_hist c) /\
    test_loss = evaluate batch_loss best test_data.
Proof.
  intros Hround Hpat. cbn [start mbind attempt_bind].
  match goal with
  | |- context [training _ _ _ _ _ _ _ _ _ fuel 0 ?c0] => set (c1 := c0)
  end.
  intros Hexit.
  pose proof (training_bookkeeping fuel 0 c1 0
                (bookkeeping_initial model optimizer fs) eq_refl ltac:(lia))
    as Hrest.
  rewrite Hexit in Hrest.
  destruct Hrest as ((Htl & _ & _ & Hcases) & Hw & Hlen).
  destruct Hcases as [(_ & Hw0 & _)|(b & v & w & Hat & Hw' & _ & Hbc & Hhold)].
  { rewrite Hw0 in Hw. injection Hw as Hw. lia. }
  destruct Hhold as (m & o & s & Hfile & Hv).
  exists m, s, b, v. eexists _, _.
  unfold testing, load_model, torch_load.
  rewrite Hbc. cbn [subscript mbind attempt_bind unwrap]. rewrite Hfile.
  cbn [mbind attempt_bind model_state_dict state]. rewrite Hround.
  cbn [mbind attempt_bind]. rewrite Hv.
  split; [reflexivity|]. split; [apply Hat|].
  split; [by eapply best_at_all|reflexivity].
Qed.

(** X21.  A checkpoint of the older kind, with ['step'] and without
    ['state'], cannot be continued: [load_model] loads the module and the
    optimizer and returns a state with the step only, and the test of the
    loop raises [KeyError] before the first pass. *)
Theorem training_legacy_checkpoint (model : M) (optimizer : O) (path : string)
  (fs : files V W) (ck : checkpoint V W) (sd : list (string * V)) (osd : W)
  (s : Z) (m : M) (o : O) (fuel e : nat) :
  dict_get path fs = Ok ck ->
  state ck = None ->
  ckpt_step ck = Some s ->
  model_state_dict ck = Some sd ->
  load_state_dict model sd = Loaded m ->
  optimizer_state_dict ck = Some osd ->
  optimizer_load_state_dict optimizer osd = Success o ->
  exists c,
    start load_state_dict optimizer_load_state_dict use_cuda model optimizer
      (Some path) fs = Success c /\
    cur_model c = m /\ cur_optimizer c = o /\
    step (cur_state c) = Some s /\
    training module_state_dict optimizer_state_dict_of batch_loss training_loss
      optimizer_step patience checkpoint_path tr_data val_data fuel e c
    = Failure (Builtin KeyError).
Proof.
  intros Hfile Hst Hstep Hsd Hload Hosd Hopt.
  unfold start, load_model, torch_load. rewrite Hfile.
  cbn [mbind attempt_bind unwrap]. rewrite Hsd, Hload.
  cbn [mbind attempt_bind]. rewrite Hosd. cbn [subscript mbind attempt_bind].
  rewrite Hopt. cbn [mbind attempt_bind]. rewrite Hst, Hstep.
  cbn [subscript mbind attempt_bind].
  eexists. split; [reflexivity|]. split_and!; [done..|].
  destruct fuel; reflexivity.
Qed.

(** X22.  With a patience of 0 or less and no checkpoint to continue from,
    the loop makes no pass and nothing is saved; the script then fails at
    line 214 with [KeyError], as the state has no ['best_checkpoint']. *)
Theorem main_without_patience (model : M) (optimizer : O) (fs : files V W)
  (fuel : nat) :
  (patience <= 0)%Z ->
  exists c,
    start load_state_dict optimizer_load_state_dict use_cuda model optimizer
      None fs = Success c /\
    training module_state_dict optimizer_state_dict_of batch_loss training_loss
      optimizer_step patience checkpoint_path tr_data val_data fuel 0 c
    = Success (Exited c) /\
    cur_files c = fs /\
    testing load_state_dict optimizer_load_state_dict batch_loss use_cuda
      tr_data val_data test_data c
    = Failure (Builtin KeyError).
Proof.
  intros Hpat. eexists. split; [reflexivity|].
  split_and!; [|done|done].
  destruct fuel; cbn [training cur_state initial_state worse_epochs subscript
                      mbind attempt_bind];
    by destruct (Z.ltb_spec 0 patience); [lia|].
Qed.

(** X24.  A validation loader without batches stops the script in its
    first pass: [evaluate] returns the float [0.] it started from, and
    after the pass has trained and saved its checkpoint, [val_loss.cpu()]
    at line 208 raises [AttributeError] (line 207 already, when the
    training loader has no batch either). *)
Theorem training_empty_validation (model : M) (optimizer : O)
  (fs : files V W) (fuel : nat) :
  (0 < patience)%Z ->
  val_data = [] ->
  exists c0,
    start load_state_dict optimizer_load_state_dict use_cuda model optimizer
      None fs = Success c0 /\
    training module_state_dict optimizer_state_dict_of batch_loss training_loss
      optimizer_step patience checkpoint_path tr_data val_data (S fuel) 0 c0
    = Failure AttributeError.
Proof.
  intros Hpat Hval. eexists. split; [reflexivity|].
  cbn [training cur_state initial_state worse_epochs subscript mbind
       attempt_bind].
  destruct (Z.ltb_spec 0 patience) as [_|?]; [|lia].
  match goal with
  | |- context [epoch _ _ _ _ _ _ _ _ 0 ?c0] =>
      pose proof (epoch_bookkeeping 0 c0 0
                    (bookkeeping_initial model optimizer fs) eq_refl) as Hepoch;
      destruct (epoch _ _ _ _ _ _ _ _ 0 c0) as [c1|f]
  end.
  - by destruct Hepoch as (_ & Hne & _).
  - by destruct Hepoch as [-> _].
Qed.

End TrainingFacts.

(** ** [dyn_pad] *)

Lemma map_take_short {A} (n : nat) (rows : list (list A)) :
  Forall (fun row => length row <= n) rows -> map (take n) rows = rows.
Proof.
  induction 1 as [|row rows Hrow _ IH]; [done|].
  simpl. by rewrite take_ge, IH.
Qed.

(** X23.  [dyn_pad] pads nothing: it cuts the last dimension after [size_x]
    and [size_y] samples, so two tensors whose rows are not longer than
    that come back as they are, shorter than the sizes asked for. *)
Theorem dyn_pad_short (x y : tensor3) (size_x size_y : nat) :
  Forall (Forall (fun row => length row <= size_x)) x ->
  Forall (Forall (fun row => length row <= size_y)) y ->
  dyn_pad x y size_x size_y = (x, y).
Proof.
  intros Hx Hy. unfold dyn_pad. f_equal.
  - induction Hx as [|ch x Hch _ IH]; [done|].
    simpl. by rewrite map_take_short, IH.
  - induction Hy as [|ch y Hch _ IH]; [done|].
    simpl. by rewrite map_take_short, IH.
Qed.

Lemma dyn_pad_short_witness :
  dyn_pad [[[1; 2]]]%Q [[[3]]]%Q 2 5 = ([[[1; 2]]], [[[3]]])%Q.
Proof.
  apply (dyn_pad_short [[[1; 2]]]%Q [[[3]]]%Q 2 5).
  - repeat constructor.
  - repeat constructor.
Defined.

(** ** The module with one weight *)

Lemma load_model_save_model_witness :
  load_model weight_load_state_dict counter_load_state_dict (Bare 0%Q)
    (Some 0) "checkpoint" false
    (save_model weight_state_dict id (DataParallel 5%Q) 3 initial_state
       "checkpoint" [])
  = Success (5%Q, Some 3, initial_state).
Proof.
  apply (load_model_save_model weight_state_dict weight_load_state_dict id
           counter_load_state_dict (DataParallel 5%Q) (Bare 0%Q) 3 0
           initial_state "checkpoint" false [] 5%Q 3).
  - reflexivity.
  - reflexivity.
Defined.

Lemma load_model_wrapped_checkpoint_witness :
  load_model weight_load_state_dict counter_load_state_dict (Bare 0%Q) None
    "checkpoint" false
    [("checkpoint", wrapped_checkpoint)]
  = Success (5%Q, None, initial_state).
Proof.
  apply (load_model_wrapped_checkpoint weight_load_state_dict
           counter_load_state_dict (Bare 0%Q) "checkpoint" false
           [("checkpoint", wrapped_checkpoint)] wrapped_checkpoint
           [("weight", 5%Q)] initial_state
           (RuntimeError "Unexpected key(s) in state_dict") 0%Q 5%Q).
  - reflexivity.
  - reflexivity.
  - reflexivity.
  - apply (bool_decide_unpack _). by vm_compute.
  - reflexivity.
  - reflexivity.
Defined.

Lemma evaluate_mean_witness :
  (evaluate (fun (m : Q) (x target : tensor3) =>
               m * inject_Z (Z.of_nat (length x)))
     2 [([[[0]]], [[[0]]]); ([[[0]]; [[0]]; [[0]]], [[[0]]])]%Q
   == Qsum (map (fun '(x, target) =>
                   2 * inject_Z (Z.of_nat
                                   (length (map (map (take default_size)) x))))
              [([[[0]]], [[[0]]]); ([[[0]]; [[0]]; [[0]]], [[[0]]])]%Q)
      / inject_Z (Z.of_nat 2))%Q.
Proof.
  apply (evaluate_mean
           (fun (m : Q) (x target : tensor3) =>
              m * inject_Z (Z.of_nat (length x)))%Q
           2%Q [([[[0]]], [[[0]]]); ([[[0]]; [[0]]; [[0]]], [[[0]]])]%Q).
  done.
Defined.

Lemma training_early_stopping_witness :
  exists c0 p,
    start weight_load_state_dict counter_load_state_dict false (-2)%Q 0 None
      ([] : files Q nat) = Success c0 /\
    training weight_state_dict id square_loss square_loss unit_step 2 "checkpoint"
      (fun _ => one_batch) one_batch 4 0 c0
    = Success p /\
    match p with
    | Exited c =>
        length (val_loss_hist c) <= 4 /\
        length (train_loss_hist c) = length (val_loss_hist c) /\
        exists b v, best_at (val_loss_hist c) b v (Z.to_nat 2)
    | Running c =>
        length (val_loss_hist c) = 4 /\
        length (train_loss_hist c) = 4 /\
        (4 = 0 \/
         exists b v w,
           best_at (val_loss_hist c) b v w /\ (Z.of_nat w < 2)%Z)
    end.
Proof.
  apply (training_early_stopping weight_state_dict weight_load_state_dict id
           counter_load_state_dict square_loss square_loss unit_step 2 "checkpoint" false
           (fun _ => one_batch) one_batch (-2)%Q 0 [] 4).
  - reflexivity.
  - discriminate.
  - intros e. discriminate.
Defined.

Lemma main_tests_best_model_witness :
  exists best s b v train_loss test_loss,
    testing weight_load_state_dict counter_load_state_dict square_loss false
      (fun _ => one_batch) one_batch one_batch
      {| cur_state :=
           {| step := Some 4%Z; worse_epochs := Some 2%Z;
              epochs := Some 4%Z; best_loss := Some (Finite 0);
              best_checkpoint := Some "checkpoint" |};
         cur_model := 2%Q;
         cur_optimizer := 4;
         cur_files :=
           [("checkpoint",
             {| model_state_dict := Some [("weight", 0%Q)];
                optimizer_state_dict := Some 2;
                state :=
                  Some {| step := Some 2%Z; worse_epochs := Some 0%Z;
                          epochs := Some 1%Z; best_loss := Some (Finite 0);
                          best_checkpoint := Some "checkpoint" |};
                ckpt_step := None |})];
         train_loss_hist := [4; 1; 0; 1]%Q;
         val_loss_hist := [1; 0; 1; 4]%Q |}
    = Success (best,
               {| step := Some s; worse_epochs := Some 0%Z;
                  epochs := Some (Z.of_nat b); best_loss := Some (Finite v);
                  best_checkpoint := Some "checkpoint" |},
               (train_loss, v, test_loss)) /\
    [1; 0; 1; 4]%Q !! b = Some v /\
    Forall (fun u => (v <= u)%Q) [1; 0; 1; 4]%Q /\
    test_loss = evaluate square_loss best one_batch.
Proof.
  apply (main_tests_best_model weight_state_dict weight_load_state_dict id
           counter_load_state_dict square_loss square_loss unit_step 2 "checkpoint" false
           (fun _ => one_batch) one_batch one_batch (-2)%Q 0 [] 4).
  - intros m m'. reflexivity.
  - reflexivity.
  - vm_compute. reflexivity.
Defined.

Lemma training_legacy_checkpoint_witness :
  exists c,
    start weight_load_state_dict counter_load_state_dict false 0%Q 0
      (Some "old")
      [("old", legacy_checkpoint)]
    = Success c /\
    cur_model c = 3%Q /\ cur_optimizer c = 7 /\
    step (cur_state c) = Some 100%Z /\
    training weight_state_dict id square_loss square_loss unit_step 2 "checkpoint"
      (fun _ => one_batch) one_batch 4 0 c
    = Failure (Builtin KeyError).
Proof.
  apply (training_legacy_checkpoint weight_state_dict weight_load_state_dict
           id counter_load_state_dict square_loss square_loss unit_step 2 "checkpoint"
           false (fun _ => one_batch) one_batch 0%Q 0 "old"
           [("old", legacy_checkpoint)] legacy_checkpoint
           [("weight", 3%Q)] 7 100%Z 3%Q 7 4 0);
    reflexivity.
Defined.

Lemma main_without_patience_witness :
  exists c,
    start weight_load_state_dict counter_load_state_dict false (-2)%Q 0 None
      ([] : files Q nat) = Success c /\
    training weight_state_dict id square_loss square_loss unit_step 0 "checkpoint"
      (fun _ => one_batch) one_batch 4 0 c
    = Success (Exited c) /\
    cur_files c = [] /\
    testing weight_load_state_dict counter_load_state_dict square_loss false
      (fun _ => one_batch) one_batch one_batch c
    = Failure (Builtin KeyError).
Proof.
  apply (main_without_patience weight_state_dict weight_load_state_dict id
           counter_load_state_dict square_loss square_loss unit_step 0 "checkpoint" false
           (fun _ => one_batch) one_batch one_batch (-2)%Q 0 [] 4).
  done.
Defined.

Lemma training_empty_validation_witness :
  exists c0,
    start weight_load_state_dict counter_load_state_dict false (-2)%Q 0 None
      ([] : files Q nat) = Success c0 /\
    training weight_state_dict id square_loss square_loss unit_step 2
      "checkpoint" (fun _ => one_batch) [] 4 0 c0
    = Failure AttributeError.
Proof.
  apply (training_empty_validation weight_state_dict weight_load_state_dict
           id counter_load_state_dict square_loss square_loss unit_step 2
           "checkpoint" false (fun _ => one_batch) [] (-2)%Q 0 [] 3).
  - reflexivity.
  - reflexivity.
Defined.
